(** * Landscape API client: request construction, signing and error taxonomy

    A shallow embedding of [plugins/module_utils/base.py] and the properties
    of its specification.

    Conventions.
    - A Python [str] is a Rocq [string] holding its UTF-8 bytes.  Every
      character the code tests for (comma, backslash, colon, brace, ...) is
      ASCII, and an ASCII byte never occurs inside a multi-byte UTF-8
      sequence, so scanning bytes and scanning code points agree; UTF-8 also
      preserves the code-point order that Python uses to compare strings.
    - A [dict] with string keys is a [gmap string _].
    - Code that can raise returns a [result]. *)

From Stdlib Require Import ZArith Ascii String DecimalString DecimalPos DecimalZ.
From stdpp Require Import base tactics option list sorting gmap strings fin_maps.

Local Open Scope Z_scope.
Set Warnings "-register-all".

(* ===================================================================== *)
(** * Part I. Definitions                                                  *)
(* ===================================================================== *)

(** ** Comma-separated lists with backslash-escaped commas *)

Definition COMMA : ascii := ","%char.
Definition BACKSLASH : ascii := "\"%char.

(** The three loop variables of [_parse_csv_list_safely]: the items yielded
    so far, the [item] being accumulated and the [escaped] flag. *)
Record csv_state := CsvState {
  csv_yielded : list string;
  csv_item : string;
  csv_escaped : bool
}.

Definition csv_init : csv_state := CsvState [] "" false.

(** One iteration of [for c in value].  The last branch leaves [escaped] as
    it is, exactly like the source. *)
Definition csv_step (st : csv_state) (c : ascii) : csv_state :=
  if Ascii.eqb c COMMA then
    if csv_escaped st
    then CsvState (csv_yielded st) (csv_item st +:+ ",") false
    else CsvState (csv_yielded st ++ [csv_item st]) "" (csv_escaped st)
  else if Ascii.eqb c BACKSLASH then
    CsvState (csv_yielded st) (csv_item st) true
  else
    let item := if csv_escaped st then csv_item st +:+ "\" else csv_item st in
    CsvState (csv_yielded st) (item +:+ String c "") (csv_escaped st).

Fixpoint csv_loop (value : string) (st : csv_state) : csv_state :=
  match value with
  | EmptyString => st
  | String c rest => csv_loop rest (csv_step st c)
  end.

(** The two statements after the loop: a pending backslash is appended, and
    the pending item is yielded only when it is not empty. *)
Definition csv_finish (st : csv_state) : list string :=
  let item := if csv_escaped st then csv_item st +:+ "\" else csv_item st in
  csv_yielded st ++ (if String.eqb item "" then [] else [item]).

(** [_parse_csv_list_safely(value)], as the list of the items it yields. *)
Definition _parse_csv_list_safely (value : string) : list string :=
  csv_finish (csv_loop value csv_init).

(** Loop state reached after reading [value] from the start. *)
Definition csv_after (value : string) : csv_state := csv_loop value csv_init.

(** Modelled from the spec: the writer side of the comma escaping, which the
    repository does not contain ("an item containing a literal comma is
    written as [\,]"; items are joined with commas). *)
Fixpoint escape_commas (part : string) : string :=
  match part with
  | EmptyString => EmptyString
  | String c rest =>
      if Ascii.eqb c COMMA then String BACKSLASH (String COMMA (escape_commas rest))
      else String c (escape_commas rest)
  end.

Fixpoint join_with (sep : string) (parts : list string) : string :=
  match parts with
  | [] => ""
  | [p] => p
  | p :: rest => p +:+ sep +:+ join_with sep rest
  end.

Definition join_csv_escaped (parts : list string) : string :=
  join_with "," (escape_commas <$> parts).

Fixpoint contains_char (c : ascii) (s : string) : bool :=
  match s with
  | EmptyString => false
  | String d rest => Ascii.eqb c d || contains_char c rest
  end.

(** ** Bytes *)

Definition byte_of_ascii (c : ascii) : Z := Z.of_N (N_of_ascii c).
Definition ascii_of_byte (b : Z) : ascii := ascii_of_N (Z.to_N (b mod 256)).

Fixpoint bytes_of_string (s : string) : list Z :=
  match s with
  | EmptyString => []
  | String c rest => byte_of_ascii c :: bytes_of_string rest
  end.

Fixpoint string_of_bytes (l : list Z) : string :=
  match l with
  | [] => EmptyString
  | b :: rest => String (ascii_of_byte b) (string_of_bytes rest)
  end.

(** ** SHA-256 and HMAC ([hashlib.sha256], [hmac.new(...).digest()])

    32-bit words are integers in [0, 2^32); every addition is reduced
    modulo [2^32]. *)

Module Sha256.

Definition mask32 : Z := 2 ^ 32 - 1.
Definition add32 (a b : Z) : Z := (a + b) mod 2 ^ 32.
Definition rotr (n x : Z) : Z :=
  Z.lor (Z.shiftr x n) (Z.land (Z.shiftl x (32 - n)) mask32).
Definition ch (x y z : Z) : Z :=
  Z.lxor (Z.land x y) (Z.land (Z.lxor x mask32) z).
Definition maj (x y z : Z) : Z :=
  Z.lxor (Z.lxor (Z.land x y) (Z.land x z)) (Z.land y z).
Definition big_sigma0 (x : Z) : Z := Z.lxor (Z.lxor (rotr 2 x) (rotr 13 x)) (rotr 22 x).
Definition big_sigma1 (x : Z) : Z := Z.lxor (Z.lxor (rotr 6 x) (rotr 11 x)) (rotr 25 x).
Definition small_sigma0 (x : Z) : Z := Z.lxor (Z.lxor (rotr 7 x) (rotr 18 x)) (Z.shiftr x 3).
Definition small_sigma1 (x : Z) : Z := Z.lxor (Z.lxor (rotr 17 x) (rotr 19 x)) (Z.shiftr x 10).

(** The round constants are the first 32 fractional bits of the cube roots
    of the first 64 primes, the initial state those of the square roots of
    the first 8. *)
Definition is_prime (n : Z) : bool :=
  forallb (λ d, negb (n mod d =? 0)) (filter (λ d, d * d ≤ n) (seqZ 2 (n - 2))).

Fixpoint cube_root_bits (bits : nat) (n r : Z) : Z :=
  match bits with
  | O => r
  | S b =>
      let r' := r + 2 ^ Z.of_nat b in
      cube_root_bits b n (if r' * r' * r' <=? n then r' else r)
  end.

Definition primes64 : list Z :=
  Eval vm_compute in take 64 (filter (λ n, Is_true (is_prime n)) (seqZ 2 310)).

Definition round_constants : list Z :=
  Eval vm_compute in (λ p, cube_root_bits 40 (p * 2 ^ 96) 0 mod 2 ^ 32) <$> primes64.

Definition initial_state : list Z :=
  Eval vm_compute in (λ p, Z.sqrt (p * 2 ^ 64) mod 2 ^ 32) <$> take 8 primes64.

(** Message schedule, most recent word first: [w] holds W[t-1], W[t-2], ... *)
Fixpoint schedule (n : nat) (w : list Z) : list Z :=
  match n with
  | O => w
  | S n' =>
      let wt := add32 (add32 (small_sigma1 (nth 1 w 0)) (nth 6 w 0))
                      (add32 (small_sigma0 (nth 14 w 0)) (nth 15 w 0)) in
      schedule n' (wt :: w)
  end.

Definition round (s : list Z) (kw : Z * Z) : list Z :=
  match s with
  | [a; b; c; d; e; f; g; h] =>
      let t1 := add32 (add32 (add32 h (big_sigma1 e)) (add32 (ch e f g) kw.1)) kw.2 in
      let t2 := add32 (big_sigma0 a) (maj a b c) in
      [add32 t1 t2; a; b; c; add32 d t1; e; f; g]
  | _ => s
  end.

Fixpoint words_of_bytes (l : list Z) : list Z :=
  match l with
  | b0 :: b1 :: b2 :: b3 :: rest =>
      (((b0 * 256 + b1) * 256 + b2) * 256 + b3) :: words_of_bytes rest
  | _ => []
  end.

Definition bytes_of_word (w : Z) : list Z :=
  [Z.shiftr w 24 mod 256; Z.shiftr w 16 mod 256; Z.shiftr w 8 mod 256; w mod 256].

Definition compress (s : list Z) (block : list Z) : list Z :=
  let w := rev (schedule 48 (rev (words_of_bytes block))) in
  zip_with add32 s (foldl round s (zip round_constants w)).

Definition pad (msg : list Z) : list Z :=
  let len := Z.of_nat (length msg) in
  msg ++ [128] ++ replicate (Z.to_nat ((55 - len) mod 64)) 0
      ++ bytes_of_word (Z.shiftr (8 * len) 32 mod 2 ^ 32)
      ++ bytes_of_word ((8 * len) mod 2 ^ 32).

Fixpoint blocks (n : nat) (l : list Z) : list (list Z) :=
  match n with
  | O => []
  | S n' => match l with [] => [] | _ => take 64 l :: blocks n' (drop 64 l) end
  end.

Definition sha256 (msg : list Z) : list Z :=
  let padded := pad msg in
  foldl compress initial_state (blocks (length padded) padded) ≫= bytes_of_word.

(** HMAC (RFC 2104) with a 64-byte block. *)
Definition hmac (key msg : list Z) : list Z :=
  let key' := if 64 <? Z.of_nat (length key) then sha256 key else key in
  let block := key' ++ replicate (64 - length key') 0 in
  sha256 (((λ b, Z.lxor b 92) <$> block)
          ++ sha256 (((λ b, Z.lxor b 54) <$> block) ++ msg)).

End Sha256.

(** [hmac.new(key.encode("utf-8"), msg.encode("utf-8"), sha256).digest()] *)
Definition hmac_sha256_digest (key msg : string) : string :=
  string_of_bytes (Sha256.hmac (bytes_of_string key) (bytes_of_string msg)).

(** ** Base64 ([base64.b64encode]) *)

Definition base64_alphabet : string :=
  "ABCDEFGHIJKLMNOPQRSTUVWXYZabcdefghijklmnopqrstuvwxyz0123456789+/".

Definition base64_char (i : Z) : ascii :=
  default "="%char (String.get (Z.to_nat i) base64_alphabet).

Fixpoint b64encode_bytes (l : list Z) : string :=
  match l with
  | [] => ""
  | [b0] =>
      String (base64_char (b0 / 4))
        (String (base64_char (b0 mod 4 * 16)) "==")
  | [b0; b1] =>
      String (base64_char (b0 / 4))
        (String (base64_char (b0 mod 4 * 16 + b1 / 16))
           (String (base64_char (b1 mod 16 * 4)) "="))
  | b0 :: b1 :: b2 :: rest =>
      String (base64_char (b0 / 4))
        (String (base64_char (b0 mod 4 * 16 + b1 / 16))
           (String (base64_char (b1 mod 16 * 4 + b2 / 64))
              (String (base64_char (b2 mod 64)) (b64encode_bytes rest))))
  end.

Definition b64encode (s : string) : string := b64encode_bytes (bytes_of_string s).

(** ** Percent-encoding ([urllib.parse.quote])

    Letters, digits and [_ . - ~] are never quoted; the characters of [safe]
    are left alone as well; every other byte becomes [%XX] with upper-case
    hexadecimal digits. *)

Definition is_always_safe (c : ascii) : bool :=
  let b := byte_of_ascii c in
  ((65 <=? b) && (b <=? 90)) || ((97 <=? b) && (b <=? 122))
  || ((48 <=? b) && (b <=? 57))
  || contains_char c "_.-~".

Definition hex_digit (i : Z) : ascii :=
  default "0"%char (String.get (Z.to_nat i) "0123456789ABCDEF").

Definition percent_byte (c : ascii) : string :=
  let b := byte_of_ascii c in
  String "%" (String (hex_digit (b / 16)) (String (hex_digit (b mod 16)) "")).

Fixpoint quote (s : string) (safe : string) : string :=
  match s with
  | EmptyString => EmptyString
  | String c rest =>
      if is_always_safe c || contains_char c safe
      then String c (quote rest safe)
      else percent_byte c +:+ quote rest safe
  end.

Fixpoint repeat_char (c : ascii) (n : nat) : string :=
  match n with O => "" | S n' => String c (repeat_char c n') end.

(** ** String helpers ([str.split], [str.strip], [str.lower], [str.endswith]) *)

Fixpoint split_go (sep : ascii) (s : string) (cur : string) : list string :=
  match s with
  | EmptyString => [cur]
  | String c rest =>
      if Ascii.eqb c sep then cur :: split_go sep rest ""
      else split_go sep rest (cur +:+ String c "")
  end.

(** [s.split(sep)] for a one-character separator. *)
Definition split (sep : ascii) (s : string) : list string := split_go sep s "".

(** UTF-8 encodings of the code points for which [str.isspace] holds:
    U+0009-000D, U+001C-0020, U+0085, U+00A0, U+1680, U+2000-200A, U+2028,
    U+2029, U+202F, U+205F and U+3000. *)
Definition whitespace_prefix (l : list Z) : option (list Z) :=
  match l with
  | b :: rest =>
      if ((9 <=? b) && (b <=? 13)) || ((28 <=? b) && (b <=? 32)) then Some rest
      else match l with
      | 194 :: b1 :: rest' =>
          if (b1 =? 133) || (b1 =? 160) then Some rest' else None
      | 225 :: 154 :: 128 :: rest' => Some rest'
      | 226 :: 128 :: b2 :: rest' =>
          if ((128 <=? b2) && (b2 <=? 138)) || (b2 =? 168) || (b2 =? 169) || (b2 =? 175)
          then Some rest' else None
      | 226 :: 129 :: 159 :: rest' => Some rest'
      | 227 :: 128 :: 128 :: rest' => Some rest'
      | _ => None
      end
  | [] => None
  end.

(** The same code points read from the end of the string (bytes reversed). *)
Definition whitespace_suffix (l : list Z) : option (list Z) :=
  match l with
  | b :: rest =>
      if ((9 <=? b) && (b <=? 13)) || ((28 <=? b) && (b <=? 32)) then Some rest
      else match l with
      | b1 :: 194 :: rest' =>
          if (b1 =? 133) || (b1 =? 160) then Some rest' else None
      | 128 :: 154 :: 225 :: rest' => Some rest'
      | b2 :: 128 :: 226 :: rest' =>
          if ((128 <=? b2) && (b2 <=? 138)) || (b2 =? 168) || (b2 =? 169) || (b2 =? 175)
          then Some rest' else None
      | 159 :: 129 :: 226 :: rest' => Some rest'
      | 128 :: 128 :: 227 :: rest' => Some rest'
      | _ => None
      end
  | [] => None
  end.

Fixpoint strip_while (next : list Z → option (list Z)) (fuel : nat) (l : list Z) : list Z :=
  match fuel with
  | O => l
  | S fuel' => match next l with Some rest => strip_while next fuel' rest | None => l end
  end.

(** [s.strip()] *)
Definition strip (s : string) : string :=
  let l := strip_while whitespace_prefix (String.length s) (bytes_of_string s) in
  string_of_bytes (rev (strip_while whitespace_suffix (length l) (rev l))).

Definition lower_ascii (c : ascii) : ascii :=
  let b := byte_of_ascii c in
  if (65 <=? b) && (b <=? 90) then ascii_of_byte (b + 32) else c.

(** [s.lower()] on the ASCII letters.  [parse] only asks whether the result
    starts with [http://] or [https://], and no character outside ASCII
    lowers to one of the characters of these prefixes. *)
Fixpoint lower (s : string) : string :=
  match s with
  | EmptyString => EmptyString
  | String c rest => String (lower_ascii c) (lower rest)
  end.

(** [s.startswith(p)] *)
Definition startswith (s p : string) : bool := String.prefix p s.

(** [s.endswith(p)] *)
Definition endswith (s p : string) : bool :=
  String.prefix (String.rev p) (String.rev s).

(** Decimal representation of an integer ([str(n)], [%d]). *)
Definition str_of_int (n : Z) : string := NilZero.string_of_int (Z.to_int n).

(** Two-digit and four-digit zero padding, as [strftime] does. *)
Definition pad2 (n : Z) : string :=
  if n <? 10 then "0" +:+ str_of_int n else str_of_int n.
Definition pad4 (n : Z) : string :=
  if n <? 10 then "000" +:+ str_of_int n
  else if n <? 100 then "00" +:+ str_of_int n
  else if n <? 1000 then "0" +:+ str_of_int n
  else str_of_int n.

(** ** Python values, JSON documents, exceptions *)

(** The values a caller can hand to the encoder.  Floating-point numbers are
    left out; dates and datetimes are naive. *)
Inductive pyvalue :=
| PNone
| PBool (b : bool)
| PInt (n : Z)
| PStr (s : string)
| PDate (year month day : Z)
| PDateTime (year month day hour minute second : Z)
| PList (items : list pyvalue)
| PDict (entries : list (pyvalue * pyvalue)).

(** What [json.loads] returns.  A float keeps its literal and whether it is
    nonzero, which is all that truthiness needs. *)
Inductive json :=
| JNull
| JBool (b : bool)
| JInt (n : Z)
| JFloat (nonzero : bool) (literal : string)
| JStr (s : string)
| JList (items : list json)
| JDict (entries : list (string * json)).

Definition json_truthy (j : json) : bool :=
  match j with
  | JNull => false
  | JBool b => b
  | JInt n => negb (n =? 0)
  | JFloat nonzero _ => nonzero
  | JStr s => negb (String.eqb s "")
  | JList items => match items with [] => false | _ => true end
  | JDict entries => match entries with [] => false | _ => true end
  end.

(** [x is not None] *)
Definition is_not_None (j : json) : bool :=
  match j with JNull => false | _ => true end.

Fixpoint dict_get {A} (key : string) (entries : list (string * A)) : option A :=
  match entries with
  | [] => None
  | (k, v) :: rest => if String.eqb k key then Some v else dict_get key rest
  end.

(** The attributes of an [HTTPError] instance; [JNull] stands for [None]. *)
Record http_error := HttpError {
  e_code : Z;
  e_message : option string;
  e_message_data : json;
  e_error_code : json;
  e_error_message : json
}.

(** Exception classes.  [GeneratedError uid name] is a class created by one
    call of [_build_exception]: [uid] is the identity of the class object,
    [name] its [__name__]. *)
Inductive pyclass :=
| HTTPError
| APIError
| GeneratedError (uid : nat) (name : string)
| MultiError
| UnauthorisedError
| SignatureDoesNotMatchError
| AuthFailureError
| InvalidCredentialsError.

Global Instance pyclass_eq_dec : EqDecision pyclass.
Proof. solve_decision. Defined.

(** [issubclass(cls, APIError)]: every class but [HTTPError] itself derives
    from [APIError], which derives from [HTTPError]. *)
Definition issubclass_APIError (cls : pyclass) : bool :=
  match cls with HTTPError => false | _ => true end.

Inductive exn :=
| HTTPException (cls : pyclass) (e : http_error) (errors : list exn)
| TypeError (msg : string)
| AttributeError (msg : string)
| KeyError (key : string)
| ValueError (msg : string)
| SyntaxError (msg : string)
| JSONDecodeError (doc : string)
| OSError (path : string)
| RequestException (msg : string).

(** [isinstance(e, HTTPError)] and [isinstance(e, APIError)] *)
Definition isinstance_HTTPError (e : exn) : bool :=
  match e with HTTPException _ _ _ => true | _ => false end.
Definition isinstance_APIError (e : exn) : bool :=
  match e with HTTPException cls _ _ => issubclass_APIError cls | _ => false end.

Inductive result (A : Type) :=
| Ok (a : A)
| Raise (e : exn).
Arguments Ok {A} a.
Arguments Raise {A} e.

Global Instance result_ret : MRet result := λ A a, Ok a.
Global Instance result_bind : MBind result := λ A B f m,
  match m with Ok a => f a | Raise e => Raise e end.

(** ** The Python runtime

    Library functions whose exact behaviour lies outside the repository.
    The development is parametric in them. *)
Record url_parts := UrlParts {
  url_scheme : string;
  url_netloc : string;
  url_path : string;
  url_params : string;
  url_query : string;
  url_fragment : string
}.

Record runtime := Runtime {
  (** [json.loads(s)]; [None] when it raises [JSONDecodeError] *)
  json_loads : string → option json;
  (** [urllib.parse.urlparse(url)]; [None] when it raises [ValueError] *)
  urlparse : string → option url_parts;
  (** [urllib.parse.urlunparse(parts)] *)
  urlunparse : url_parts → string;
  (** [int(s)]; [None] when it raises [ValueError] *)
  int_of_str : string → option Z;
  (** [str(v)] and [repr(v)] of a list or a dict *)
  repr_container : pyvalue → string
}.

(** ** Operations on Python values *)

(** [bool(v)] *)
Definition py_truthy (v : pyvalue) : bool :=
  match v with
  | PNone => false
  | PBool b => b
  | PInt n => negb (n =? 0)
  | PStr s => negb (String.eqb s "")
  | PDate _ _ _ | PDateTime _ _ _ _ _ _ => true
  | PList items => match items with [] => false | _ => true end
  | PDict entries => match entries with [] => false | _ => true end
  end.

Definition int_of_bool (b : bool) : Z := if b then 1 else 0.

(** [a == b].  Booleans are integers; lists compare element by element; two
    dicts are equal when they have as many entries and every entry of the
    first has an equal entry in the second. *)
Fixpoint py_eq (a b : pyvalue) {struct a} : bool :=
  match a, b with
  | PNone, PNone => true
  | PBool x, PBool y => Bool.eqb x y
  | PBool x, PInt y => int_of_bool x =? y
  | PInt x, PBool y => x =? int_of_bool y
  | PInt x, PInt y => x =? y
  | PStr x, PStr y => String.eqb x y
  | PDate y1 m1 d1, PDate y2 m2 d2 => (y1 =? y2) && (m1 =? m2) && (d1 =? d2)
  | PDateTime y1 m1 d1 hh1 mm1 ss1, PDateTime y2 m2 d2 hh2 mm2 ss2 =>
      (y1 =? y2) && (m1 =? m2) && (d1 =? d2)
      && (hh1 =? hh2) && (mm1 =? mm2) && (ss1 =? ss2)
  | PList xs, PList ys =>
      (fix all2 (xs ys : list pyvalue) {struct xs} : bool :=
         match xs, ys with
         | [], [] => true
         | x :: xs', y :: ys' => py_eq x y && all2 xs' ys'
         | _, _ => false
         end) xs ys
  | PDict e1, PDict e2 =>
      Nat.eqb (length e1) (length e2)
      && (fix all (e : list (pyvalue * pyvalue)) : bool :=
            match e with
            | [] => true
            | (k, v) :: rest =>
                existsb (λ kv, py_eq k kv.1 && py_eq v kv.2) e2 && all rest
            end) e1
  | _, _ => false
  end.

(** [value.strftime("%Y-%m-%dT%H:%M:%SZ")] *)
Definition strftime_iso (year month day hour minute second : Z) : string :=
  pad4 year +:+ "-" +:+ pad2 month +:+ "-" +:+ pad2 day +:+ "T"
  +:+ pad2 hour +:+ ":" +:+ pad2 minute +:+ ":" +:+ pad2 second +:+ "Z".

(** [str(v)] *)
Definition py_str (rt : runtime) (v : pyvalue) : string :=
  match v with
  | PNone => "None"
  | PBool b => if b then "True" else "False"
  | PInt n => str_of_int n
  | PStr s => s
  | PDate y m d => pad4 y +:+ "-" +:+ pad2 m +:+ "-" +:+ pad2 d
  | PDateTime y m d hh mm ss =>
      pad4 y +:+ "-" +:+ pad2 m +:+ "-" +:+ pad2 d +:+ " "
      +:+ pad2 hh +:+ ":" +:+ pad2 mm +:+ ":" +:+ pad2 ss
  | PList _ | PDict _ => repr_container rt v
  end.

(** [for x in v]: the items of a list, the keys of a dict. *)
Definition py_iter (v : pyvalue) : result (list pyvalue) :=
  match v with
  | PList items => Ok items
  | PDict entries => Ok (fst <$> entries)
  | _ => Raise (TypeError "object is not iterable")
  end.

(** The code points of a string: a byte in [128, 192) continues the
    character begun before it. *)
Fixpoint code_points_go (s : string) (cur : string) : list string :=
  match s with
  | EmptyString => if String.eqb cur "" then [] else [cur]
  | String c rest =>
      let b := byte_of_ascii c in
      if (128 <=? b) && (b <? 192) then code_points_go rest (cur +:+ String c "")
      else (if String.eqb cur "" then [] else [cur]) ++ code_points_go rest (String c "")
  end.
Definition code_points (s : string) : list string := code_points_go s "".

(** [a, b = v] *)
Definition unpack2 (v : pyvalue) : result (pyvalue * pyvalue) :=
  match v with
  | PStr s =>
      match code_points s with
      | [a; b] => Ok (PStr a, PStr b)
      | _ => Raise (ValueError "wrong number of values to unpack")
      end
  | PList [a; b] => Ok (a, b)
  | PDict [(a, _); (b, _)] => Ok (a, b)
  | PList _ | PDict _ => Raise (ValueError "wrong number of values to unpack")
  | _ => Raise (TypeError "cannot unpack non-iterable object")
  end.

(** ** The schema *)

(** A parameter description.  [p_optional] is the truth value of
    [parameter.get("optional")], [p_default] is [parameter.get("default")]
    ([PNone] when the key is absent); the nested descriptions are [None] when
    their key is absent. *)
Inductive parameter := Param {
  p_type : string;
  p_optional : bool;
  p_default : pyvalue;
  p_item : option parameter;
  p_key : option parameter;
  p_value : option parameter;
  p_fields : option (list (string * parameter))
}.

(** One version of one action: its parameters, each with its ["name"], and
    the ["code"] of each declared error. *)
Record handler := Handler {
  h_parameters : list (string * parameter);
  h_errors : list string
}.

(** [SCHEMA]: action name, then version, then handler; in declaration order. *)
Definition schema := list (string * list (string * handler)).

(** ** The error registry ([_ErrorsContainer], [_build_exceptions])

    The container holds the classes as instance attributes; the registry is
    the mapping from attribute name to class.  Every name that is looked up
    comes out of [_get_error_code_name] and so ends in [Error], which none of
    the attributes provided by the container class itself does. *)

Definition add_error (error_name : string) (error : pyclass)
    (self : gmap string pyclass) : gmap string pyclass :=
  <[error_name := error]> self.

Definition lookup_error (self : gmap string pyclass) (error_name : string) : option pyclass :=
  self !! error_name.

Definition _get_error_code_name (error_code : string) : string :=
  if endswith error_code "Error" then error_code else error_code +:+ "Error".

(** [_build_exceptions].  Every declared error code builds a class, which
    takes the next free identity [uid], and the class is registered only when
    the name is not registered yet.  The state is the container and the
    number of classes created so far. *)
Definition build_error (st : gmap string pyclass * nat) (code : string)
    : gmap string pyclass * nat :=
  let exception_name := _get_error_code_name code in
  let exception_type := GeneratedError st.2 exception_name in
  match lookup_error st.1 exception_name with
  | Some _ => (st.1, S st.2)
  | None => (add_error exception_name exception_type st.1, S st.2)
  end.

Definition build_handler (st : gmap string pyclass * nat) (version : string * handler)
    : gmap string pyclass * nat :=
  foldl build_error st (h_errors version.2).

Definition build_action (st : gmap string pyclass * nat)
    (action : string * list (string * handler)) : gmap string pyclass * nat :=
  foldl build_handler st action.2.

Definition _build_exceptions_from (st : gmap string pyclass * nat) (sch : schema)
    : gmap string pyclass * nat :=
  foldl build_action st sch.

Definition _build_exceptions (sch : schema) : gmap string pyclass :=
  (_build_exceptions_from (∅, O) sch).1.

(** The registrations that follow the class definitions at module level. *)
Definition module_errors (sch : schema) : gmap string pyclass :=
  add_error "InvalidCredentialsError" InvalidCredentialsError
    (add_error "AuthFailureError" AuthFailureError
       (add_error "SignatureDoesNotMatchError" SignatureDoesNotMatchError
          (add_error "Unauthorised" UnauthorisedError
             (add_error "MultiError" MultiError (_build_exceptions sch))))).

(** ** The parameter encoder ([_API._encode_*]) *)

(** [s.replace(" ", "_")] *)
Fixpoint replace_spaces (s : string) : string :=
  match s with
  | EmptyString => EmptyString
  | String c rest =>
      String (if Ascii.eqb c " " then "_"%char else c) (replace_spaces rest)
  end.

(** [os.path.basename(path)]: what follows the last slash. *)
Definition basename (path : string) : string :=
  default path (last (split "/" path)).

(** [key, sep, value = item.partition("=")], [None] when [sep] is empty. *)
Fixpoint partition_eq (item : string) : option (string * string) :=
  match item with
  | EmptyString => None
  | String c rest =>
      if Ascii.eqb c "=" then Some ("", rest)
      else '(k, v) ← partition_eq rest; Some (String c k, v)
  end.

(** [_parse_csv_mapping_safely(value)], consumed to the end. *)
Fixpoint csv_pairs (items : list string) : result (list (string * string)) :=
  match items with
  | [] => Ok []
  | item :: rest =>
      match partition_eq item with
      | None => Raise (ValueError ("invalid key/value pair " +:+ item))
      | Some kv => pairs ← csv_pairs rest; Ok (kv :: pairs)
      end
  end.

Definition _parse_csv_mapping_safely (value : string) : result (list (string * string)) :=
  csv_pairs (_parse_csv_list_safely value).

(** The keys of a dict built by inserting [keys] one after the other. *)
Fixpoint dict_keys_of (seen : list string) (keys : list string) : list string :=
  match keys with
  | [] => []
  | k :: rest =>
      if bool_decide (k ∈ seen) then dict_keys_of seen rest
      else k :: dict_keys_of (k :: seen) rest
  end.

(** [name in arguments] *)
Definition arg_contains (name : string) (arguments : pyvalue) : bool :=
  match arguments with
  | PDict entries => existsb (λ kv, py_eq (PStr name) kv.1) entries
  | PList items => existsb (py_eq (PStr name)) items
  | _ => false
  end.

Fixpoint dict_pop (name : string) (entries : list (pyvalue * pyvalue))
    : option (pyvalue * list (pyvalue * pyvalue)) :=
  match entries with
  | [] => None
  | (k, v) :: rest =>
      if py_eq (PStr name) k then Some (v, rest)
      else '(found, rest') ← dict_pop name rest; Some (found, (k, v) :: rest')
  end.

(** [arguments.pop(name)], the value and what is left of [arguments]. *)
Definition arg_pop (name : string) (arguments : pyvalue) : result (pyvalue * pyvalue) :=
  match arguments with
  | PDict entries =>
      match dict_pop name entries with
      | Some (v, rest) => Ok (v, PDict rest)
      | None => Raise (KeyError name)
      end
  | _ => Raise (TypeError "pop: an integer is required")
  end.

(** [dictionary.copy()] *)
Definition py_copy (v : pyvalue) : result pyvalue :=
  match v with
  | PDict _ | PList _ => Ok v
  | _ => Raise (AttributeError "copy")
  end.

Section Encoder.

Context (rt : runtime).
(** [open(value, "rb").read()], the bytes read or the exception raised. *)
Context (read_binary : pyvalue → result string).

Definition encode_str (name : string) (value : pyvalue) : result (gmap string string) :=
  Ok {[ name := py_str rt value ]}.

Definition _encode_integer := encode_str.
Definition _encode_float := encode_str.
Definition _encode_raw_string := encode_str.
Definition _encode_enum := encode_str.

Definition _encode_date (name : string) (value : pyvalue) : result (gmap string string) :=
  match value with
  | PStr s => Ok {[ name := s ]}
  | PDate y m d => Ok {[ name := strftime_iso y m d 0 0 0 ]}
  | PDateTime y m d hh mm ss => Ok {[ name := strftime_iso y m d hh mm ss ]}
  | _ => Raise (AttributeError "strftime")
  end.

Definition _encode_unicode (name : string) (value : pyvalue) : result (gmap string string) :=
  match value with
  | PDate _ _ _ | PDateTime _ _ _ _ _ _ => _encode_date name value
  | _ => encode_str name value
  end.

Definition _encode_file (name : string) (value : pyvalue) : result (gmap string string) :=
  contents ← read_binary value;
  match value with
  | PStr path => Ok {[ name := basename path +:+ "$$" +:+ b64encode contents ]}
  | _ => Raise (TypeError "basename: expected str, bytes or os.PathLike object")
  end.

Definition _encode_boolean (name : string) (value : pyvalue) : result (gmap string string) :=
  Ok {[ name := if py_truthy value then "true" else "false" ]}.

Definition _encode_data (name : string) (value : pyvalue) : result (gmap string string) :=
  contents ← read_binary value;
  Ok {[ name := b64encode contents ]}.

Section Recursive.

(** [self._encode_argument], for the handlers that call it back. *)
Variable encode : parameter → string → pyvalue → result (gmap string string).

Fixpoint encode_items (item : option parameter) (name : string) (i : Z)
    (sequence : list pyvalue) (acc : gmap string string) : result (gmap string string) :=
  match sequence with
  | [] => Ok acc
  | x :: rest =>
      match item with
      | None => Raise (KeyError "item")
      | Some item_spec =>
          encoded_item ← encode item_spec (name +:+ "." +:+ str_of_int (i + 1)) x;
          encode_items item name (i + 1) rest (encoded_item ∪ acc)
      end
  end.

Definition _encode_list (parameter : parameter) (name : string) (sequence : pyvalue)
    : result (gmap string string) :=
  sequence' ← match sequence with
              | PStr s => Ok (PStr <$> (strip <$> split "," s))
              | _ => py_iter sequence
              end;
  encode_items (p_item parameter) name 0 sequence' ∅.

Fixpoint encode_entries (keyparam valueparam : parameter) (name : string)
    (items : list (result (pyvalue * pyvalue))) (acc : gmap string string)
    : result (gmap string string) :=
  match items with
  | [] => Ok acc
  | entry :: rest =>
      '(key, value) ← entry;
      encoded_key ← encode keyparam "<key>" key;
      match encoded_key !! "<key>" with
      | None => Raise (KeyError "<key>")
      | Some key' =>
          encoded_value ← encode valueparam (name +:+ "." +:+ key') value;
          encode_entries keyparam valueparam name rest (encoded_value ∪ acc)
      end
  end.

(** The [(key, value)] pairs that the loop of [_encode_mapping] runs over,
    each with the outcome of its unpacking.  A string has become a dict by
    then, and iterating a dict gives its keys. *)
Definition mapping_entries (items : pyvalue) : result (list (result (pyvalue * pyvalue))) :=
  match items with
  | PStr s =>
      match _parse_csv_mapping_safely s with
      | Raise e => Raise e
      | Ok pairs =>
          Ok (unpack2 <$> (PStr <$> dict_keys_of [] ((λ kv, strip kv.1) <$> pairs)))
      end
  | PDict entries => Ok (Ok <$> entries)
  | _ =>
      match py_iter items with
      | Raise e => Raise e
      | Ok elements => Ok (unpack2 <$> elements)
      end
  end.

Definition _encode_mapping (parameter : parameter) (name : string) (items : pyvalue)
    : result (gmap string string) :=
  match items, mapping_entries items with
  | PStr _, Raise e => Raise e
  | _, entries =>
      match p_key parameter, p_value parameter with
      | None, _ => Raise (KeyError "key")
      | _, None => Raise (KeyError "value")
      | Some keyparam, Some valueparam =>
          match entries with
          | Raise e => Raise e
          | Ok entries' => encode_entries keyparam valueparam name entries' ∅
          end
      end
  end.

Fixpoint encode_fields (fields : list (string * parameter)) (arguments : pyvalue)
    (prefix : string) (acc : gmap string string)
    : result (gmap string string * pyvalue) :=
  match fields with
  | [] => Ok (acc, arguments)
  | (parameter_name, parameter_description) :: rest =>
      if negb (arg_contains parameter_name arguments) then
        if negb (p_optional parameter_description)
        then Raise (TypeError ("Missing parameter " +:+ parameter_name))
        else encode_fields rest arguments prefix acc
      else
        '(value, arguments') ← arg_pop parameter_name arguments;
        encoded_item ← encode parameter_description (prefix +:+ parameter_name) value;
        encode_fields rest arguments' prefix (encoded_item ∪ acc)
  end.

Definition encode_struct_fields (fields : list (string * parameter)) (arguments : pyvalue)
    (prefix : string) : result (gmap string string) :=
  '(acc, arguments') ← encode_fields fields arguments prefix ∅;
  if py_truthy arguments'
  then Raise (TypeError ("Extra arguments: " +:+ repr_container rt arguments'))
  else Ok acc.

Definition _encode_structure (parameter : parameter) (name : string) (dictionary : pyvalue)
    : result (gmap string string) :=
  match p_fields parameter with
  | None => Raise (KeyError "fields")
  | Some fields =>
      arguments ← py_copy dictionary;
      encode_struct_fields fields arguments (name +:+ ".")
  end.

(** [getattr(self, "_encode_%s" % kind)(parameter, name, value)].  Only the
    fourteen type handlers are attributes of that form for a schema type. *)
Definition handler_for (kind : string) (parameter : parameter) (name : string)
    (value : pyvalue) : result (gmap string string) :=
  if String.eqb kind "integer" then _encode_integer name value
  else if String.eqb kind "float" then _encode_float name value
  else if String.eqb kind "raw_string" then _encode_raw_string name value
  else if String.eqb kind "enum" then _encode_enum name value
  else if String.eqb kind "unicode" then _encode_unicode name value
  else if String.eqb kind "unicode_line" then _encode_unicode name value
  else if String.eqb kind "unicode_title" then _encode_unicode name value
  else if String.eqb kind "file" then _encode_file name value
  else if String.eqb kind "boolean" then _encode_boolean name value
  else if String.eqb kind "date" then _encode_date name value
  else if String.eqb kind "list" then _encode_list parameter name value
  else if String.eqb kind "mapping" then _encode_mapping parameter name value
  else if String.eqb kind "data" then _encode_data name value
  else if String.eqb kind "structure" then _encode_structure parameter name value
  else Raise (AttributeError ("_encode_" +:+ kind)).

End Recursive.

Fixpoint _encode_argument (parameter : parameter) (name : string) (value : pyvalue)
    {struct parameter} : result (gmap string string) :=
  if p_optional parameter && py_eq value (p_default parameter) then Ok ∅
  else
    let kind := replace_spaces (p_type parameter) in
    handler_for _encode_argument kind parameter name value.

Definition _encode_struct_fields := encode_struct_fields _encode_argument.

End Encoder.

(** ** HTTP errors *)

(** [j[key]] *)
Definition subscript (j : json) (key : string) : result json :=
  match j with
  | JDict entries =>
      match dict_get key entries with
      | Some v => Ok v
      | None => Raise (KeyError key)
      end
  | _ => Raise (TypeError "object is not subscriptable by a string")
  end.

(** [HTTPError.__init__(self, code, message=None, message_data=None)] *)
Definition HTTPError_init (rt : runtime) (code : Z) (message : option string)
    (message_data : json) : result http_error :=
  parsed ← match message with
           | Some m =>
               if startswith m "{" then
                 match json_loads rt m with
                 | Some j => Ok j
                 | None => Raise (JSONDecodeError m)
                 end
               else Ok JNull
           | None => Ok JNull
           end;
  let data := if json_truthy message_data then message_data else parsed in
  if json_truthy data then
    error_code ← subscript data "error";
    error_message ← subscript data "message";
    Ok (HttpError code message data error_code error_message)
  else Ok (HttpError code message data JNull JNull).

(** [_get_error_code_name] applied to a decoded value: only a string has
    [endswith]. *)
Definition error_code_name (error_code : json) : result string :=
  match error_code with
  | JStr s => Ok (_get_error_code_name s)
  | _ => Raise (AttributeError "endswith")
  end.

(** [for sub_error in v] *)
Definition json_iter (v : json) : result (list json) :=
  match v with
  | JList items => Ok items
  | JDict entries => Ok (JStr <$> (fst <$> entries))
  | JStr s => Ok (JStr <$> code_points s)
  | _ => Raise (TypeError "object is not iterable")
  end.

(** [sub_error.get("error")] *)
Definition json_get (v : json) (key : string) : result json :=
  match v with
  | JDict entries => Ok (default JNull (dict_get key entries))
  | _ => Raise (AttributeError "get")
  end.

(** [cls(code, message_data=message_data)].  [MultiError.__init__] has no
    such keyword. *)
Definition new_from_data (rt : runtime) (cls : pyclass) (code : Z) (message_data : json)
    : result exn :=
  match cls with
  | MultiError =>
      Raise (TypeError "__init__() got an unexpected keyword argument 'message_data'")
  | _ => e ← HTTPError_init rt code None message_data; Ok (HTTPException cls e [])
  end.

Fixpoint sub_exceptions (rt : runtime) (registry : gmap string pyclass) (code : Z)
    (sub_errors : list json) : result (list exn) :=
  match sub_errors with
  | [] => Ok []
  | sub_error :: rest =>
      error ← json_get sub_error "error";
      exception ←
        (if is_not_None error then
           name ← (sub ← subscript sub_error "error"; error_code_name sub);
           match lookup_error registry name with
           | Some error_class => new_from_data rt error_class code sub_error
           | None => new_from_data rt APIError code sub_error
           end
         else new_from_data rt APIError code sub_error);
      exceptions ← sub_exceptions rt registry code rest;
      Ok (exception :: exceptions)
  end.

(** [MultiError.__init__(self, http_code, message)] *)
Definition MultiError_init (rt : runtime) (registry : gmap string pyclass) (http_code : Z)
    (message : option string) : result exn :=
  e ← HTTPError_init rt http_code message JNull;
  errors ← subscript (e_message_data e) "errors";
  sub_errors ← json_iter errors;
  exceptions ← sub_exceptions rt registry (e_code e) sub_errors;
  Ok (HTTPException MultiError e exceptions).

(** [cls(code, message)] *)
Definition new_exception (rt : runtime) (registry : gmap string pyclass) (cls : pyclass)
    (code : Z) (message : option string) : result exn :=
  match cls with
  | MultiError => MultiError_init rt registry code message
  | _ => e ← HTTPError_init rt code message JNull; Ok (HTTPException cls e [])
  end.

(** ** The transport and the world *)

Record request := Request {
  req_url : string;
  req_data : string;
  req_headers : gmap string string;
  req_verify : pyvalue
}.

Record response := Response {
  resp_ok : bool;
  resp_status_code : Z;
  resp_text : string
}.

(** What a call depends on besides its arguments: the clock, the server
    behind [session.post] (its response, or the exception [requests]
    raises), and the module-level [errors] container. *)
Record environment := Environment {
  env_timestamp : string;
  env_post : request → result response;
  env_errors : gmap string pyclass
}.

(** What a call can change: the dict objects, by address, and the requests
    sent so far.  A dict holds each value by the bytes that [quote]
    percent-encodes: the UTF-8 encoding of a [str], and the bytes themselves
    of a [bytes] value such as [_encode_data] returns. *)
Record world := World {
  dicts : gmap nat (gmap string string);
  posts : list request
}.

(** [fetch(url, post_body, headers, cainfo=cainfo)] *)
Definition fetch (rt : runtime) (env : environment) (url post_body : string)
    (headers : gmap string string) (cainfo : pyvalue) (w : world)
    : result string * world :=
  let headers := <["Content-type" := "application/x-www-form-urlencoded"]> headers in
  let sent := Request url post_body headers cainfo in
  let w' := World (dicts w) (posts w ++ [sent]) in
  match env_post env sent with
  | Raise e => (Raise e, w')
  | Ok response =>
      if negb (resp_ok response) then
        match HTTPError_init rt (resp_status_code response) (Some (resp_text response)) JNull with
        | Ok e => (Raise (HTTPException HTTPError e []), w')
        | Raise e => (Raise e, w')
        end
      else (Ok (resp_text response), w')
  end.

(** ** [parse] and [run_query] *)

(** [parse(url)]: host, port and path. *)
Definition parse (rt : runtime) (url : string) : result (string * option Z * string) :=
  let lowurl := lower url in
  if negb (startswith lowurl "http://" || startswith lowurl "https://") then
    Raise (SyntaxError ("URL must start with 'http://' or 'https://': " +:+ url))
  else
    let url := strip url in
    match urlparse rt url with
    | None => Raise (ValueError "urlparse")
    | Some parsed =>
        let path := urlunparse rt (UrlParts "" "" (url_path parsed) (url_params parsed)
                                            (url_query parsed) (url_fragment parsed)) in
        let host := url_netloc parsed in
        if contains_char ":" host then
          match split ":" host with
          | [host; port] => Ok (host, int_of_str rt port, path)
          | _ => Raise (ValueError "too many values to unpack (expected 2)")
          end
        else Ok (host, None, path)
    end.

(** The first loop of [run_query]: every entry is popped and put back. *)
Definition rekey (params : gmap string string) : gmap string string :=
  foldl (λ acc kv, <[kv.1 := kv.2]> (delete kv.1 acc)) params (map_to_list params).

(** [params.update({...})] with the six fixed fields. *)
Definition fixed_fields (access_key action timestamp version : string)
    (params : gmap string string) : gmap string string :=
  <["version" := version]>
    (<["timestamp" := timestamp]>
       (<["signature_method" := "HmacSHA256"]>
          (<["signature_version" := "2"]>
             (<["action" := action]>
                (<["access_key_id" := access_key]> params))))).

Definition fixed_field_names : list string :=
  ["access_key_id"; "action"; "signature_version"; "signature_method";
   "timestamp"; "version"].

(** Python compares the [(key, value)] tuples of [params.items()]: by key,
    then by value. *)
Definition item_le (a b : string * string) : Prop :=
  match String.compare a.1 b.1 with
  | Lt => True
  | Eq => String.le a.2 b.2
  | Gt => False
  end.

Global Instance item_le_dec : RelDecision item_le.
Proof. intros a b. unfold item_le. destruct (String.compare a.1 b.1); apply _. Defined.

(** [sorted(params.items())] *)
Definition sorted_items (params : gmap string string) : list (string * string) :=
  merge_sort item_le (map_to_list params).

(** The canonical query string, over the bytes of the keys and values
    ([quote] takes a [str] and [bytes] alike). *)
Definition sign_params (params : gmap string string) : string :=
  join_with "&" ((λ kv, quote kv.1 "~" +:+ "=" +:+ quote kv.2 "~") <$> sorted_items params).

Definition signed_host_of (host : string) (port : option Z) : string :=
  match port with
  | Some p => host +:+ ":" +:+ str_of_int p
  | None => host
  end.

Definition string_to_sign (method signed_host path signed_params : string) : string :=
  method +:+ String "010" (signed_host +:+ String "010" (path +:+ String "010" signed_params)).

(** The statements of [run_query] between [params.update] and the call of
    [fetch]: the URI to post to, the signed body and the signed host. *)
Definition signed_request (rt : runtime) (secret_key uri : string)
    (params : gmap string string) : result (string * string * string) :=
  let method := "POST" in
  '(host, port, path) ← parse rt uri;
  let signed_host := signed_host_of host port in
  let '(path, uri) :=
    if String.eqb path "" then ("/", uri +:+ "/") else (path, uri) in
  let signed_params := sign_params params in
  let to_sign := string_to_sign method signed_host path signed_params in
  let digest := hmac_sha256_digest secret_key to_sign in
  let signature := b64encode digest in
  let signed_params := signed_params +:+ "&signature=" +:+ quote signature "/" in
  Ok (uri, signed_params, signed_host).

(** The [except HTTPError as e] clause of [run_query], applied to what
    [fetch] returned or raised. *)
Definition translate_error (rt : runtime) (registry : gmap string pyclass)
    (fetched : result string) : result string :=
  match fetched with
  | Raise (HTTPException cls e errs) =>
      if is_not_None (e_error_code e) then
        name ← error_code_name (e_error_code e);
        match lookup_error registry name with
        | Some error_class =>
            raised ← new_exception rt registry error_class (e_code e) (e_message e);
            Raise raised
        | None => Raise (HTTPException cls e errs)
        end
      else Raise (HTTPException cls e errs)
  | _ => fetched
  end.

(** [run_query(access_key, secret_key, action, params, uri, ssl_ca_file,
    version)]; [params] is the address of the caller's dict. *)
Definition run_query (rt : runtime) (env : environment)
    (access_key secret_key action : string) (params : nat) (uri : string)
    (ssl_ca_file : pyvalue) (version : string) (w : world) : result string * world :=
  match dicts w !! params with
  | None => (Raise (AttributeError "items"), w)
  | Some d =>
      let timestamp := env_timestamp env in
      let d := fixed_fields access_key action timestamp version (rekey d) in
      let w := World (<[params := d]> (dicts w)) (posts w) in
      match signed_request rt secret_key uri d with
      | Raise e => (Raise e, w)
      | Ok (uri, signed_params, signed_host) =>
          let fetched :=
            fetch rt env uri signed_params {[ "Host" := signed_host ]} ssl_ca_file w in
          (translate_error rt (env_errors env) fetched.1, fetched.2)
      end
  end.

(** ** The typed client ([_API]) *)

Definition LATEST_VERSION : string := "2011-08-01".
Definition FUTURE_VERSION : string := "2013-11-04".

(** What a client class holds in [_run_query]: [run_query] with the
    arguments after [ssl_ca_file] already bound. *)
Definition query_function : Type :=
  runtime → environment → string → string → string → nat → string → pyvalue →
  world → result string * world.

(** [staticmethod(run_query)], the [_run_query] of [_API] and of the classes
    that do not replace it: [version] takes its default. *)
Definition run_query_static : query_function :=
  λ rt env access_key secret_key action params uri ssl_ca_file,
    run_query rt env access_key secret_key action params uri ssl_ca_file LATEST_VERSION.

(** [staticmethod(partial(run_query, version=version))], as [APIv2] has it
    with [FUTURE_VERSION]. *)
Definition run_query_partial (version : string) : query_function :=
  λ rt env access_key secret_key action params uri ssl_ca_file,
    run_query rt env access_key secret_key action params uri ssl_ca_file version.

(** A client: the attributes set by [__init__], and the two attributes of
    its class, [version] (set by [api_factory]) and [_run_query]. *)
Record api := Api {
  _uri : string;
  _access_key : string;
  _secret_key : string;
  _ssl_ca_file : pyvalue;
  _json : bool;
  _schema : schema;
  version : string;
  _run_query : query_function
}.

(** What a call returns: the response text, or the decoded document. *)
Inductive api_result :=
| Text (s : string)
| Decoded (j : json).

(** [_API.run_query(self, action_name, arguments)] *)
Definition API_run_query (rt : runtime) (env : environment) (self : api)
    (action_name : string) (arguments : nat) (w : world) : result api_result * world :=
  match _run_query self rt env (_access_key self) (_secret_key self) action_name
          arguments (_uri self) (_ssl_ca_file self) w with
  | (Raise e, w) => (Raise e, w)
  | (Ok text, w) =>
      if negb (_json self) then
        match json_loads rt text with
        | Some j => (Ok (Decoded j), w)
        | None => (Raise (JSONDecodeError text), w)
        end
      else (Ok (Text text), w)
  end.

(** [_API.call(self, method, **kwargs)].  The encoded arguments are a new
    dict, which takes a fresh address. *)
Definition call (rt : runtime) (read_binary : pyvalue → result string) (env : environment)
    (self : api) (method : string) (kwargs : list (string * pyvalue)) (w : world)
    : result api_result * world :=
  match dict_get method (_schema self) with
  | None => (Raise (KeyError method), w)
  | Some versions =>
      match dict_get (version self) versions with
      | None => (Raise (KeyError (version self)), w)
      | Some action =>
          let fields := h_parameters action in
          match _encode_struct_fields rt read_binary fields
                  (PDict (prod_map PStr id <$> kwargs)) "" with
          | Raise e => (Raise e, w)
          | Ok arguments =>
              let address := fresh (dom (dicts w)) in
              let w := World (<[address := arguments]> (dicts w)) (posts w) in
              API_run_query rt env self method address w
          end
      end
  end.

(** [_API.call_arbitrary(self, method, arguments)] *)
Definition call_arbitrary (rt : runtime) (env : environment) (self : api)
    (method : string) (arguments : nat) (w : world) : result api_result * world :=
  API_run_query rt env self method arguments w.

(** ** A reference runtime

    An executable instance of [runtime], used to run the model on concrete
    requests.  It covers ASCII [http(s)] URLs without brackets, decimal port
    numbers, and JSON documents made of one object whose members are strings
    without escapes; it rejects what lies outside. *)

Definition DQUOTE : ascii := "034"%char.

(** [s.find(c)]: what precedes the first [c], and what follows it. *)
Fixpoint cut_at (stop : ascii → bool) (s : string) : string * option string :=
  match s with
  | EmptyString => ("", None)
  | String c rest =>
      if stop c then ("", Some rest)
      else let '(before, after) := cut_at stop rest in (String c before, after)
  end.

(** What precedes the first character satisfying [stop], and the rest from
    that character on. *)
Fixpoint span_until (stop : ascii → bool) (s : string) : string * string :=
  match s with
  | EmptyString => ("", "")
  | String c rest =>
      if stop c then ("", s)
      else let '(before, after) := span_until stop rest in (String c before, after)
  end.

Definition ref_splitparams (url : string) : string * string :=
  let segments := split "/" url in
  let last_segment := default "" (last segments) in
  match cut_at (Ascii.eqb ";") last_segment with
  | (_, None) => (url, "")
  | (kept, Some params) =>
      (String.substring 0 (String.length url - String.length last_segment) url +:+ kept,
       params)
  end.

Definition ref_urlparse (url : string) : option url_parts :=
  let '(scheme, rest) :=
    match cut_at (Ascii.eqb ":") url with
    | (before, Some after) =>
        if String.eqb (lower before) "http" || String.eqb (lower before) "https"
        then (lower before, after) else ("", url)
    | _ => ("", url)
    end in
  let '(netloc, rest) :=
    if startswith rest "//" then
      span_until (λ c, contains_char c "/?#") (String.substring 2 (String.length rest) rest)
    else ("", rest) in
  if xorb (contains_char "[" netloc) (contains_char "]" netloc) then None
  else
    let '(rest, fragment) := cut_at (Ascii.eqb "#") rest in
    let '(rest, query) := cut_at (Ascii.eqb "?") rest in
    let '(path, params) :=
      if String.eqb scheme "" then (rest, "") else ref_splitparams rest in
    Some (UrlParts scheme netloc path params (default "" query) (default "" fragment)).

Definition ref_urlunparse (parts : url_parts) : string :=
  let url := url_path parts in
  let url := if String.eqb (url_params parts) "" then url
             else url +:+ ";" +:+ url_params parts in
  let url := if String.eqb (url_netloc parts) "" then url
             else "//" +:+ url_netloc parts
                  +:+ (if String.eqb url "" || startswith url "/" then url else "/" +:+ url) in
  let url := if String.eqb (url_scheme parts) "" then url
             else url_scheme parts +:+ ":" +:+ url in
  let url := if String.eqb (url_query parts) "" then url
             else url +:+ "?" +:+ url_query parts in
  if String.eqb (url_fragment parts) "" then url
  else url +:+ "#" +:+ url_fragment parts.

Fixpoint digits_value (s : string) (acc : Z) : option Z :=
  match s with
  | EmptyString => Some acc
  | String c rest =>
      let b := byte_of_ascii c in
      if (48 <=? b) && (b <=? 57) then digits_value rest (acc * 10 + (b - 48)) else None
  end.

Definition ref_int (s : string) : option Z :=
  match strip s with
  | EmptyString => None
  | String "-" (String c rest) => Z.opp <$> digits_value (String c rest) 0
  | String "+" (String c rest) => digits_value (String c rest) 0
  | String "-" EmptyString | String "+" EmptyString => None
  | digits => digits_value digits 0
  end.

Definition json_space (c : ascii) : bool := contains_char c (String " " (String "009" (String "010" (String "013" ""))))%char.

Fixpoint skip_spaces (s : string) : string :=
  match s with
  | String c rest => if json_space c then skip_spaces rest else s
  | EmptyString => s
  end.

(** A string literal without escapes: the text between two double quotes. *)
Definition ref_json_string (s : string) : option (string * string) :=
  match s with
  | String c rest =>
      if Ascii.eqb c DQUOTE then
        match span_until (λ d, Ascii.eqb d DQUOTE || Ascii.eqb d BACKSLASH
                               || (byte_of_ascii d <? 32)) rest with
        | (text, String d after) => if Ascii.eqb d DQUOTE then Some (text, after) else None
        | _ => None
        end
      else None
  | EmptyString => None
  end.

Fixpoint ref_json_members (fuel : nat) (s : string) (acc : list (string * json))
    : option (list (string * json)) :=
  match fuel with
  | O => None
  | S fuel' =>
      '(key, s) ← ref_json_string (skip_spaces s);
      match skip_spaces s with
      | String ":" s =>
          '(value, s) ← ref_json_string (skip_spaces s);
          let acc := filter (λ kv, kv.1 ≠ key) acc ++ [(key, JStr value)] in
          match skip_spaces s with
          | String "," s => ref_json_members fuel' s acc
          | String "}" s => if String.eqb (skip_spaces s) "" then Some acc else None
          | _ => None
          end
      | _ => None
      end
  end.

Definition ref_json_loads (s : string) : option json :=
  match skip_spaces s with
  | String "{" rest =>
      match skip_spaces rest with
      | String "}" rest' => if String.eqb (skip_spaces rest') "" then Some (JDict []) else None
      | _ => JDict <$> ref_json_members (String.length s) rest []
      end
  | _ => None
  end.

Fixpoint ref_repr (fuel : nat) (v : pyvalue) : string :=
  match fuel with
  | O => "..."
  | S fuel' =>
      match v with
      | PNone => "None"
      | PBool b => if b then "True" else "False"
      | PInt n => str_of_int n
      | PStr s => "'" +:+ s +:+ "'"
      | PDate y m d =>
          "datetime.date(" +:+ str_of_int y +:+ ", " +:+ str_of_int m +:+ ", "
          +:+ str_of_int d +:+ ")"
      | PDateTime y m d hh mm ss =>
          "datetime.datetime(" +:+ str_of_int y +:+ ", " +:+ str_of_int m +:+ ", "
          +:+ str_of_int d +:+ ", " +:+ str_of_int hh +:+ ", " +:+ str_of_int mm
          +:+ ", " +:+ str_of_int ss +:+ ")"
      | PList items => "[" +:+ join_with ", " (ref_repr fuel' <$> items) +:+ "]"
      | PDict entries =>
          "{" +:+ join_with ", "
                    ((λ kv, ref_repr fuel' kv.1 +:+ ": " +:+ ref_repr fuel' kv.2) <$> entries)
          +:+ "}"
      end
  end.

Definition reference_runtime : runtime :=
  Runtime ref_json_loads ref_urlparse ref_urlunparse ref_int (ref_repr 64).

(** [{"error": code, "message": message}] as the server writes it. *)
Definition error_document (code message : string) : string :=
  "{" +:+ String DQUOTE "error" +:+ String DQUOTE ": " +:+ String DQUOTE code
  +:+ String DQUOTE ", " +:+ String DQUOTE "message" +:+ String DQUOTE ": "
  +:+ String DQUOTE message +:+ String DQUOTE "}".

(** ** A sample session *)

Definition sample_environment (reply : result response) : environment :=
  Environment "2020-01-02T03:04:05Z" (λ _, reply) ∅.

Definition sample_params : gmap string string :=
  {[ "query" := "tag:web server~1"; "limit" := "10"; "Zeta" := "a/b" ]}.

Definition sample_world : world := World {[ 7%nat := sample_params ]} [].

Definition sample_body : string :=
  "Zeta=a%2Fb&access_key_id=AKEY&action=GetComputers&limit=10"
  +:+ "&query=tag%3Aweb%20server~1&signature_method=HmacSHA256&signature_version=2"
  +:+ "&timestamp=2020-01-02T03%3A04%3A05Z&version=2011-08-01"
  +:+ "&signature=31xcbLAtWqbGuz53vF6F9U6hzHiihE4ED%2BVDRyxxN1M%3D".

(** The error codes of a schema in the order [_build_exceptions] meets
    them. *)
Definition declared_codes (sch : schema) : list string :=
  sch ≫= (λ action, action.2 ≫= (λ version, h_errors version.2)).

(** Position of the first code of [codes] whose exception name is [name]. *)
Fixpoint first_declaration (name : string) (codes : list string) : option nat :=
  match codes with
  | [] => None
  | code :: rest =>
      if String.eqb (_get_error_code_name code) name then Some O
      else S <$> first_declaration name rest
  end.

(** [cls.__name__] *)
Definition class_name (cls : pyclass) : string :=
  match cls with
  | HTTPError => "HTTPError"
  | APIError => "APIError"
  | GeneratedError _ name => name
  | MultiError => "MultiError"
  | UnauthorisedError => "UnauthorisedError"
  | SignatureDoesNotMatchError => "SignatureDoesNotMatchError"
  | AuthFailureError => "AuthFailureError"
  | InvalidCredentialsError => "InvalidCredentialsError"
  end.

(** ** Three actions of [SCHEMA] *)

Definition unicode_parameter : parameter :=
  Param "unicode" false PNone None None None None.

Definition AddPocketsToRepositoryProfile : handler :=
  Handler
    [("name", unicode_parameter);
     ("pockets", Param "list" false PNone (Some unicode_parameter) None None None);
     ("series", unicode_parameter);
     ("distribution", unicode_parameter)]
    ["UnknownRepositoryProfile"; "Unauthorised"; "UnknownDistribution";
     "UnknownPocket"; "UnknownSeries"].

Definition AddTagsToComputers : handler :=
  Handler
    [("query", unicode_parameter);
     ("tags", Param "list" false PNone (Some unicode_parameter) None None None)]
    ["InvalidQuery"; "InvalidTag"].

Definition CreateAccessGroup : handler :=
  Handler
    [("title", Param "unicode title" false PNone None None None None);
     ("parent", Param "unicode" true PNone None None None None)]
    ["DuplicateAccessGroup"; "Unauthorised"; "UnknownAccessGroup"].

(** [CreateAccessGroup] as [SCHEMA] declares it under [2013-11-04]. *)
Definition CreateAccessGroup_2013 : handler :=
  Handler
    [("name", unicode_parameter);
     ("description", Param "unicode" true PNone None None None None);
     ("parent", Param "unicode" true PNone None None None None)]
    ["DuplicateAccessGroup"; "Unauthorised"; "UnknownAccessGroup"].

Definition sample_schema : schema :=
  [("AddPocketsToRepositoryProfile",
    [(LATEST_VERSION, AddPocketsToRepositoryProfile);
     (FUTURE_VERSION, AddPocketsToRepositoryProfile)]);
   ("AddTagsToComputers",
    [(LATEST_VERSION, AddTagsToComputers); (FUTURE_VERSION, AddTagsToComputers)]);
   ("CreateAccessGroup",
    [(LATEST_VERSION, CreateAccessGroup); (FUTURE_VERSION, CreateAccessGroup_2013)])].

(** A client of class [API], and one of class [APIv2]. *)
Definition sample_api : api :=
  Api "https://landscape.canonical.com/api" "AKEY" "SECRET" PNone false
      sample_schema LATEST_VERSION run_query_static.

Definition sample_api_v2 : api :=
  Api "https://landscape.canonical.com/api" "AKEY" "SECRET" PNone false
      sample_schema FUTURE_VERSION (run_query_partial FUTURE_VERSION).


(** ** The command-line list parser ([SchemaParameterAction.parse_list]) *)

Section SchemaParameterAction.

(** [self.parse_argument] is what [parse_list] calls on every item; [E] is
    what it fails with ([UsageError] for most failures), and [raised] tells
    how an exception raised by [parse_list] itself appears in [E]. *)
Context {E : Type}.
Context (parse_argument : parameter → string → E + pyvalue) (raised : exn → E).

(** The list comprehension of [parse_list]: the empty items are skipped; for
    the others [parameter["item"]] is looked up and the item parsed. *)
Fixpoint parse_items (item : option parameter) (items : list string) : E + list pyvalue :=
  match items with
  | [] => inr []
  | list_item :: rest =>
      if String.eqb list_item "" then parse_items item rest
      else
        match item with
        | None => inl (raised (KeyError "item"))
        | Some item_spec =>
            match parse_argument item_spec list_item with
            | inl e => inl e
            | inr v =>
                match parse_items item rest with
                | inl e => inl e
                | inr vs => inr (v :: vs)
                end
            end
        end
  end.

Definition parse_list (parameter : parameter) (value : string) : E + list pyvalue :=
  parse_items (p_item parameter) (_parse_csv_list_safely value).

End SchemaParameterAction.

(** Number of occurrences of a character ([s.count(c)]). *)
Fixpoint count_char (c : ascii) (s : string) : nat :=
  match s with
  | EmptyString => O
  | String d rest => (if Ascii.eqb d c then 1 else 0) + count_char c rest
  end.

(** A runtime whose [json.loads] returns one given document, to run the
    model on responses that the reference decoder does not cover. *)
Definition runtime_decoding (document : json) : runtime :=
  Runtime (λ _, Some document) ref_urlparse ref_urlunparse ref_int (ref_repr 64).

Definition sample_multi_error : json :=
  JDict [("error", JStr "MultiError"); ("message", JStr "2 errors");
         ("errors",
          JList [JDict [("error", JStr "UnknownPocket"); ("message", JStr "no pocket")];
                 JDict [("error", JStr "Brand New"); ("message", JStr "unheard of")]])].

(** ** Decoding percent-encoding

    [urllib.parse.unquote] on bytes, the inverse of [quote]; it is not part
    of the repository and only serves to state that [quote] loses nothing. *)

Definition hex_value (c : ascii) : option Z :=
  let b := byte_of_ascii c in
  if (48 <=? b) && (b <=? 57) then Some (b - 48)
  else if (65 <=? b) && (b <=? 70) then Some (b - 55)
  else if (97 <=? b) && (b <=? 102) then Some (b - 87)
  else None.

Fixpoint unquote (s : string) : string :=
  match s with
  | EmptyString => EmptyString
  | String c rest =>
      match rest with
      | String h (String l rest') =>
          match (if Ascii.eqb c "%" then hex_value h else None), hex_value l with
          | Some a, Some b => String (ascii_of_byte (16 * a + b)) (unquote rest')
          | _, _ => String c (unquote rest)
          end
      | _ => String c (unquote rest)
      end
  end.

(** [all(P(c) for c in s)] *)
Fixpoint all_chars (P : ascii → bool) (s : string) : bool :=
  match s with
  | EmptyString => true
  | String c rest => P c && all_chars P rest
  end.

(** The schema types whose handler writes a string value as it is. *)
Definition is_text_type (type : string) : bool :=
  bool_decide (replace_spaces type ∈
    ["integer"; "float"; "raw_string"; "enum"; "unicode"; "unicode_line";
     "unicode_title"]).

(** The path of the item at position [i] (from zero) of the list [name]. *)
Definition item_path (name : string) (i : Z) : string :=
  name +:+ "." +:+ str_of_int (i + 1).

(** Every key of [m] starts with [prefix]. *)
Definition keys_under (prefix : string) (m : gmap string string) : Prop :=
  ∀ k, is_Some (m !! k) → startswith k prefix = true.

(** The values of a parameter dict as Python has them: a [str], or [bytes]
    as [_encode_data] returns. *)
Inductive param_value :=
| VStr (s : string)
| VBytes (b : string).

(** The bytes of a value that [quote] percent-encodes. *)
Definition value_bytes (v : param_value) : string :=
  match v with
  | VStr s => s
  | VBytes b => b
  end.

(* ===================================================================== *)
(** * Part II. Properties                                                  *)
(* ===================================================================== *)

Example csv_doc_example :
  _parse_csv_list_safely "a\,b,c" = ["a,b"; "c"].
Proof. reflexivity. Qed.

(** ** Strings *)

Lemma app_cons (c : ascii) (s t : string) : String c s +:+ t = String c (s +:+ t).
Proof. reflexivity. Qed.

Lemma app_empty_l (s : string) : "" +:+ s = s.
Proof. reflexivity. Qed.

Lemma app_empty_r (s : string) : s +:+ "" = s.
Proof. induction s as [|c s IH]; [done|]. by rewrite app_cons, IH. Qed.

Lemma app_assoc_s (s t u : string) : (s +:+ t) +:+ u = s +:+ (t +:+ u).
Proof. induction s as [|c s IH]; [done|]. by rewrite !app_cons, IH. Qed.

Lemma app_snoc_cons (s t : string) (c : ascii) :
  (s +:+ String c "") +:+ t = s +:+ String c t.
Proof. by rewrite app_assoc_s. Qed.

Lemma app_eq_empty (s t : string) : s +:+ t = "" → s = "" ∧ t = "".
Proof. destruct s; [done|]. rewrite app_cons. discriminate. Qed.

(** ** The CSV list parser *)

Lemma csv_loop_app (s t : string) (st : csv_state) :
  csv_loop (s +:+ t) st = csv_loop t (csv_loop s st).
Proof.
  revert st. induction s as [|c s IH]; intros st; [done|].
  rewrite app_cons. simpl. apply IH.
Qed.

Lemma csv_loop_cons (c : ascii) (s : string) (st : csv_state) :
  csv_loop (String c s) st = csv_loop s (csv_step st c).
Proof. reflexivity. Qed.

Lemma csv_step_comma (ys : list string) (it : string) :
  csv_step (CsvState ys it false) COMMA = CsvState (ys ++ [it]) "" false.
Proof. reflexivity. Qed.

Lemma csv_step_comma_escaped (ys : list string) (it : string) :
  csv_step (CsvState ys it true) COMMA = CsvState ys (it +:+ ",") false.
Proof. reflexivity. Qed.

Lemma csv_step_backslash (ys : list string) (it : string) (e : bool) :
  csv_step (CsvState ys it e) BACKSLASH = CsvState ys it true.
Proof. reflexivity. Qed.

Lemma csv_step_plain (ys : list string) (it : string) (c : ascii) :
  Ascii.eqb c COMMA = false → Ascii.eqb c BACKSLASH = false →
  csv_step (CsvState ys it false) c = CsvState ys (it +:+ String c "") false.
Proof. intros H1 H2. unfold csv_step. by rewrite H1, H2. Qed.

Lemma escape_commas_comma (s : string) :
  escape_commas (String COMMA s) = String BACKSLASH (String COMMA (escape_commas s)).
Proof. reflexivity. Qed.

Lemma escape_commas_plain (c : ascii) (s : string) :
  Ascii.eqb c COMMA = false →
  escape_commas (String c s) = String c (escape_commas s).
Proof. intros H. cbn [escape_commas]. by rewrite H. Qed.

Lemma join_with_cons (sep p : string) (rest : list string) :
  rest ≠ [] → join_with sep (p :: rest) = p +:+ sep +:+ join_with sep rest.
Proof. by destruct rest. Qed.

(** Reading an escaped, backslash-free part appends the part to the pending
    item and leaves the parser unescaped. *)
Lemma csv_loop_escaped_part (p : string) (ys : list string) (it : string) :
  contains_char BACKSLASH p = false →
  csv_loop (escape_commas p) (CsvState ys it false) = CsvState ys (it +:+ p) false.
Proof.
  revert it. induction p as [|c p IH]; intros it Hp.
  - by rewrite app_empty_r.
  - cbn [contains_char] in Hp. apply orb_false_iff in Hp as [Hc Hp].
    rewrite Ascii.eqb_sym in Hc.
    destruct (Ascii.eqb c COMMA) eqn:Hcomma.
    + apply Ascii.eqb_eq in Hcomma as ->.
      rewrite escape_commas_comma, !csv_loop_cons.
      rewrite csv_step_backslash, csv_step_comma_escaped, IH by done.
      by rewrite app_snoc_cons.
    + rewrite escape_commas_plain, csv_loop_cons, csv_step_plain, IH by done.
      by rewrite app_snoc_cons.
Qed.

(** Reading the escaped join of backslash-free parts: every part but the last
    has been yielded, the last one is pending. *)
Lemma csv_loop_joined (parts : list string) (p : string) (ys : list string) (it : string) :
  Forall (λ q, contains_char BACKSLASH q = false) (parts ++ [p]) →
  csv_loop (join_csv_escaped (parts ++ [p])) (CsvState ys it false)
  = match parts with
    | [] => CsvState ys (it +:+ p) false
    | q :: qs => CsvState (ys ++ (it +:+ q) :: qs) p false
    end.
Proof.
  unfold join_csv_escaped.
  revert ys it. induction parts as [|q qs IH]; intros ys it Hall.
  - apply csv_loop_escaped_part. by inversion Hall.
  - inversion Hall as [|? ? Hq Hrest]; subst.
    assert (escape_commas <$> ((q :: qs) ++ [p])
            = escape_commas q :: (escape_commas <$> (qs ++ [p]))) as -> by done.
    rewrite join_with_cons by (by destruct qs).
    rewrite csv_loop_app, csv_loop_escaped_part by done.
    rewrite csv_loop_app, csv_loop_cons, csv_step_comma.
    change (csv_loop "" ?st) with st.
    rewrite IH by done.
    destruct qs as [|r' rs']; [done|].
    by rewrite <- app_assoc.
Qed.

(** Items yielded before a point of the input are never touched again. *)
Lemma csv_loop_yielded_prefix (s : string) (ys0 ys : list string) (it : string) (e : bool) :
  csv_loop s (CsvState (ys0 ++ ys) it e)
  = CsvState (ys0 ++ csv_yielded (csv_loop s (CsvState ys it e)))
             (csv_item (csv_loop s (CsvState ys it e)))
             (csv_escaped (csv_loop s (CsvState ys it e))).
Proof.
  revert ys it e. induction s as [|c s IH]; intros ys it e; [done|].
  rewrite !csv_loop_cons.
  unfold csv_step. cbn [csv_yielded csv_item csv_escaped].
  destruct (Ascii.eqb c COMMA); [destruct e|destruct (Ascii.eqb c BACKSLASH)];
    rewrite <- ?app_assoc; apply IH.
Qed.

Lemma csv_finish_yielded_prefix (ys0 : list string) (st : csv_state) :
  csv_finish (CsvState (ys0 ++ csv_yielded st) (csv_item st) (csv_escaped st))
  = ys0 ++ csv_finish st.
Proof. unfold csv_finish. cbn [csv_yielded csv_item csv_escaped]. by rewrite app_assoc. Qed.

(** An unescaped comma cuts the input in two independent halves. *)
Lemma csv_split_at_comma (s t : string) :
  csv_escaped (csv_after s) = false →
  _parse_csv_list_safely (s +:+ "," +:+ t)
  = csv_yielded (csv_after s) ++ csv_item (csv_after s) :: _parse_csv_list_safely t.
Proof.
  intros Hesc. unfold _parse_csv_list_safely, csv_after in *.
  rewrite csv_loop_app.
  destruct (csv_loop s csv_init) as [ys it e]. cbn in Hesc. subst e.
  change ("," +:+ t) with (String COMMA t).
  rewrite csv_loop_cons, csv_step_comma.
  cbn [csv_yielded csv_item].
  rewrite <- (app_nil_r (ys ++ [it])).
  rewrite (csv_loop_yielded_prefix t (ys ++ [it]) [] "" false).
  rewrite csv_finish_yielded_prefix.
  by rewrite <- app_assoc.
Qed.

Lemma csv_parse_empty : _parse_csv_list_safely "" = [].
Proof. reflexivity. Qed.

Lemma csv_trailing_backslash (s : string) :
  _parse_csv_list_safely (s +:+ "\")
  = csv_yielded (csv_after s) ++ [csv_item (csv_after s) +:+ "\"].
Proof.
  unfold _parse_csv_list_safely, csv_after. rewrite csv_loop_app.
  destruct (csv_loop s csv_init) as [ys it e].
  change (csv_loop "\" ?st) with (csv_step st BACKSLASH).
  rewrite csv_step_backslash. unfold csv_finish. cbn [csv_yielded csv_item csv_escaped].
  destruct (String.eqb_spec (it +:+ "\") "") as [H|H]; [|done].
  by apply app_eq_empty in H as [_ ?].
Qed.

(** C2, as the specification states it, read on the specification's own
    example: the input [a\,b,c] is also the escaped join of the three parts
    [a\], [b] and [c], which the parser does not give back. *)
Lemma csv_roundtrip_fails_on_backslash :
  join_csv_escaped ["a\"; "b"; "c"] = "a\,b,c"
  ∧ _parse_csv_list_safely (join_csv_escaped ["a\"; "b"; "c"]) = ["a,b"; "c"]
  ∧ _parse_csv_list_safely (join_csv_escaped ["a\"; "b"; "c"]) ≠ ["a\"; "b"; "c"].
Proof. repeat split. discriminate. Qed.

(** C2 (amended).  Round trip of the comma escaping: when no part contains a
    backslash and the last part is not empty, parsing the escaped join of the
    parts gives the parts back (the empty list of parts included); and a
    backslash at the very end of any input is kept as the last character of
    the last item, in particular after an escaped join of backslash-free
    parts. *)
Theorem csv_escaped_roundtrip (parts : list string) (p : string) :
  Forall (λ q, contains_char BACKSLASH q = false) (parts ++ [p]) →
  (p ≠ "" →
     _parse_csv_list_safely (join_csv_escaped (parts ++ [p])) = parts ++ [p])
  ∧ _parse_csv_list_safely (join_csv_escaped []) = []
  ∧ _parse_csv_list_safely (join_csv_escaped (parts ++ [p]) +:+ "\")
    = parts ++ [p +:+ "\"]
  ∧ (∀ s, _parse_csv_list_safely (s +:+ "\")
          = csv_yielded (csv_after s) ++ [csv_item (csv_after s) +:+ "\"]).
Proof.
  intros Hall.
  pose proof (csv_loop_joined parts p [] "" Hall) as Hloop.
  fold csv_init in Hloop. fold (csv_after (join_csv_escaped (parts ++ [p]))) in Hloop.
  repeat split.
  - intros Hp. unfold _parse_csv_list_safely. fold (csv_after (join_csv_escaped (parts ++ [p]))).
    rewrite Hloop. unfold csv_finish.
    destruct parts as [|q qs]; cbn [csv_yielded csv_item csv_escaped].
    + rewrite app_empty_l. by destruct (String.eqb_spec p "").
    + rewrite app_empty_l. destruct (String.eqb_spec p ""); [done|].
      by rewrite app_nil_l.
  - rewrite csv_trailing_backslash, Hloop.
    destruct parts as [|q qs]; cbn [csv_yielded csv_item]; by rewrite ?app_empty_l.
  - apply csv_trailing_backslash.
Qed.

Lemma csv_escaped_roundtrip_witness :
  _parse_csv_list_safely (join_csv_escaped (["a,b"; ""] ++ ["c"])) = ["a,b"; ""] ++ ["c"].
Proof.
  refine (proj1 (csv_escaped_roundtrip ["a,b"; ""] "c" _) _).
  - repeat constructor.
  - discriminate.
Defined.

(** Without a backslash the parser never enters its escaped state, so every
    comma of such an input is unescaped. *)
Lemma csv_unescaped_without_backslash (s : string) :
  contains_char BACKSLASH s = false → csv_escaped (csv_after s) = false.
Proof.
  unfold csv_after, csv_init. generalize (@nil string) "".
  induction s as [|c s IH]; intros ys it Hs; [done|].
  cbn [contains_char] in Hs. apply orb_false_iff in Hs as [Hc Hs].
  rewrite Ascii.eqb_sym in Hc. rewrite csv_loop_cons.
  destruct (Ascii.eqb c COMMA) eqn:Hcomma.
  - apply Ascii.eqb_eq in Hcomma as ->. rewrite csv_step_comma. by apply IH.
  - rewrite csv_step_plain by done. by apply IH.
Qed.

(** C10, as stated, fails as soon as the segment before the trailing comma is
    empty: the final comma of [a,,] is unescaped, yet [a,,] and [a,] parse
    differently. *)
Lemma csv_trailing_comma_not_always_dropped :
  csv_escaped (csv_after "a,") = false
  ∧ _parse_csv_list_safely ("a," +:+ ",") = ["a"; ""]
  ∧ _parse_csv_list_safely "a," = ["a"]
  ∧ _parse_csv_list_safely ("a," +:+ ",") ≠ _parse_csv_list_safely "a,".
Proof. repeat split. discriminate. Qed.

(** C10 (amended).  Let the parser be unescaped after reading [s] (as it is
    whenever [s] has no backslash), with [ys] the items yielded so far and
    [it] the pending segment.  A comma
    that follows yields [it], empty or not, and starts afresh, so nothing is
    ever produced for an empty segment at the very end of the input.  Hence
    [s,] parses like [s] when the segment before the final comma is not
    empty, and to the items of [s] followed by one empty string when it is
    empty (a leading comma or two adjacent unescaped commas). *)
Theorem csv_trailing_comma (s : string) :
  csv_escaped (csv_after s) = false →
  let ys := csv_yielded (csv_after s) in
  let it := csv_item (csv_after s) in
  (∀ t, _parse_csv_list_safely (s +:+ "," +:+ t) = ys ++ it :: _parse_csv_list_safely t)
  ∧ _parse_csv_list_safely (s +:+ ",") = ys ++ [it]
  ∧ (it ≠ "" → _parse_csv_list_safely (s +:+ ",") = _parse_csv_list_safely s)
  ∧ (it = "" → _parse_csv_list_safely (s +:+ ",") = _parse_csv_list_safely s ++ [""])
  ∧ (∀ t, _parse_csv_list_safely (s +:+ ",," +:+ t)
          = ys ++ it :: "" :: _parse_csv_list_safely t).
Proof.
  intros Hesc ys it.
  assert (_parse_csv_list_safely (s +:+ ",") = ys ++ [it]) as Hcomma.
  { pose proof (csv_split_at_comma s "" Hesc) as H.
    by rewrite csv_parse_empty in H. }
  assert (_parse_csv_list_safely s
          = ys ++ (if String.eqb it "" then [] else [it])) as Hs.
  { unfold _parse_csv_list_safely, csv_finish. fold (csv_after s).
    by rewrite Hesc. }
  repeat split.
  - intros t. by apply csv_split_at_comma.
  - done.
  - intros Hit. rewrite Hcomma, Hs. by destruct (String.eqb_spec it "").
  - intros Hit. rewrite Hcomma, Hs, Hit. cbn. by rewrite app_nil_r.
  - intros t. change (",," +:+ t) with ("," +:+ ("," +:+ t)).
    rewrite (csv_split_at_comma s _ Hesc).
    f_equal. f_equal. apply (csv_split_at_comma "" t eq_refl).
Qed.

Lemma csv_trailing_comma_witness :
  _parse_csv_list_safely ("x,y" +:+ ",") = _parse_csv_list_safely "x,y".
Proof.
  refine (proj1 (proj2 (proj2 (csv_trailing_comma "x,y" _))) _).
  - reflexivity.
  - discriminate.
Defined.

(** ** Test vectors for the primitives *)

Example sha256_abc :
  Sha256.sha256 (bytes_of_string "abc")
  = [186; 120; 22; 191; 143; 1; 207; 234; 65; 65; 64; 222; 93; 174; 34; 35;
     176; 3; 97; 163; 150; 23; 122; 156; 180; 16; 255; 97; 242; 0; 21; 173].
Proof. vm_compute. reflexivity. Qed.

Example sha256_empty :
  b64encode (string_of_bytes (Sha256.sha256 []))
  = "47DEQpj8HBSa+/TImW+5JCeuQeRkm5NMpJWZG3hSuFU=".
Proof. vm_compute. reflexivity. Qed.

Example sha256_two_blocks :
  b64encode (string_of_bytes (Sha256.sha256 (bytes_of_string (repeat_char "a" 119))))
  = "MeulHDE6XAgiat8Y1KNZz9/Y0ugWsT9K+VL36mWE3Ps=".
Proof. vm_compute. reflexivity. Qed.

Example hmac_rfc4231_case2 :
  b64encode (hmac_sha256_digest "Jefe" "what do ya want for nothing?")
  = "W9zBRr9gdU5qBCQmCJV1x1oAPwidJzmDnexYuWTsOEM=".
Proof. vm_compute. reflexivity. Qed.

Example hmac_long_key :
  b64encode (hmac_sha256_digest (repeat_char "k" 70) (repeat_char "m" 130))
  = "Gsa0+8ixYLSIN9y2OAlH2czNzIgU18PZVh4zvYTLeIQ=".
Proof. vm_compute. reflexivity. Qed.

Example b64encode_examples :
  b64encode "a" = "YQ==" ∧ b64encode "ab" = "YWI="
  ∧ b64encode_bytes [97; 98; 99; 255; 254] = "YWJj//4=".
Proof. repeat split. Qed.

Example quote_examples :
  quote "a b~/c+=%" "~" = "a%20b~%2Fc%2B%3D%25"
  ∧ quote "ab+/=" "/" = "ab%2B/%3D"
  ∧ quote (string_of_bytes [195; 169]) "~" = "%C3%A9".
Proof. repeat split. Qed.

Example string_helper_examples :
  split "," "a,,b" = ["a"; ""; "b"] ∧ split "," "" = [""]
  ∧ strip "  a b " = "a b" ∧ strip (string_of_bytes [194; 160; 120; 226; 128; 168]) = "x"
  ∧ lower "HTTPS://Host" = "https://host"
  ∧ endswith "FooError" "Error" = true ∧ endswith "Foo" "Error" = false
  ∧ str_of_int 0 = "0" ∧ str_of_int (-12) = "-12" ∧ pad2 7 = "07" ∧ pad4 33 = "0033".
Proof. repeat split. Qed.

(** ** The reference runtime on examples *)

Example ref_parse_examples :
  parse reference_runtime "https://landscape.canonical.com/api"
    = Ok ("landscape.canonical.com", None, "/api")
  ∧ parse reference_runtime "HTTP://Example.org:8080/a/b;p?x=1#f"
    = Ok ("Example.org", Some 8080, "/a/b;p?x=1#f")
  ∧ parse reference_runtime "http://h:x"
    = Ok ("h", None, "")
  ∧ parse reference_runtime "http://u:p@h:80/"
    = Raise (ValueError "too many values to unpack (expected 2)")
  ∧ parse reference_runtime "ftp://h/"
    = Raise (SyntaxError "URL must start with 'http://' or 'https://': ftp://h/").
Proof. repeat split. Qed.

Example ref_json_examples :
  ref_json_loads (error_document "UnknownComputer" "no such computer")
    = Some (JDict [("error", JStr "UnknownComputer"); ("message", JStr "no such computer")])
  ∧ ref_json_loads "{}" = Some (JDict [])
  ∧ ref_json_loads "{oops" = None.
Proof. repeat split. Qed.

(** The body posted for a sample request is the one Python's [hmac],
    [base64] and [urllib] produce for the same input. *)
Example run_query_sample :
  let '(r, w) :=
    run_query reference_runtime (sample_environment (Ok (Response true 200 "[]")))
      "AKEY" "SECRET" "GetComputers" 7 "https://landscape.canonical.com:8443/api"
      (PBool true) LATEST_VERSION sample_world in
  r = Ok "[]"
  ∧ req_data <$> posts w = [sample_body]
  ∧ req_url <$> posts w = ["https://landscape.canonical.com:8443/api"]
  ∧ (λ r, req_headers r !! "Host") <$> posts w = [Some "landscape.canonical.com:8443"].
Proof. vm_compute. repeat split. Qed.

(** ** Order on strings and on [(key, value)] items *)

Lemma compare_refl_s (s : string) : String.compare s s = Eq.
Proof.
  induction s as [|c s IH]; [done|]. cbn [String.compare].
  unfold Ascii.compare. by rewrite N.compare_refl.
Qed.

Lemma compare_Lt_le (a b : string) :
  String.compare a b = Lt ↔ String.le a b ∧ a ≠ b.
Proof.
  unfold String.le, String.leb. split.
  - intros H. rewrite H. split; [done|]. intros ->. by rewrite compare_refl_s in H.
  - intros [Hle Hne]. destruct (String.compare a b) eqn:Hc; [|done|done].
    by apply String.compare_eq_iff in Hc.
Qed.

Lemma compare_Gt_le (a b : string) :
  String.compare a b = Gt ↔ String.le b a ∧ a ≠ b.
Proof.
  rewrite String.compare_antisym.
  pose proof (compare_Lt_le b a) as H.
  destruct (String.compare b a); cbn.
  - split; [done|]. intros [Hle Hne]. destruct H as [_ H].
    assert (Eq = Lt) by (apply H; split; [done|congruence]). done.
  - split; [|done]. intros _. destruct H as [H _].
    destruct (H eq_refl) as [? ?]. split; [done|congruence].
  - split; [done|]. intros [Hle Hne]. destruct H as [_ H].
    assert (Gt = Lt) by (apply H; split; [done|congruence]). done.
Qed.

Lemma item_le_spec (a b : string * string) :
  item_le a b ↔ (String.le a.1 b.1 ∧ a.1 ≠ b.1) ∨ (a.1 = b.1 ∧ String.le a.2 b.2).
Proof.
  unfold item_le. destruct (String.compare a.1 b.1) eqn:Hc.
  - apply String.compare_eq_iff in Hc. split; [by right|].
    intros [[_ ?]|[_ ?]]; done.
  - apply compare_Lt_le in Hc. split; [by left|done].
  - apply compare_Gt_le in Hc as [Hle Hne]. split; [done|].
    intros [[Hab _]|[? _]]; [|done].
    apply Hne. by apply (anti_symm String.le).
Qed.

Global Instance item_le_trans : Transitive item_le.
Proof.
  intros a b c. rewrite !item_le_spec.
  intros [[H1 N1]|[E1 H1]] [[H2 N2]|[E2 H2]].
  - left. split; [by etrans|]. intros E. rewrite <- E in H2.
    apply N1. by apply (anti_symm String.le).
  - left. by rewrite <- E2.
  - left. by rewrite E1.
  - right. split; [congruence|by etrans].
Qed.

Global Instance item_le_total : Total item_le.
Proof.
  intros a b. rewrite !item_le_spec.
  destruct (decide (a.1 = b.1)) as [E|N].
  - destruct (total String.le a.2 b.2); [left|right]; right; done.
  - destruct (total String.le a.1 b.1); [left|right]; left; split; done.
Qed.

(** The items of a dict come out of [sorted] with strictly increasing keys. *)
Lemma sorted_items_spec (params : gmap string string) :
  sorted_items params ≡ₚ map_to_list params
  ∧ StronglySorted (λ a b, String.compare a.1 b.1 = Lt) (sorted_items params).
Proof.
  unfold sorted_items. split; [apply merge_sort_Permutation|].
  pose proof (StronglySorted_merge_sort item_le (map_to_list params)) as Hsorted.
  pose proof (NoDup_fst_map_to_list params) as Hnodup.
  rewrite <- (merge_sort_Permutation item_le (map_to_list params)) in Hnodup.
  induction Hsorted as [|a l Hl IH Hall]; [constructor|].
  rewrite fmap_cons in Hnodup. apply NoDup_cons in Hnodup as [Hnotin Hnodup].
  constructor; [by apply IH|].
  apply Forall_forall. intros b Hb.
  rewrite Forall_forall in Hall. specialize (Hall b Hb).
  apply item_le_spec in Hall as [[Hle Hne]|[Heq _]].
  - by apply compare_Lt_le.
  - destruct Hnotin. rewrite Heq. apply list_elem_of_fmap. by exists b.
Qed.

(** ** [run_query] *)

Lemma rekey_id (params : gmap string string) : rekey params = params.
Proof.
  unfold rekey.
  assert (∀ l : list (string * string),
            (∀ kv, kv ∈ l → params !! kv.1 = Some kv.2) →
            foldl (λ acc kv, <[kv.1 := kv.2]> (delete kv.1 acc)) params l = params) as H.
  { induction l as [|kv l IH]; intros Hl; [done|].
    cbn [foldl]. rewrite insert_delete_eq, insert_id.
    - apply IH. intros kv' ?. apply Hl. by right.
    - apply Hl. by left. }
  apply H. intros [k v] Hkv. by apply elem_of_map_to_list in Hkv.
Qed.

Lemma fixed_fields_lookup (access_key action timestamp version : string)
    (params : gmap string string) :
  let params' := fixed_fields access_key action timestamp version params in
  params' !! "access_key_id" = Some access_key
  ∧ params' !! "action" = Some action
  ∧ params' !! "signature_version" = Some "2"
  ∧ params' !! "signature_method" = Some "HmacSHA256"
  ∧ params' !! "timestamp" = Some timestamp
  ∧ params' !! "version" = Some version
  ∧ ∀ key, key ∉ fixed_field_names → params' !! key = params !! key.
Proof.
  unfold fixed_fields, fixed_field_names. repeat split; try by simplify_map_eq.
  intros key Hkey. repeat rewrite lookup_insert_ne; [done|..];
    intros <-; apply Hkey; set_solver.
Qed.

Lemma fetch_world (rt : runtime) (env : environment) (url post_body : string)
    (headers : gmap string string) (cainfo : pyvalue) (w : world) :
  (fetch rt env url post_body headers cainfo w).2
  = World (dicts w)
      (posts w ++ [Request url post_body
                     (<["Content-type" := "application/x-www-form-urlencoded"]> headers)
                     cainfo]).
Proof.
  unfold fetch. cbv zeta.
  destruct (env_post env _) as [response|e]; [|done].
  destruct (negb (resp_ok response)); [|done].
  by destruct (HTTPError_init rt _ _ _).
Qed.

(** The dicts after [run_query]: the caller's dict holds the fixed fields,
    whatever the outcome; no other dict changes. *)
Lemma run_query_dicts (rt : runtime) (env : environment)
    (access_key secret_key action : string) (params : nat) (uri : string)
    (ssl_ca_file : pyvalue) (version : string) (w : world) (d : gmap string string) :
  dicts w !! params = Some d →
  dicts (run_query rt env access_key secret_key action params uri ssl_ca_file version w).2
  = <[params := fixed_fields access_key action (env_timestamp env) version d]> (dicts w).
Proof.
  intros Hd. unfold run_query. rewrite Hd, rekey_id. cbv zeta.
  destruct (signed_request rt secret_key uri _) as [[[uri' body] host]|e]; [|done].
  cbn [snd]. by rewrite fetch_world.
Qed.


Lemma run_query_posts (rt : runtime) (env : environment)
    (access_key secret_key action : string) (params : nat) (uri : string)
    (ssl_ca_file : pyvalue) (version : string) (w : world) (d : gmap string string)
    (uri' body signed_host : string) :
  dicts w !! params = Some d →
  signed_request rt secret_key uri
    (fixed_fields access_key action (env_timestamp env) version d)
  = Ok (uri', body, signed_host) →
  posts (run_query rt env access_key secret_key action params uri ssl_ca_file version w).2
  = posts w ++ [Request uri' body
                  (<["Content-type" := "application/x-www-form-urlencoded"]>
                     {[ "Host" := signed_host ]})
                  ssl_ca_file].
Proof.
  intros Hd Hreq. unfold run_query. rewrite Hd, rekey_id. cbv zeta.
  rewrite Hreq. cbn [snd]. by rewrite fetch_world.
Qed.

(** ** Percent-encoding *)

Lemma quote_cons (c : ascii) (s safe : string) :
  quote (String c s) safe
  = (if is_always_safe c || contains_char c safe then String c "" else percent_byte c)
    +:+ quote s safe.
Proof. cbn [quote]. by destruct (is_always_safe c || contains_char c safe). Qed.

Lemma quote_app (s t safe : string) :
  quote (s +:+ t) safe = quote s safe +:+ quote t safe.
Proof.
  induction s as [|c s IH]; [done|].
  by rewrite app_cons, !quote_cons, IH, app_assoc_s.
Qed.

Lemma quote_tilde (s t safe : string) :
  quote (s +:+ "~" +:+ t) safe = quote s safe +:+ "~" +:+ quote t safe.
Proof. rewrite quote_app. f_equal. Qed.

Lemma quote_char (c : ascii) (s : string) :
  quote (String c s) "~"
  = (if is_always_safe c then String c "" else percent_byte c) +:+ quote s "~".
Proof.
  rewrite quote_cons. destruct (is_always_safe c) eqn:Hsafe; [done|].
  cbn [orb contains_char]. destruct (Ascii.eqb_spec c "~") as [->|Hne]; [|done].
  by vm_compute in Hsafe.
Qed.

(** ** [parse] *)

Lemma split_go_nonempty (sep : ascii) (s cur : string) : split_go sep s cur ≠ [].
Proof.
  revert cur. induction s as [|c s IH]; intros cur; [done|].
  cbn [split_go]. destruct (Ascii.eqb c sep); [done|apply IH].
Qed.

Lemma split_go_join (sep : ascii) (s cur : string) :
  join_with (String sep "") (split_go sep s cur) = cur +:+ s.
Proof.
  revert cur. induction s as [|c s IH]; intros cur.
  - cbn. by rewrite app_empty_r.
  - cbn [split_go]. destruct (Ascii.eqb_spec c sep) as [->|Hne].
    + rewrite join_with_cons.
      * by rewrite IH.
      * apply split_go_nonempty.
    + by rewrite IH, app_snoc_cons.
Qed.

Lemma split_two (sep : ascii) (s a b : string) :
  split sep s = [a; b] → s = a +:+ String sep b.
Proof.
  intros Hsplit. pose proof (split_go_join sep s "") as Hjoin.
  fold (split sep s) in Hjoin. rewrite Hsplit in Hjoin. exact (eq_sym Hjoin).
Qed.

(** The port that [parse] returns is written in the URI: the network
    location reads [host:text] and [int] accepts [text].  Without a port the
    network location either has no colon or has one followed by something
    that [int] rejects. *)
Lemma parse_port (rt : runtime) (uri host path : string) (port : option Z) :
  parse rt uri = Ok (host, port, path) →
  ∃ parsed, urlparse rt (strip uri) = Some parsed
    ∧ match port with
      | Some p =>
          ∃ text, url_netloc parsed = host +:+ ":" +:+ text ∧ int_of_str rt text = Some p
      | None =>
          (url_netloc parsed = host ∧ contains_char ":" host = false)
          ∨ ∃ text, url_netloc parsed = host +:+ ":" +:+ text ∧ int_of_str rt text = None
      end.
Proof.
  unfold parse. destruct (negb _); [done|]. cbv zeta.
  destruct (urlparse rt (strip uri)) as [parsed|]; [|done].
  intros Hparse. exists parsed. split; [done|].
  destruct (contains_char ":" (url_netloc parsed)) eqn:Hcolon.
  - destruct (split ":" (url_netloc parsed)) as [|a [|b [|? ?]]] eqn:Hsplit; try done.
    injection Hparse as <- <- _. apply split_two in Hsplit.
    destruct (int_of_str rt b) eqn:Hint; [by exists b|].
    right. by exists b.
  - injection Hparse as <- <- _. by left.
Qed.

(** The path that [parse] returns is the URL from its path on: the path,
    the parameters, the query and the fragment put together again. *)
Lemma parse_path (rt : runtime) (uri host path : string) (port : option Z) :
  parse rt uri = Ok (host, port, path) →
  ∃ parsed, urlparse rt (strip uri) = Some parsed
    ∧ path = urlunparse rt (UrlParts "" "" (url_path parsed) (url_params parsed)
                              (url_query parsed) (url_fragment parsed)).
Proof.
  unfold parse. destruct (negb _); [done|]. cbv zeta.
  destruct (urlparse rt (strip uri)) as [parsed|]; [|done].
  intros Hparse. exists parsed. split; [done|].
  destruct (contains_char ":" (url_netloc parsed)).
  - destruct (split ":" (url_netloc parsed)) as [|a [|b [|? ?]]]; try done.
    by injection Hparse as _ _ <-.
  - by injection Hparse as _ _ <-.
Qed.

(** C1, as stated, on a URI with a query and no path.  The URL path is
    empty, yet the third line of the string to sign is [?x=1] and not a
    slash, and the URI posted to gets no slash either: the body carries the
    signature of the string with [?x=1] (as Python's [hmac] and [base64]
    give it), which is not the one the claim describes. *)
Lemma signed_path_is_not_the_url_path :
  let uri := "https://landscape.canonical.com?x=1" in
  let env := sample_environment (Ok (Response true 200 "[]")) in
  let canonical :=
    sign_params (fixed_fields "AKEY" "GetComputers" (env_timestamp env) LATEST_VERSION
                   sample_params) in
  let body_for path :=
    canonical +:+ "&signature="
    +:+ quote (b64encode (hmac_sha256_digest "SECRET"
                            (join_with (String "010" "")
                               ["POST"; "landscape.canonical.com"; path; canonical]))) "/" in
  let sent :=
    posts (run_query reference_runtime env "AKEY" "SECRET" "GetComputers" 7 uri
             (PBool true) LATEST_VERSION sample_world).2 in
  url_path <$> urlparse reference_runtime uri = Some ""
  ∧ parse reference_runtime uri = Ok ("landscape.canonical.com", None, "?x=1")
  ∧ req_url <$> sent = [uri]
  ∧ req_data <$> sent = [body_for "?x=1"]
  ∧ body_for "?x=1"
    = canonical +:+ "&signature=Y1WSsLNevZ6JnLy%2BA/IrX07/f7jXS0maOJkYjXjAmqo%3D"
  ∧ body_for "/"
    = canonical +:+ "&signature=rQuJClakHr1yFFZJFOxdRwa6/bJVhiW6qLz4rzasa1c%3D"
  ∧ body_for "?x=1" ≠ body_for "/".
Proof. vm_compute. repeat split. discriminate. Qed.

(** C1 (amended).  The request that [run_query] posts.  With [host], [port]
    and [path] what [parse] makes of the URI, the parameters merged with the
    six fixed fields are listed in strictly increasing order of their keys,
    each key and value is percent-encoded (letters, digits and [_ . - ~]
    stay, every other byte becomes [%XX]; a tilde is never escaped), and the
    pairs [key=value] are joined with [&]; the string to sign is the four
    lines [POST], the host (followed by [:port] exactly when [parse] found a
    port, which is then written after a colon in the network location of the
    URI), the path as [parse] returns it and that canonical string, joined by
    newlines.  That path is not the URL path alone: it is the URL from its
    path on, with its parameters, query and fragment, and the slash stands
    in (and is appended to the URI posted to) only when all of that is
    empty.  The body posted is the canonical string followed by
    [&signature=] and the percent-encoded base64 of the HMAC-SHA256 of the
    string to sign under the secret key; these three functions give the
    published results on test case 2 of RFC 4231 and on a text with a
    space, a slash, a tilde and a plus sign. *)
Theorem run_query_signs_canonical_request (rt : runtime) (env : environment)
    (access_key secret_key action : string) (params : nat) (uri : string)
    (ssl_ca_file : pyvalue) (version : string) (w : world) (d : gmap string string)
    (host : string) (port : option Z) (path : string) :
  dicts w !! params = Some d →
  parse rt uri = Ok (host, port, path) →
  let all_params := fixed_fields access_key action (env_timestamp env) version d in
  let signed_host :=
    match port with Some p => host +:+ ":" +:+ str_of_int p | None => host end in
  let path' := if String.eqb path "" then "/" else path in
  let uri' := if String.eqb path "" then uri +:+ "/" else uri in
  ∃ items : list (string * string),
    items ≡ₚ map_to_list all_params
    ∧ StronglySorted (λ a b, String.compare a.1 b.1 = Lt) items
    ∧ (∀ c s, quote (String c s) "~"
              = (if is_always_safe c then String c "" else percent_byte c)
                +:+ quote s "~")
    ∧ (∀ s t, quote (s +:+ "~" +:+ t) "~" = quote s "~" +:+ "~" +:+ quote t "~")
    ∧ (∀ p, port = Some p →
         ∃ parsed text, urlparse rt (strip uri) = Some parsed
           ∧ url_netloc parsed = host +:+ ":" +:+ text ∧ int_of_str rt text = Some p)
    ∧ (∃ parsed, urlparse rt (strip uri) = Some parsed
         ∧ path = urlunparse rt (UrlParts "" "" (url_path parsed) (url_params parsed)
                                   (url_query parsed) (url_fragment parsed)))
    ∧ b64encode (hmac_sha256_digest "Jefe" "what do ya want for nothing?")
      = "W9zBRr9gdU5qBCQmCJV1x1oAPwidJzmDnexYuWTsOEM="
    ∧ quote "a b/~+" "~" = "a%20b%2F~%2B"
    ∧ let canonical :=
        join_with "&" ((λ kv, quote kv.1 "~" +:+ "=" +:+ quote kv.2 "~") <$> items) in
      let to_sign :=
        join_with (String "010" "") ["POST"; signed_host; path'; canonical] in
      let signature := b64encode (hmac_sha256_digest secret_key to_sign) in
      posts (run_query rt env access_key secret_key action params uri
               ssl_ca_file version w).2
      = posts w ++ [Request uri' (canonical +:+ "&signature=" +:+ quote signature "/")
                      (<["Content-type" := "application/x-www-form-urlencoded"]>
                         {[ "Host" := signed_host ]})
                      ssl_ca_file].
Proof.
  intros Hd Hparse all_params signed_host path' uri'.
  exists (sorted_items all_params).
  destruct (sorted_items_spec all_params) as [Hperm Hsorted].
  split; [done|]. split; [done|]. split; [apply quote_char|].
  split; [intros; apply quote_tilde|].
  split.
  { intros p ->. destruct (parse_port _ _ _ _ _ Hparse) as (parsed & ? & text & ? & ?).
    by exists parsed, text. }
  split; [by eapply parse_path|].
  split; [by vm_compute|]. split; [by vm_compute|].
  cbv zeta. apply (run_query_posts _ _ _ _ _ _ _ _ _ _ d); [done|].
  unfold signed_request. rewrite Hparse. cbn [mbind result_bind].
  subst path' uri'. by destruct (String.eqb path "").
Qed.

Lemma run_query_signs_canonical_request_witness :
  ∃ items : list (string * string),
    items ≡ₚ map_to_list
               (fixed_fields "AKEY" "GetComputers" "2020-01-02T03:04:05Z" LATEST_VERSION
                  sample_params)
    ∧ StronglySorted (λ a b, String.compare a.1 b.1 = Lt) items
    ∧ (∀ c s, quote (String c s) "~"
              = (if is_always_safe c then String c "" else percent_byte c)
                +:+ quote s "~")
    ∧ (∀ s t, quote (s +:+ "~" +:+ t) "~" = quote s "~" +:+ "~" +:+ quote t "~")
    ∧ (∀ p, Some 8443 = Some p →
         ∃ parsed text,
           urlparse reference_runtime (strip "https://landscape.canonical.com:8443/api")
           = Some parsed
           ∧ url_netloc parsed = "landscape.canonical.com" +:+ ":" +:+ text
           ∧ int_of_str reference_runtime text = Some p)
    ∧ (∃ parsed,
         urlparse reference_runtime (strip "https://landscape.canonical.com:8443/api")
         = Some parsed
         ∧ "/api" = urlunparse reference_runtime
                      (UrlParts "" "" (url_path parsed) (url_params parsed)
                         (url_query parsed) (url_fragment parsed)))
    ∧ b64encode (hmac_sha256_digest "Jefe" "what do ya want for nothing?")
      = "W9zBRr9gdU5qBCQmCJV1x1oAPwidJzmDnexYuWTsOEM="
    ∧ quote "a b/~+" "~" = "a%20b%2F~%2B"
    ∧ let canonical :=
        join_with "&" ((λ kv, quote kv.1 "~" +:+ "=" +:+ quote kv.2 "~") <$> items) in
      let to_sign :=
        join_with (String "010" "")
          ["POST"; "landscape.canonical.com:8443"; "/api"; canonical] in
      let signature := b64encode (hmac_sha256_digest "SECRET" to_sign) in
      posts (run_query reference_runtime (sample_environment (Ok (Response true 200 "[]")))
               "AKEY" "SECRET" "GetComputers" 7
               "https://landscape.canonical.com:8443/api" (PBool true) LATEST_VERSION
               sample_world).2
      = posts sample_world
        ++ [Request "https://landscape.canonical.com:8443/api"
              (canonical +:+ "&signature=" +:+ quote signature "/")
              (<["Content-type" := "application/x-www-form-urlencoded"]>
                 {[ "Host" := "landscape.canonical.com:8443" ]})
              (PBool true)].
Proof.
  apply (run_query_signs_canonical_request reference_runtime
           (sample_environment (Ok (Response true 200 "[]")))
           "AKEY" "SECRET" "GetComputers" 7
           "https://landscape.canonical.com:8443/api" (PBool true) LATEST_VERSION
           sample_world sample_params "landscape.canonical.com" (Some 8443) "/api").
  - reflexivity.
  - reflexivity.
Defined.

(** C9.  [run_query] changes the caller's dict in place.  Whatever the call
    returns or raises, afterwards the dict at the address passed as [params]
    holds the six fixed fields with the values of this call, every other key
    as before, and no other dict has changed. *)
Theorem run_query_mutates_params (rt : runtime) (env : environment)
    (access_key secret_key action : string) (params : nat) (uri : string)
    (ssl_ca_file : pyvalue) (version : string) (w : world) (d : gmap string string) :
  dicts w !! params = Some d →
  let w' :=
    (run_query rt env access_key secret_key action params uri ssl_ca_file version w).2 in
  ∃ d' : gmap string string,
    dicts w' !! params = Some d'
    ∧ d' !! "access_key_id" = Some access_key
    ∧ d' !! "action" = Some action
    ∧ d' !! "signature_version" = Some "2"
    ∧ d' !! "signature_method" = Some "HmacSHA256"
    ∧ d' !! "timestamp" = Some (env_timestamp env)
    ∧ d' !! "version" = Some version
    ∧ (∀ key, key ∉ fixed_field_names → d' !! key = d !! key)
    ∧ (∀ other, other ≠ params → dicts w' !! other = dicts w !! other).
Proof.
  intros Hd w'. subst w'. rewrite (run_query_dicts _ _ _ _ _ _ _ _ _ _ d Hd).
  exists (fixed_fields access_key action (env_timestamp env) version d).
  split; [by rewrite lookup_insert_eq|].
  pose proof (fixed_fields_lookup access_key action (env_timestamp env) version d) as H.
  cbv zeta in H. destruct H as (?&?&?&?&?&?&?).
  repeat split; try done.
  intros other Hother. by rewrite lookup_insert_ne.
Qed.

Lemma run_query_mutates_params_witness :
  let w := World {[ 7%nat := {[ "action" := "Mine"; "query" := "x" ]} ]} [] in
  let w' :=
    (run_query reference_runtime (sample_environment (Raise (RequestException "timeout")))
       "AKEY" "SECRET" "GetComputers" 7 "https://landscape.canonical.com/api"
       (PBool true) LATEST_VERSION w).2 in
  ∃ d' : gmap string string,
    dicts w' !! 7%nat = Some d'
    ∧ d' !! "access_key_id" = Some "AKEY"
    ∧ d' !! "action" = Some "GetComputers"
    ∧ d' !! "signature_version" = Some "2"
    ∧ d' !! "signature_method" = Some "HmacSHA256"
    ∧ d' !! "timestamp" = Some "2020-01-02T03:04:05Z"
    ∧ d' !! "version" = Some LATEST_VERSION
    ∧ (∀ key, key ∉ fixed_field_names
              → d' !! key = ({[ "action" := "Mine"; "query" := "x" ]} : gmap string string) !! key)
    ∧ (∀ other, other ≠ 7%nat → dicts w' !! other = dicts w !! other).
Proof.
  apply (run_query_mutates_params reference_runtime
           (sample_environment (Raise (RequestException "timeout")))
           "AKEY" "SECRET" "GetComputers" 7 "https://landscape.canonical.com/api"
           (PBool true) LATEST_VERSION
           (World {[ 7%nat := {[ "action" := "Mine"; "query" := "x" ]} ]} [])
           {[ "action" := "Mine"; "query" := "x" ]}).
  reflexivity.
Defined.

(** ** The error registry *)

Lemma build_exceptions_flat (st : gmap string pyclass * nat) (sch : schema) :
  _build_exceptions_from st sch = foldl build_error st (declared_codes sch).
Proof.
  unfold _build_exceptions_from, declared_codes.
  revert st. induction sch as [|action sch IH]; intros st; [done|].
  cbn [foldl]. rewrite bind_cons, foldl_app, IH. f_equal.
  unfold build_action. generalize (action.2). clear.
  intros versions. revert st.
  induction versions as [|version versions IH]; intros st; [done|].
  cbn [foldl]. by rewrite bind_cons, foldl_app, IH.
Qed.

(** What the registry holds under [name] once [codes] have been processed:
    what it held before, or else the class built at the first declaration of
    a code with that exception name. *)
Lemma build_errors_lookup (codes : list string) (reg : gmap string pyclass) (n : nat)
    (name : string) :
  (foldl build_error (reg, n) codes).1 !! name
  = match reg !! name with
    | Some cls => Some cls
    | None => (λ i, GeneratedError (n + i) name) <$> first_declaration name codes
    end.
Proof.
  revert reg n. induction codes as [|code codes IH]; intros reg n.
  - cbn. by destruct (reg !! name).
  - cbn [foldl first_declaration]. unfold build_error at 2, lookup_error, add_error.
    cbn [fst snd].
    destruct (String.eqb_spec (_get_error_code_name code) name) as [->|Hne].
    + destruct (reg !! name) as [cls|] eqn:Hreg.
      * rewrite IH. by rewrite Hreg.
      * rewrite IH. rewrite lookup_insert_eq. cbn. by rewrite Nat.add_0_r.
    + destruct (reg !! _get_error_code_name code) as [cls|] eqn:Hreg.
      * rewrite IH. destruct (reg !! name); [done|].
        destruct (first_declaration name codes); cbn; [|done].
        do 2 f_equal. lia.
      * rewrite IH. rewrite lookup_insert_ne by done.
        destruct (reg !! name); [done|].
        destruct (first_declaration name codes); cbn; [|done].
        do 2 f_equal. lia.
Qed.

Lemma first_declaration_elem_of (code : string) (codes : list string) :
  code ∈ codes → is_Some (first_declaration (_get_error_code_name code) codes).
Proof.
  induction codes as [|c codes IH]; intros Hin; [by apply elem_of_nil in Hin|].
  cbn [first_declaration].
  destruct (String.eqb_spec (_get_error_code_name c) (_get_error_code_name code)); [done|].
  apply elem_of_cons in Hin as [->|Hin]; [done|].
  destruct (IH Hin) as [i ->]. done.
Qed.

Lemma build_exceptions_lookup (sch : schema) (name : string) :
  lookup_error (_build_exceptions sch) name
  = (λ i, GeneratedError i name) <$> first_declaration name (declared_codes sch).
Proof.
  unfold _build_exceptions, lookup_error.
  rewrite build_exceptions_flat, build_errors_lookup.
  by rewrite lookup_empty.
Qed.

(** C8.  Building the registry de-duplicates.  For an error code declared
    anywhere in the schema, with [name] its exception name (the code, with
    [Error] appended unless it ends so already), the registry holds under
    [name] the class built at the first declaration of a code with that
    name; every declaration with that name, from whatever action or version,
    looks up that same class object; and it is the only class of that name
    in the registry. *)
Theorem build_exceptions_deduplicates (sch : schema) (code : string) :
  code ∈ declared_codes sch →
  let name := _get_error_code_name code in
  let registry := _build_exceptions sch in
  name = (if endswith code "Error" then code else code +:+ "Error")
  ∧ ∃ i : nat,
      first_declaration name (declared_codes sch) = Some i
      ∧ lookup_error registry name = Some (GeneratedError i name)
      ∧ (∀ code', code' ∈ declared_codes sch → _get_error_code_name code' = name →
           lookup_error registry (_get_error_code_name code')
           = Some (GeneratedError i name))
      ∧ (∀ key cls, lookup_error registry key = Some cls →
           class_name cls = name → key = name ∧ cls = GeneratedError i name).
Proof.
  intros Hin name registry. split; [done|].
  destruct (first_declaration_elem_of code _ Hin) as [i Hi]. fold name in Hi.
  exists i. subst registry. split; [done|].
  split; [by rewrite build_exceptions_lookup, Hi|].
  split.
  - intros code' _ ->. by rewrite build_exceptions_lookup, Hi.
  - intros key cls Hkey Hname. rewrite build_exceptions_lookup in Hkey.
    destruct (first_declaration key (declared_codes sch)) as [j|] eqn:Hj; [|done].
    cbn in Hkey. injection Hkey as <-. cbn in Hname. subst key.
    split; [done|]. congruence.
Qed.

Lemma build_exceptions_deduplicates_witness :
  let name := _get_error_code_name "Unauthorised" in
  let registry := _build_exceptions sample_schema in
  name = (if endswith "Unauthorised" "Error" then "Unauthorised"
          else "Unauthorised" +:+ "Error")
  ∧ ∃ i : nat,
      first_declaration name (declared_codes sample_schema) = Some i
      ∧ lookup_error registry name = Some (GeneratedError i name)
      ∧ (∀ code', code' ∈ declared_codes sample_schema →
           _get_error_code_name code' = name →
           lookup_error registry (_get_error_code_name code')
           = Some (GeneratedError i name))
      ∧ (∀ key cls, lookup_error registry key = Some cls →
           class_name cls = name → key = name ∧ cls = GeneratedError i name).
Proof.
  apply (build_exceptions_deduplicates sample_schema "Unauthorised").
  vm_compute. do 1 right. left.
Defined.

Example build_exceptions_sample :
  lookup_error (_build_exceptions sample_schema) "UnauthorisedError"
    = Some (GeneratedError 1 "UnauthorisedError")
  ∧ lookup_error (_build_exceptions sample_schema) "UnknownSeriesError"
    = Some (GeneratedError 4 "UnknownSeriesError")
  ∧ lookup_error (_build_exceptions sample_schema) "InvalidQueryError"
    = Some (GeneratedError 10 "InvalidQueryError")
  ∧ size (_build_exceptions sample_schema) = 9%nat
  ∧ length (declared_codes sample_schema) = 20%nat.
Proof. vm_compute. repeat split. Qed.

(** ** Error responses *)

Lemma run_query_result (rt : runtime) (env : environment)
    (access_key secret_key action : string) (params : nat) (uri : string)
    (ssl_ca_file : pyvalue) (version : string) (w : world) (d : gmap string string)
    (uri' body signed_host : string) :
  dicts w !! params = Some d →
  signed_request rt secret_key uri
    (fixed_fields access_key action (env_timestamp env) version d)
  = Ok (uri', body, signed_host) →
  (run_query rt env access_key secret_key action params uri ssl_ca_file version w).1
  = translate_error rt (env_errors env)
      (fetch rt env uri' body {[ "Host" := signed_host ]} ssl_ca_file
         (World (<[params := fixed_fields access_key action (env_timestamp env) version d]>
                   (dicts w)) (posts w))).1.
Proof.
  intros Hd Hreq. unfold run_query. rewrite Hd, rekey_id. cbv zeta.
  by rewrite Hreq.
Qed.

(** What [fetch] raises on a response that is not [ok]. *)
Lemma fetch_not_ok (rt : runtime) (env : environment) (url post_body : string)
    (headers : gmap string string) (cainfo : pyvalue) (w : world) (resp : response) :
  env_post env (Request url post_body
                  (<["Content-type" := "application/x-www-form-urlencoded"]> headers)
                  cainfo) = Ok resp →
  resp_ok resp = false →
  (fetch rt env url post_body headers cainfo w).1
  = match HTTPError_init rt (resp_status_code resp) (Some (resp_text resp)) JNull with
    | Ok e => Raise (HTTPException HTTPError e [])
    | Raise e => Raise e
    end.
Proof.
  intros Hpost Hok. unfold fetch. cbv zeta. rewrite Hpost, Hok. cbn [negb].
  by destruct (HTTPError_init rt _ _ _).
Qed.

Lemma HTTPError_init_error_document (rt : runtime) (code : Z) (text : string)
    (entries : list (string * json)) (error message : json) :
  startswith text "{" = true →
  json_loads rt text = Some (JDict entries) →
  dict_get "error" entries = Some error →
  dict_get "message" entries = Some message →
  HTTPError_init rt code (Some text) JNull
  = Ok (HttpError code (Some text) (JDict entries) error message).
Proof.
  intros Hbrace Hloads Herror Hmessage. unfold HTTPError_init.
  rewrite Hbrace, Hloads. cbn [mbind result_bind json_truthy].
  destruct entries as [|entry entries]; [done|].
  unfold subscript. by rewrite Herror, Hmessage.
Qed.

Lemma HTTPError_init_plain_text (rt : runtime) (code : Z) (text : string) :
  startswith text "{" = false →
  HTTPError_init rt code (Some text) JNull
  = Ok (HttpError code (Some text) JNull JNull JNull).
Proof. intros Hbrace. unfold HTTPError_init. by rewrite Hbrace. Qed.

Lemma HTTPError_init_not_json (rt : runtime) (code : Z) (text : string) :
  startswith text "{" = true →
  json_loads rt text = None →
  HTTPError_init rt code (Some text) JNull = Raise (JSONDecodeError text).
Proof. intros Hbrace Hloads. unfold HTTPError_init. by rewrite Hbrace, Hloads. Qed.

(** C6, as stated, on a server answer with the code [TotallyUnknownCode]:
    what [run_query] raises is the [HTTPError] that [fetch] built, which is
    not an instance of [APIError], the base class of the registry. *)
Lemma unknown_code_raises_plain_HTTPError :
  let text := error_document "TotallyUnknownCode" "no such code" in
  let env := Environment "2020-01-02T03:04:05Z" (λ _, Ok (Response false 400 text))
               (module_errors sample_schema) in
  let raised :=
    HTTPException HTTPError
      (HttpError 400 (Some text)
         (JDict [("error", JStr "TotallyUnknownCode"); ("message", JStr "no such code")])
         (JStr "TotallyUnknownCode") (JStr "no such code")) [] in
  lookup_error (env_errors env) (_get_error_code_name "TotallyUnknownCode") = None
  ∧ (run_query reference_runtime env "AKEY" "SECRET" "GetComputers" 7
       "https://landscape.canonical.com/api" (PBool true) LATEST_VERSION sample_world).1
    = Raise raised
  ∧ isinstance_APIError raised = false.
Proof. vm_compute. repeat split. Qed.

(** C6 (amended).  When the response is not [ok], its body starts with a
    brace and decodes to an object with an ["error"] code that is a string
    and a ["message"], and no class is registered for the code, [run_query]
    raises the [HTTPError] that [fetch] built: it carries the status, the
    body, the decoded document, the code and the message; it is an instance
    of [HTTPError], the base class of [APIError], and not of [APIError].  (A
    body that does not start with a brace is not decoded at all.) *)
Theorem run_query_unknown_error_code (rt : runtime) (env : environment)
    (access_key secret_key action : string) (params : nat) (uri : string)
    (ssl_ca_file : pyvalue) (version : string) (w : world) (d : gmap string string)
    (uri' body signed_host : string) (resp : response)
    (entries : list (string * json)) (code : string) (message : json) :
  dicts w !! params = Some d →
  signed_request rt secret_key uri
    (fixed_fields access_key action (env_timestamp env) version d)
  = Ok (uri', body, signed_host) →
  env_post env (Request uri' body
                  (<["Content-type" := "application/x-www-form-urlencoded"]>
                     {[ "Host" := signed_host ]})
                  ssl_ca_file) = Ok resp →
  resp_ok resp = false →
  startswith (resp_text resp) "{" = true →
  json_loads rt (resp_text resp) = Some (JDict entries) →
  dict_get "error" entries = Some (JStr code) →
  dict_get "message" entries = Some message →
  lookup_error (env_errors env) (_get_error_code_name code) = None →
  let raised :=
    HTTPException HTTPError
      (HttpError (resp_status_code resp) (Some (resp_text resp)) (JDict entries)
         (JStr code) message) [] in
  (run_query rt env access_key secret_key action params uri ssl_ca_file version w).1
  = Raise raised
  ∧ isinstance_HTTPError raised = true
  ∧ isinstance_APIError raised = false.
Proof.
  intros Hd Hreq Hpost Hok Hbrace Hloads Herror Hmessage Hlookup raised.
  split; [|done].
  rewrite (run_query_result _ _ _ _ _ _ _ _ _ _ d uri' body signed_host Hd Hreq).
  rewrite (fetch_not_ok _ _ _ _ _ _ _ resp Hpost Hok).
  rewrite (HTTPError_init_error_document _ _ _ entries (JStr code) message)
    by done.
  unfold translate_error. cbn [e_error_code is_not_None error_code_name mbind result_bind].
  by rewrite Hlookup.
Qed.

Lemma run_query_unknown_error_code_witness :
  let text := error_document "TotallyUnknownCode" "no such code" in
  let env := Environment "2020-01-02T03:04:05Z" (λ _, Ok (Response false 400 text))
               (module_errors sample_schema) in
  let raised :=
    HTTPException HTTPError
      (HttpError 400 (Some text)
         (JDict [("error", JStr "TotallyUnknownCode"); ("message", JStr "no such code")])
         (JStr "TotallyUnknownCode") (JStr "no such code")) [] in
  (run_query reference_runtime env "AKEY" "SECRET" "GetComputers" 7
     "https://landscape.canonical.com/api" (PBool true) LATEST_VERSION sample_world).1
  = Raise raised
  ∧ isinstance_HTTPError raised = true
  ∧ isinstance_APIError raised = false.
Proof.
  intros text env raised.
  destruct (signed_request reference_runtime "SECRET" "https://landscape.canonical.com/api"
              (fixed_fields "AKEY" "GetComputers" (env_timestamp env) LATEST_VERSION
                 sample_params)) as [[[uri' body] signed_host]|e] eqn:Hreq;
    [|vm_compute in Hreq; discriminate].
  apply (run_query_unknown_error_code reference_runtime env "AKEY" "SECRET" "GetComputers"
           7 "https://landscape.canonical.com/api" (PBool true) LATEST_VERSION
           sample_world sample_params uri' body signed_host (Response false 400 text)
           [("error", JStr "TotallyUnknownCode"); ("message", JStr "no such code")]
           "TotallyUnknownCode" (JStr "no such code"));
    try reflexivity.
  exact Hreq.
Defined.

(** C7 at a failing input.  A body that starts with a brace and that
    [json.loads] rejects makes [HTTPError.__init__] raise [JSONDecodeError];
    the exception leaves [fetch] and, not being an [HTTPError], passes the
    [except] clause of [run_query] untouched.  A body that does not start
    with a brace gives the generic [HTTPError] with the status and the text
    only. *)
Theorem run_query_error_body_not_json (rt : runtime) (env : environment)
    (access_key secret_key action : string) (params : nat) (uri : string)
    (ssl_ca_file : pyvalue) (version : string) (w : world) (d : gmap string string)
    (uri' body signed_host : string) (resp : response) :
  dicts w !! params = Some d →
  signed_request rt secret_key uri
    (fixed_fields access_key action (env_timestamp env) version d)
  = Ok (uri', body, signed_host) →
  env_post env (Request uri' body
                  (<["Content-type" := "application/x-www-form-urlencoded"]>
                     {[ "Host" := signed_host ]})
                  ssl_ca_file) = Ok resp →
  resp_ok resp = false →
  let outcome :=
    (run_query rt env access_key secret_key action params uri ssl_ca_file version w).1 in
  (startswith (resp_text resp) "{" = true → json_loads rt (resp_text resp) = None →
     outcome = Raise (JSONDecodeError (resp_text resp))
     ∧ isinstance_HTTPError (JSONDecodeError (resp_text resp)) = false)
  ∧ (startswith (resp_text resp) "{" = false →
     outcome = Raise (HTTPException HTTPError
                        (HttpError (resp_status_code resp) (Some (resp_text resp))
                           JNull JNull JNull) [])).
Proof.
  intros Hd Hreq Hpost Hok outcome. subst outcome.
  rewrite (run_query_result _ _ _ _ _ _ _ _ _ _ d uri' body signed_host Hd Hreq).
  rewrite (fetch_not_ok _ _ _ _ _ _ _ resp Hpost Hok).
  split.
  - intros Hbrace Hloads. by rewrite HTTPError_init_not_json.
  - intros Hbrace. by rewrite HTTPError_init_plain_text.
Qed.

Lemma run_query_error_body_not_json_witness :
  (run_query reference_runtime (sample_environment (Ok (Response false 500 "{oops")))
     "AKEY" "SECRET" "GetComputers" 7 "https://landscape.canonical.com/api"
     (PBool true) LATEST_VERSION sample_world).1
  = Raise (JSONDecodeError "{oops")
  ∧ isinstance_HTTPError (JSONDecodeError "{oops") = false.
Proof.
  set (env := sample_environment (Ok (Response false 500 "{oops"))).
  destruct (signed_request reference_runtime "SECRET" "https://landscape.canonical.com/api"
              (fixed_fields "AKEY" "GetComputers" (env_timestamp env) LATEST_VERSION
                 sample_params)) as [[[uri' body] signed_host]|e] eqn:Hreq;
    [|vm_compute in Hreq; discriminate].
  apply (run_query_error_body_not_json reference_runtime env "AKEY" "SECRET" "GetComputers"
           7 "https://landscape.canonical.com/api" (PBool true) LATEST_VERSION
           sample_world sample_params uri' body signed_host (Response false 500 "{oops"));
    try reflexivity.
  exact Hreq.
Defined.

(** The same happens when the body is a JSON object that lacks one of the
    two keys: [KeyError] instead of an [HTTPError]. *)
Example run_query_error_body_without_message :
  let text := "{" +:+ String DQUOTE "error" +:+ String DQUOTE ": "
              +:+ String DQUOTE "Oops" +:+ String DQUOTE "}" in
  (run_query reference_runtime (sample_environment (Ok (Response false 500 text)))
     "AKEY" "SECRET" "GetComputers" 7 "https://landscape.canonical.com/api"
     (PBool true) LATEST_VERSION sample_world).1
  = Raise (KeyError "message").
Proof. vm_compute. reflexivity. Qed.

(** ** Python equality *)





(** ** The encoder *)

Lemma _encode_argument_eq (rt : runtime) (read_binary : pyvalue → result string)
    (parameter : parameter) (name : string) (value : pyvalue) :
  _encode_argument rt read_binary parameter name value
  = if p_optional parameter && py_eq value (p_default parameter) then Ok ∅
    else handler_for rt read_binary (_encode_argument rt read_binary)
           (replace_spaces (p_type parameter)) parameter name value.
Proof. by destruct parameter. Qed.





Example default_suppression_sample :
  _encode_struct_fields reference_runtime (λ _, Raise (OSError "no file"))
    (h_parameters CreateAccessGroup) (PDict [(PStr "title", PStr "group1")]) ""
  = Ok {[ "title" := "group1" ]}
  ∧ _encode_struct_fields reference_runtime (λ _, Raise (OSError "no file"))
      (h_parameters CreateAccessGroup)
      (PDict [(PStr "title", PStr "group1"); (PStr "parent", PNone)]) ""
    = Ok {[ "title" := "group1" ]}
  ∧ _encode_struct_fields reference_runtime (λ _, Raise (OSError "no file"))
      (h_parameters CreateAccessGroup)
      (PDict [(PStr "title", PStr "group1"); (PStr "parent", PStr "global")]) ""
    = Ok {[ "title" := "group1"; "parent" := "global" ]}.
Proof. vm_compute. repeat split. Qed.

(** ** Required parameters *)

Lemma dict_pop_contains (name other : string) (entries rest : list (pyvalue * pyvalue))
    (v : pyvalue) :
  dict_pop other entries = Some (v, rest) →
  existsb (λ kv, py_eq (PStr name) kv.1) entries = false →
  existsb (λ kv, py_eq (PStr name) kv.1) rest = false.
Proof.
  revert rest. induction entries as [|[k x] entries IH]; intros rest Hpop Hnot; [done|].
  cbn [dict_pop] in Hpop. cbn [existsb fst] in Hnot.
  apply orb_false_iff in Hnot as [Hk Hnot].
  destruct (py_eq (PStr other) k).
  - by injection Hpop as _ <-.
  - destruct (dict_pop other entries) as [[found rest']|] eqn:Hrest; [|done].
    cbn in Hpop. injection Hpop as <- <-.
    cbn [existsb fst]. rewrite Hk. cbn [orb]. by apply IH.
Qed.

Lemma arg_pop_contains (name other : string) (arguments arguments' : pyvalue)
    (v : pyvalue) :
  arg_pop other arguments = Ok (v, arguments') →
  arg_contains name arguments = false →
  arg_contains name arguments' = false.
Proof.
  destruct arguments; try done. cbn [arg_pop arg_contains].
  destruct (dict_pop other entries) as [[found rest]|] eqn:Hpop; [|done].
  intros [= _ <-] Hnot. cbn [arg_contains].
  by eapply dict_pop_contains.
Qed.

(** A name that is not among the arguments is still not among them after
    the fields before it have been processed. *)
Lemma encode_fields_contains
    (encode : parameter → string → pyvalue → result (gmap string string))
    (name : string) (fields : list (string * parameter)) (arguments : pyvalue)
    (prefix : string) (acc acc' : gmap string string) (arguments' : pyvalue) :
  encode_fields encode fields arguments prefix acc = Ok (acc', arguments') →
  arg_contains name arguments = false →
  arg_contains name arguments' = false.
Proof.
  revert arguments acc.
  induction fields as [|[pname pdesc] fields IH]; intros arguments acc Henc Hnot.
  - by injection Henc as _ <-.
  - cbn [encode_fields] in Henc.
    destruct (arg_contains pname arguments).
    + cbn [negb] in Henc.
      destruct (arg_pop pname arguments) as [[value rest]|e] eqn:Hpop; [|done].
      cbn [mbind result_bind] in Henc.
      destruct (encode pdesc (prefix +:+ pname) value) as [encoded|e]; [|done].
      cbn [mbind result_bind] in Henc.
      eapply IH; [done|]. by eapply arg_pop_contains.
    + cbn [negb] in Henc. destruct (negb (p_optional pdesc)); [done|].
      by eapply IH.
Qed.

Lemma encode_fields_app
    (encode : parameter → string → pyvalue → result (gmap string string))
    (fields1 fields2 : list (string * parameter)) (arguments : pyvalue)
    (prefix : string) (acc : gmap string string) :
  encode_fields encode (fields1 ++ fields2) arguments prefix acc
  = match encode_fields encode fields1 arguments prefix acc with
    | Ok (acc', arguments') => encode_fields encode fields2 arguments' prefix acc'
    | Raise e => Raise e
    end.
Proof.
  revert arguments acc.
  induction fields1 as [|[pname pdesc] fields1 IH]; intros arguments acc; [done|].
  cbn [app encode_fields].
  destruct (negb (arg_contains pname arguments)).
  - destruct (negb (p_optional pdesc)); [done|]. apply IH.
  - destruct (arg_pop pname arguments) as [[value rest]|e]; [|done].
    cbn [mbind result_bind].
    destruct (encode pdesc (prefix +:+ pname) value) as [encoded|e]; [|done].
    cbn [mbind result_bind]. apply IH.
Qed.

(** Encoding fails when a required field is missing: with the error of an
    earlier field if there is one, with [Missing parameter] otherwise. *)
Lemma encode_fields_missing
    (encode : parameter → string → pyvalue → result (gmap string string))
    (before after : list (string * parameter)) (name : string) (p : parameter)
    (arguments : pyvalue) (prefix : string) (acc : gmap string string) :
  p_optional p = false →
  arg_contains name arguments = false →
  encode_fields encode (before ++ (name, p) :: after) arguments prefix acc
  = match encode_fields encode before arguments prefix acc with
    | Ok _ => Raise (TypeError ("Missing parameter " +:+ name))
    | Raise e => Raise e
    end.
Proof.
  intros Hreq Hnot. rewrite encode_fields_app.
  destruct (encode_fields encode before arguments prefix acc)
    as [[acc' arguments']|e] eqn:Hbefore; [|done].
  cbn [encode_fields].
  by rewrite (encode_fields_contains _ _ _ _ _ _ _ _ Hbefore Hnot), Hreq.
Qed.

Lemma kwargs_contains (name : string) (kwargs : list (string * pyvalue)) :
  dict_get name kwargs = None →
  arg_contains name (PDict (prod_map PStr id <$> kwargs)) = false.
Proof.
  induction kwargs as [|[k v] kwargs IH]; [done|].
  cbn [dict_get]. rewrite fmap_cons. cbn [arg_contains existsb prod_map fst].
  change (py_eq (PStr name) (PStr k)) with (String.eqb name k).
  rewrite (String.eqb_sym k name). destruct (String.eqb name k); [done|].
  intros Hget. cbn [orb]. by apply IH.
Qed.

(** C4, as stated, on [AddPocketsToRepositoryProfile]: the required
    [series] is omitted, but the call fails on [pockets], declared before
    it, and the error raised is not the missing-parameter one. *)
Lemma missing_parameter_not_always_reported :
  let kwargs := [("name", PStr "profile"); ("pockets", PInt 5)] in
  dict_get "series" kwargs = None
  ∧ p_optional <$> dict_get "series" (h_parameters AddPocketsToRepositoryProfile)
    = Some false
  ∧ call reference_runtime (λ _, Raise (OSError "no file"))
      (sample_environment (Ok (Response true 200 "[]"))) sample_api
      "AddPocketsToRepositoryProfile" kwargs sample_world
    = (Raise (TypeError "object is not iterable"), sample_world)
  ∧ TypeError "object is not iterable" ≠ TypeError "Missing parameter series".
Proof. vm_compute. repeat split. discriminate. Qed.

(** C4 (amended).  A call that omits a required declared parameter raises
    before anything is sent: the world after the call is the world before
    it, so no request has been posted and no dict created.  The exception
    is the built-in [TypeError] with the message [Missing parameter <name>]
    when the parameters declared before the missing one were encoded without
    error; otherwise it is the error of the first of them that failed. *)
Theorem call_missing_required_parameter (rt : runtime)
    (read_binary : pyvalue → result string) (env : environment) (self : api)
    (method : string) (kwargs : list (string * pyvalue)) (w : world)
    (versions : list (string * handler)) (action : handler)
    (before after : list (string * parameter)) (name : string) (p : parameter) :
  dict_get method (_schema self) = Some versions →
  dict_get (version self) versions = Some action →
  h_parameters action = before ++ (name, p) :: after →
  p_optional p = false →
  dict_get name kwargs = None →
  (∃ e, call rt read_binary env self method kwargs w = (Raise e, w))
  ∧ posts (call rt read_binary env self method kwargs w).2 = posts w
  ∧ match encode_fields (_encode_argument rt read_binary) before
            (PDict (prod_map PStr id <$> kwargs)) "" ∅ with
    | Ok _ =>
        call rt read_binary env self method kwargs w
        = (Raise (TypeError ("Missing parameter " +:+ name)), w)
    | Raise e => call rt read_binary env self method kwargs w = (Raise e, w)
    end.
Proof.
  intros Hmethod Hversion Hparams Hreq Hget.
  assert (call rt read_binary env self method kwargs w
          = match encode_fields (_encode_argument rt read_binary) before
                    (PDict (prod_map PStr id <$> kwargs)) "" ∅ with
            | Ok _ => (Raise (TypeError ("Missing parameter " +:+ name)), w)
            | Raise e => (Raise e, w)
            end) as Hcall.
  { unfold call. rewrite Hmethod, Hversion, Hparams.
    unfold _encode_struct_fields, encode_struct_fields.
    rewrite (encode_fields_missing _ _ _ _ _ _ _ _ Hreq (kwargs_contains _ _ Hget)).
    by destruct (encode_fields _ before _ _ _). }
  rewrite Hcall.
  destruct (encode_fields _ before _ _ _); repeat split; eauto.
Qed.

Lemma call_missing_required_parameter_witness :
  call reference_runtime (λ _, Raise (OSError "no file"))
    (sample_environment (Ok (Response true 200 "[]"))) sample_api
    "AddPocketsToRepositoryProfile"
    [("name", PStr "profile"); ("pockets", PList [PStr "updates"])] sample_world
  = (Raise (TypeError ("Missing parameter " +:+ "series")), sample_world).
Proof.
  pose proof (call_missing_required_parameter reference_runtime
                (λ _, Raise (OSError "no file"))
                (sample_environment (Ok (Response true 200 "[]"))) sample_api
                "AddPocketsToRepositoryProfile"
                [("name", PStr "profile"); ("pockets", PList [PStr "updates"])]
                sample_world
                [(LATEST_VERSION, AddPocketsToRepositoryProfile);
                 (FUTURE_VERSION, AddPocketsToRepositoryProfile)]
                AddPocketsToRepositoryProfile
                [("name", unicode_parameter);
                 ("pockets", Param "list" false PNone (Some unicode_parameter)
                               None None None)]
                [("distribution", unicode_parameter)]
                "series" unicode_parameter
                eq_refl eq_refl eq_refl eq_refl eq_refl) as (_ & _ & H).
  exact H.
Defined.

(** ** List parameters *)

(** C5 at a failing input.  A string given for a list parameter is split at
    every comma, escaped or not, and the items are stripped: [a\,b,c] gives
    the three items [a\], [b] and [c], where the claim and the CSV list
    parser give the two items [a,b] and [c].  A native list is encoded item
    by item under [<name>.1], [<name>.2], ... as the claim says. *)
Theorem encode_list_ignores_comma_escapes (rt : runtime)
    (read_binary : pyvalue → result string) :
  let tags := Param "list" false PNone (Some unicode_parameter) None None None in
  _encode_argument rt read_binary tags "tags" (PStr "a\,b,c")
  = Ok {[ "tags.1" := "a\"; "tags.2" := "b"; "tags.3" := "c" ]}
  ∧ _encode_argument rt read_binary tags "tags"
      (PList (PStr <$> _parse_csv_list_safely "a\,b,c"))
    = Ok {[ "tags.1" := "a,b"; "tags.2" := "c" ]}
  ∧ _encode_argument rt read_binary tags "tags" (PStr " x , y")
    = Ok {[ "tags.1" := "x"; "tags.2" := "y" ]}
  ∧ _encode_argument rt read_binary tags "tags" (PList [PStr "x"; PStr "y"])
    = Ok {[ "tags.1" := "x"; "tags.2" := "y" ]}.
Proof. vm_compute. repeat split. Qed.

(* ===================================================================== *)
(** * Part III. Further properties of the code                             *)
(* ===================================================================== *)

(** ** More on the CSV list parser *)

Lemma csv_loop_started (s : string) (st : csv_state) :
  csv_yielded st ≠ [] ∨ csv_item st ≠ "" ∨ csv_escaped st = true →
  csv_yielded (csv_loop s st) ≠ [] ∨ csv_item (csv_loop s st) ≠ ""
  ∨ csv_escaped (csv_loop s st) = true.
Proof.
  revert st. induction s as [|c s IH]; intros st Hst; [done|].
  rewrite csv_loop_cons. apply IH. destruct st as [ys it e]. unfold csv_step.
  cbn [csv_yielded csv_item csv_escaped] in *.
  destruct (Ascii.eqb c COMMA); [destruct e|destruct (Ascii.eqb c BACKSLASH)];
    cbn [csv_yielded csv_item csv_escaped].
  - right. left. intros H. by apply app_eq_empty in H as [_ ?].
  - left. by destruct ys.
  - by right; right.
  - right. left. intros H. by apply app_eq_empty in H as [_ ?].
Qed.

(** X1.  The parser yields no item at all only for the empty input: every
    other input, a lone comma or a lone backslash included, gives at least
    one item. *)
Theorem csv_parse_nil_iff (value : string) :
  _parse_csv_list_safely value = [] ↔ value = "".
Proof.
  split; [|by intros ->].
  destruct value as [|c s]; [done|]. intros Hnil. exfalso.
  unfold _parse_csv_list_safely in Hnil. rewrite csv_loop_cons in Hnil.
  assert (csv_yielded (csv_step csv_init c) ≠ [] ∨ csv_item (csv_step csv_init c) ≠ ""
          ∨ csv_escaped (csv_step csv_init c) = true) as Hstart.
  { unfold csv_step, csv_init. cbn [csv_yielded csv_item csv_escaped].
    destruct (Ascii.eqb c COMMA); [|destruct (Ascii.eqb c BACKSLASH)];
      cbn [csv_yielded csv_item csv_escaped]; [by left|by right; right|by right; left]. }
  pose proof (csv_loop_started s _ Hstart) as Hend.
  destruct (csv_loop s (csv_step csv_init c)) as [ys it e].
  unfold csv_finish in Hnil. cbn [csv_yielded csv_item csv_escaped] in *.
  apply app_eq_nil in Hnil as [-> Hlast].
  destruct Hend as [?|[Hit| ->]]; [done| |].
  - destruct e.
    + destruct (String.eqb_spec (it +:+ "\") "") as [H|]; [|done].
      by apply app_eq_empty in H as [_ ?].
    + by destruct (String.eqb_spec it "").
  - destruct (String.eqb_spec (it +:+ "\") "") as [H|]; [|done].
    by apply app_eq_empty in H as [_ ?].
Qed.

Lemma csv_loop_split (s : string) (ys : list string) (it : string) :
  contains_char BACKSLASH s = false →
  ∃ init last,
    split_go COMMA s it = init ++ [last]
    ∧ csv_loop s (CsvState ys it false) = CsvState (ys ++ init) last false.
Proof.
  revert ys it. induction s as [|c s IH]; intros ys it Hs.
  - exists [], it. by rewrite app_nil_r.
  - cbn [contains_char] in Hs. apply orb_false_iff in Hs as [Hc Hs].
    rewrite Ascii.eqb_sym in Hc. rewrite csv_loop_cons. cbn [split_go].
    destruct (Ascii.eqb c COMMA) eqn:Hcomma.
    + apply Ascii.eqb_eq in Hcomma as ->. rewrite csv_step_comma.
      destruct (IH (ys ++ [it]) "" Hs) as (init & last & Hsplit & Hloop).
      exists (it :: init), last. rewrite Hsplit, Hloop.
      split; [done|]. by rewrite <- app_assoc.
    + rewrite csv_step_plain by done. apply IH, Hs.
Qed.

(** X2.  On an input without backslashes the parser agrees with
    [value.split(",")], which the encoder uses for a list given as a string,
    except that it drops the last segment when that one is empty. *)
Theorem csv_parse_is_split (value : string) :
  contains_char BACKSLASH value = false →
  ∃ init last,
    split "," value = init ++ [last]
    ∧ _parse_csv_list_safely value = init ++ (if String.eqb last "" then [] else [last]).
Proof.
  intros Hvalue.
  destruct (csv_loop_split value [] "" Hvalue) as (init & last & Hsplit & Hloop).
  exists init, last. split; [done|].
  unfold _parse_csv_list_safely. fold csv_init in Hloop. by rewrite Hloop.
Qed.

Lemma csv_parse_is_split_witness :
  ∃ init last,
    split "," "a, b,,c," = init ++ [last]
    ∧ _parse_csv_list_safely "a, b,,c,"
      = init ++ (if String.eqb last "" then [] else [last]).
Proof. apply (csv_parse_is_split "a, b,,c,"). reflexivity. Defined.

(** ** Key/value pairs *)

Lemma partition_eq_Some (item key value : string) :
  partition_eq item = Some (key, value) →
  item = key +:+ "=" +:+ value ∧ contains_char "=" key = false.
Proof.
  revert key. induction item as [|c item IH]; intros key; [done|].
  cbn [partition_eq]. destruct (Ascii.eqb_spec c "=") as [->|Hne].
  - by intros [= <- <-].
  - destruct (partition_eq item) as [[k v]|]; [|done].
    cbn. intros [= <- <-]. destruct (IH k eq_refl) as [-> Hk].
    split; [done|]. cbn [contains_char]. rewrite Hk.
    by destruct (Ascii.eqb_spec "=" c) as [<-|].
Qed.

Lemma partition_eq_None (item : string) :
  partition_eq item = None → contains_char "=" item = false.
Proof.
  induction item as [|c item IH]; [done|].
  cbn [partition_eq contains_char]. destruct (Ascii.eqb_spec c "=") as [->|Hne]; [done|].
  destruct (partition_eq item) as [[k v]|]; [done|]. intros _.
  rewrite IH by done. by destruct (Ascii.eqb_spec "=" c) as [<-|].
Qed.

Lemma csv_pairs_spec (items : list string) :
  match csv_pairs items with
  | Ok pairs =>
      (λ kv, kv.1 +:+ "=" +:+ kv.2) <$> pairs = items
      ∧ Forall (λ kv, contains_char "=" kv.1 = false) pairs
  | Raise e =>
      ∃ item, item ∈ items ∧ contains_char "=" item = false
              ∧ e = ValueError ("invalid key/value pair " +:+ item)
  end.
Proof.
  induction items as [|item items IH]; [done|].
  cbn [csv_pairs]. destruct (partition_eq item) as [[k v]|] eqn:Hitem.
  - apply partition_eq_Some in Hitem as [-> Hk].
    destruct (csv_pairs items) as [pairs|e]; cbn [mbind result_bind].
    + destruct IH as [<- Hall]. split; [done|]. by constructor.
    + destruct IH as (item & Hin & Hno & ->). exists item. split; [by right|done].
  - apply partition_eq_None in Hitem. exists item. split; [by left|done].
Qed.

(** X3.  [_parse_csv_mapping_safely] cuts every item of the CSV list at its
    first equals sign: when it succeeds, joining each key and value with [=]
    gives the items back and no key contains [=]; it raises [ValueError],
    naming the item, exactly when some item has no equals sign. *)
Theorem csv_mapping_pairs (value : string) :
  match _parse_csv_mapping_safely value with
  | Ok pairs =>
      (λ kv, kv.1 +:+ "=" +:+ kv.2) <$> pairs = _parse_csv_list_safely value
      ∧ Forall (λ kv, contains_char "=" kv.1 = false) pairs
      ∧ Forall (λ item, contains_char "=" item = true) (_parse_csv_list_safely value)
  | Raise e =>
      ∃ item, item ∈ _parse_csv_list_safely value ∧ contains_char "=" item = false
              ∧ e = ValueError ("invalid key/value pair " +:+ item)
  end.
Proof.
  unfold _parse_csv_mapping_safely.
  pose proof (csv_pairs_spec (_parse_csv_list_safely value)) as H.
  destruct (csv_pairs (_parse_csv_list_safely value)) as [pairs|e]; [|done].
  destruct H as [Hitems Hkeys]. split; [done|]. split; [done|].
  rewrite <- Hitems. apply Forall_fmap, Forall_forall. intros [k v] _. cbn.
  clear. induction k as [|c k IH]; [done|].
  rewrite app_cons. cbn [contains_char]. rewrite IH. by destruct (Ascii.eqb "=" c).
Qed.

Lemma csv_trailing_comma_items (s t : string) :
  csv_escaped (csv_after s) = false →
  _parse_csv_list_safely (s +:+ ",," +:+ t)
  = csv_yielded (csv_after s) ++ csv_item (csv_after s) :: "" :: _parse_csv_list_safely t
  ∧ _parse_csv_list_safely (s +:+ "," +:+ t)
    = csv_yielded (csv_after s) ++ csv_item (csv_after s) :: _parse_csv_list_safely t.
Proof.
  intros Hesc. split; [|by apply csv_split_at_comma].
  change (",," +:+ t) with ("," +:+ ("," +:+ t)).
  rewrite (csv_split_at_comma s _ Hesc). do 2 f_equal.
  apply (csv_split_at_comma "" t eq_refl).
Qed.

(** X4.  [parse_list] skips the empty items of the CSV list before it parses
    anything: an additional comma next to an unescaped comma changes
    nothing, whatever the item parser does. *)
Theorem parse_list_skips_empty_items {E : Type}
    (parse_argument : parameter → string → E + pyvalue) (raised : exn → E)
    (parameter : parameter) (s t : string) :
  csv_escaped (csv_after s) = false →
  parse_list parse_argument raised parameter (s +:+ ",," +:+ t)
  = parse_list parse_argument raised parameter (s +:+ "," +:+ t).
Proof.
  intros Hesc. unfold parse_list.
  destruct (csv_trailing_comma_items s t Hesc) as [-> ->].
  generalize (csv_yielded (csv_after s)). intros ys.
  induction ys as [|y ys IH].
  - cbn [app parse_items].
    destruct (String.eqb (csv_item (csv_after s)) ""); [done|].
    destruct (p_item parameter); [|done]. by destruct (parse_argument _ _).
  - cbn [app parse_items]. rewrite IH. done.
Qed.

Lemma parse_list_skips_empty_items_witness :
  let tags := Param "list" false PNone (Some unicode_parameter) None None None in
  parse_list (λ _ v, inr (PStr v)) (λ e : exn, e) tags ("a" +:+ ",," +:+ "b")
  = parse_list (λ _ v, inr (PStr v)) (λ e : exn, e) tags ("a" +:+ "," +:+ "b")
  ∧ parse_list (λ _ v, inr (PStr v)) (λ e : exn, e) tags ("a" +:+ "," +:+ "b")
    = inr [PStr "a"; PStr "b"].
Proof.
  split; [|reflexivity].
  apply (parse_list_skips_empty_items (λ _ v, inr (PStr v)) (λ e : exn, e)
           (Param "list" false PNone (Some unicode_parameter) None None None) "a" "b").
  reflexivity.
Defined.

(** ** Exception names *)

Lemma rev_app_spec (s acc : string) : String.rev_app s acc = String.rev s +:+ acc.
Proof.
  unfold String.rev. revert acc. induction s as [|c s IH]; intros acc; [done|].
  cbn [String.rev_app]. rewrite IH, (IH (String c "")). by rewrite app_assoc_s.
Qed.

Lemma rev_app_s (s t : string) : String.rev (s +:+ t) = String.rev t +:+ String.rev s.
Proof.
  induction s as [|c s IH]; [by rewrite app_empty_r|].
  rewrite app_cons. unfold String.rev at 1 3. cbn [String.rev_app].
  rewrite !rev_app_spec, IH. by rewrite app_assoc_s.
Qed.

Lemma prefix_app (p s : string) : String.prefix p (p +:+ s) = true.
Proof.
  induction p as [|c p IH]; [by destruct s|].
  rewrite app_cons. cbn [String.prefix]. by destruct (ascii_dec c c).
Qed.

Lemma endswith_app (s p : string) : endswith (s +:+ p) p = true.
Proof. unfold endswith. rewrite rev_app_s. apply prefix_app. Qed.

Lemma error_code_name_endswith (error_code : string) :
  endswith (_get_error_code_name error_code) "Error" = true.
Proof.
  unfold _get_error_code_name.
  destruct (endswith error_code "Error") eqn:H; [done|apply endswith_app].
Qed.

(** X5.  The exception name of an error code always ends in [Error], and
    naming is idempotent: a name that ends in [Error] is kept as it is.  A
    code that does not end in [Error] and the same code followed by [Error]
    therefore have the same exception name, and the registry cannot tell
    them apart. *)
Theorem error_code_name_normal (error_code : string) :
  endswith (_get_error_code_name error_code) "Error" = true
  ∧ _get_error_code_name (_get_error_code_name error_code)
    = _get_error_code_name error_code
  ∧ _get_error_code_name (error_code +:+ "Error") = error_code +:+ "Error"
  ∧ (endswith error_code "Error" = false →
     _get_error_code_name error_code = _get_error_code_name (error_code +:+ "Error")).
Proof.
  pose proof (error_code_name_endswith error_code) as Hends.
  assert (∀ s, endswith s "Error" = true → _get_error_code_name s = s) as Hid.
  { intros s Hs. unfold _get_error_code_name. by rewrite Hs. }
  split; [done|]. split; [by apply Hid|].
  split; [apply Hid, endswith_app|].
  intros Hno. rewrite (Hid (error_code +:+ "Error")) by apply endswith_app.
  unfold _get_error_code_name. by rewrite Hno.
Qed.

Lemma error_code_name_normal_witness :
  _get_error_code_name "Unauthorised" = _get_error_code_name ("Unauthorised" +:+ "Error").
Proof.
  apply (proj2 (proj2 (proj2 (error_code_name_normal "Unauthorised")))). reflexivity.
Defined.

(** ** More on the registry *)

Lemma first_declaration_lookup (name : string) (codes : list string) (i : nat) :
  first_declaration name codes = Some i →
  ∃ code, codes !! i = Some code ∧ _get_error_code_name code = name.
Proof.
  revert i. induction codes as [|c codes IH]; intros i; [done|].
  cbn [first_declaration].
  destruct (String.eqb_spec (_get_error_code_name c) name) as [Hc|Hc].
  - intros [= <-]. by exists c.
  - destruct (first_declaration name codes) as [j|]; [|done].
    cbn. intros [= <-]. destruct (IH j eq_refl) as (code & ? & ?). by exists code.
Qed.

Lemma build_exceptions_generated (sch : schema) (key : string) (cls : pyclass) :
  lookup_error (_build_exceptions sch) key = Some cls →
  ∃ code i, code ∈ declared_codes sch ∧ key = _get_error_code_name code
            ∧ cls = GeneratedError i key.
Proof.
  rewrite build_exceptions_lookup. intros Hkey.
  destruct (first_declaration key (declared_codes sch)) as [i|] eqn:Hi; [|done].
  cbn in Hkey. injection Hkey as <-.
  destruct (first_declaration_lookup _ _ _ Hi) as (code & Hcode & Hname).
  exists code, i. split; [by eapply list_elem_of_lookup_2|done].
Qed.

(** X6.  The registry built from a schema holds nothing but the declared
    codes: every registered name is the exception name of a declared code,
    the class under it is a generated class carrying that name, and no class
    object is registered under two names. *)
Theorem build_exceptions_contents (sch : schema) (key : string) (cls : pyclass) :
  lookup_error (_build_exceptions sch) key = Some cls →
  (∃ code i, code ∈ declared_codes sch ∧ key = _get_error_code_name code
             ∧ cls = GeneratedError i key)
  ∧ endswith key "Error" = true
  ∧ (∀ key', lookup_error (_build_exceptions sch) key' = Some cls → key' = key).
Proof.
  intros Hkey.
  destruct (build_exceptions_generated sch key cls Hkey) as (code & i & Hcode & Hname & Hcls).
  split; [|split].
  - by exists code, i.
  - rewrite Hname. apply error_code_name_endswith.
  - intros key' Hkey'.
    destruct (build_exceptions_generated sch key' cls Hkey') as (? & ? & _ & _ & Hcls').
    rewrite Hcls in Hcls'. by injection Hcls' as _ ->.
Qed.

Lemma build_exceptions_contents_witness :
  (∃ code i, code ∈ declared_codes sample_schema
             ∧ "UnknownPocketError" = _get_error_code_name code
             ∧ GeneratedError 3 "UnknownPocketError" = GeneratedError i "UnknownPocketError")
  ∧ endswith "UnknownPocketError" "Error" = true
  ∧ (∀ key', lookup_error (_build_exceptions sample_schema) key'
             = Some (GeneratedError 3 "UnknownPocketError") → key' = "UnknownPocketError").
Proof.
  apply (build_exceptions_contents sample_schema "UnknownPocketError"
           (GeneratedError 3 "UnknownPocketError")).
  reflexivity.
Defined.

Lemma error_code_name_not_Unauthorised (code : string) :
  _get_error_code_name code ≠ "Unauthorised".
Proof.
  intros H. pose proof (error_code_name_endswith code) as Hends.
  by rewrite H in Hends.
Qed.

(** X7.  The classes registered by hand after the schema.  [MultiError],
    [SignatureDoesNotMatchError], [AuthFailureError] and
    [InvalidCredentialsError] replace whatever the schema declared under
    their names; [UnauthorisedError] is registered as [Unauthorised], a name
    that no lookup for an error code ever uses, so no error code resolves
    to it. *)
Theorem module_errors_fixed_classes (sch : schema) :
  lookup_error (module_errors sch) (_get_error_code_name "MultiError") = Some MultiError
  ∧ lookup_error (module_errors sch) (_get_error_code_name "SignatureDoesNotMatch")
    = Some SignatureDoesNotMatchError
  ∧ lookup_error (module_errors sch) (_get_error_code_name "AuthFailure")
    = Some AuthFailureError
  ∧ lookup_error (module_errors sch) (_get_error_code_name "InvalidCredentials")
    = Some InvalidCredentialsError
  ∧ lookup_error (module_errors sch) "Unauthorised" = Some UnauthorisedError
  ∧ (∀ code, lookup_error (module_errors sch) (_get_error_code_name code)
             ≠ Some UnauthorisedError)
  ∧ (∀ code, lookup_error (module_errors sch) (_get_error_code_name code)
             ≠ Some HTTPError).
Proof.
  unfold module_errors, lookup_error, add_error.
  repeat split; try by simplify_map_eq.
  - intros code.
    pose proof (error_code_name_not_Unauthorised code) as Hne.
    destruct (decide (_get_error_code_name code = "InvalidCredentialsError")) as [->|];
      [by simplify_map_eq|rewrite lookup_insert_ne by done].
    destruct (decide (_get_error_code_name code = "AuthFailureError")) as [->|];
      [by simplify_map_eq|rewrite lookup_insert_ne by done].
    destruct (decide (_get_error_code_name code = "SignatureDoesNotMatchError")) as [->|];
      [by simplify_map_eq|rewrite lookup_insert_ne by done].
    rewrite lookup_insert_ne by done.
    destruct (decide (_get_error_code_name code = "MultiError")) as [->|];
      [by simplify_map_eq|rewrite lookup_insert_ne by done].
    intros H. by apply build_exceptions_generated in H as (? & ? & ? & ? & ?).
  - intros code.
    destruct (decide (_get_error_code_name code = "InvalidCredentialsError")) as [->|];
      [by simplify_map_eq|rewrite lookup_insert_ne by done].
    destruct (decide (_get_error_code_name code = "AuthFailureError")) as [->|];
      [by simplify_map_eq|rewrite lookup_insert_ne by done].
    destruct (decide (_get_error_code_name code = "SignatureDoesNotMatchError")) as [->|];
      [by simplify_map_eq|rewrite lookup_insert_ne by done].
    destruct (decide (_get_error_code_name code = "Unauthorised")) as [->|];
      [by simplify_map_eq|rewrite lookup_insert_ne by done].
    destruct (decide (_get_error_code_name code = "MultiError")) as [->|];
      [by simplify_map_eq|rewrite lookup_insert_ne by done].
    intros H. by apply build_exceptions_generated in H as (? & ? & ? & ? & ?).
Qed.

(** ** More on [parse] *)

Lemma split_go_length (sep : ascii) (s cur : string) :
  length (split_go sep s cur) = S (count_char sep s).
Proof.
  revert cur. induction s as [|c s IH]; intros cur; [done|].
  cbn [split_go count_char]. destruct (Ascii.eqb c sep); cbn; by rewrite IH.
Qed.

Lemma count_char_contains (c : ascii) (s : string) :
  (1 ≤ count_char c s)%nat → contains_char c s = true.
Proof.
  induction s as [|d s IH]; [cbn; intros; lia|].
  cbn [count_char contains_char]. rewrite (Ascii.eqb_sym d c).
  destruct (Ascii.eqb c d); [done|]. apply IH.
Qed.

(** X8.  What [parse] refuses.  A URL that does not start with [http://] or
    [https://] (in any letter case) raises [SyntaxError], whatever the
    runtime; a failure of [urlparse] is passed on; and a network location
    with more than one colon (credentials with a password, an IPv6 address)
    raises [ValueError] from the two-name unpacking of [host.split(":")]. *)
Theorem parse_refusals (rt : runtime) (url : string) :
  (startswith (lower url) "http://" || startswith (lower url) "https://" = false →
     parse rt url
     = Raise (SyntaxError ("URL must start with 'http://' or 'https://': " +:+ url)))
  ∧ (startswith (lower url) "http://" || startswith (lower url) "https://" = true →
     (urlparse rt (strip url) = None → parse rt url = Raise (ValueError "urlparse"))
     ∧ (∀ parsed, urlparse rt (strip url) = Some parsed →
          (2 ≤ count_char ":" (url_netloc parsed))%nat →
          parse rt url = Raise (ValueError "too many values to unpack (expected 2)"))).
Proof.
  unfold parse. split.
  - by intros ->.
  - intros ->. cbn [negb]. split.
    + by intros ->.
    + intros parsed -> Hcount.
      rewrite count_char_contains by lia.
      pose proof (split_go_length ":" (url_netloc parsed) "") as Hlen.
      fold (split ":" (url_netloc parsed)) in Hlen.
      destruct (split ":" (url_netloc parsed)) as [|a [|b [|c l]]]; cbn in Hlen; try done; lia.
Qed.

Lemma parse_refusals_witness :
  parse reference_runtime "https://[2001:db8::1]/api"
  = Raise (ValueError "too many values to unpack (expected 2)").
Proof.
  pose proof (parse_refusals reference_runtime "https://[2001:db8::1]/api") as [_ H].
  destruct H as [_ H]; [reflexivity|].
  eapply H; [reflexivity|vm_compute; lia].
Defined.

Example parse_refusals_sample :
  parse reference_runtime "landscape.canonical.com/api"
  = Raise (SyntaxError
             "URL must start with 'http://' or 'https://': landscape.canonical.com/api")
  ∧ parse reference_runtime "https://[2001:db8::1]/api"
    = Raise (ValueError "too many values to unpack (expected 2)").
Proof. repeat split. Qed.

(** ** More on [run_query] *)

Lemma fetch_ok (rt : runtime) (env : environment) (url post_body : string)
    (headers : gmap string string) (cainfo : pyvalue) (w : world) (resp : response) :
  env_post env (Request url post_body
                  (<["Content-type" := "application/x-www-form-urlencoded"]> headers)
                  cainfo) = Ok resp →
  resp_ok resp = true →
  (fetch rt env url post_body headers cainfo w).1 = Ok (resp_text resp).
Proof. intros Hpost Hok. unfold fetch. cbv zeta. by rewrite Hpost, Hok. Qed.

Lemma fetch_raises (rt : runtime) (env : environment) (url post_body : string)
    (headers : gmap string string) (cainfo : pyvalue) (w : world) (e : exn) :
  env_post env (Request url post_body
                  (<["Content-type" := "application/x-www-form-urlencoded"]> headers)
                  cainfo) = Raise e →
  (fetch rt env url post_body headers cainfo w).1 = Raise e.
Proof. intros Hpost. unfold fetch. cbv zeta. by rewrite Hpost. Qed.

(** X9.  A URI that [parse] refuses makes [run_query] raise the error of
    [parse] without sending anything; the caller's dict has nevertheless
    received the six fixed fields by then. *)
Theorem run_query_refused_uri (rt : runtime) (env : environment)
    (access_key secret_key action : string) (params : nat) (uri : string)
    (ssl_ca_file : pyvalue) (version : string) (w : world) (d : gmap string string)
    (e : exn) :
  dicts w !! params = Some d →
  parse rt uri = Raise e →
  run_query rt env access_key secret_key action params uri ssl_ca_file version w
  = (Raise e,
     World (<[params := fixed_fields access_key action (env_timestamp env) version d]>
              (dicts w))
           (posts w)).
Proof.
  intros Hd Hparse. unfold run_query. rewrite Hd, rekey_id. cbv zeta.
  unfold signed_request. by rewrite Hparse.
Qed.

Lemma run_query_refused_uri_witness :
  run_query reference_runtime (sample_environment (Ok (Response true 200 "[]")))
    "AKEY" "SECRET" "GetComputers" 7 "landscape.canonical.com/api" (PBool true)
    LATEST_VERSION sample_world
  = (Raise (SyntaxError
              "URL must start with 'http://' or 'https://': landscape.canonical.com/api"),
     World (<[7%nat := fixed_fields "AKEY" "GetComputers" "2020-01-02T03:04:05Z"
                         LATEST_VERSION sample_params]> (dicts sample_world))
           (posts sample_world)).
Proof.
  apply (run_query_refused_uri reference_runtime
           (sample_environment (Ok (Response true 200 "[]")))
           "AKEY" "SECRET" "GetComputers" 7 "landscape.canonical.com/api" (PBool true)
           LATEST_VERSION sample_world sample_params); reflexivity.
Defined.

(** X10.  When the response is [ok], [run_query] returns its text as it is,
    without looking into it: a body that reads like an error document is
    returned like any other. *)
Theorem run_query_returns_text (rt : runtime) (env : environment)
    (access_key secret_key action : string) (params : nat) (uri : string)
    (ssl_ca_file : pyvalue) (version : string) (w : world) (d : gmap string string)
    (uri' body signed_host : string) (resp : response) :
  dicts w !! params = Some d →
  signed_request rt secret_key uri
    (fixed_fields access_key action (env_timestamp env) version d)
  = Ok (uri', body, signed_host) →
  env_post env (Request uri' body
                  (<["Content-type" := "application/x-www-form-urlencoded"]>
                     {[ "Host" := signed_host ]})
                  ssl_ca_file) = Ok resp →
  resp_ok resp = true →
  (run_query rt env access_key secret_key action params uri ssl_ca_file version w).1
  = Ok (resp_text resp).
Proof.
  intros Hd Hreq Hpost Hok.
  rewrite (run_query_result _ _ _ _ _ _ _ _ _ _ d uri' body signed_host Hd Hreq).
  by rewrite (fetch_ok _ _ _ _ _ _ _ resp Hpost Hok).
Qed.

Lemma run_query_returns_text_witness :
  (run_query reference_runtime
     (sample_environment (Ok (Response true 200 (error_document "Oops" "not an error"))))
     "AKEY" "SECRET" "GetComputers" 7 "https://landscape.canonical.com/api"
     (PBool true) LATEST_VERSION sample_world).1
  = Ok (error_document "Oops" "not an error").
Proof.
  set (resp := Response true 200 (error_document "Oops" "not an error")).
  set (env := sample_environment (Ok resp)).
  destruct (signed_request reference_runtime "SECRET" "https://landscape.canonical.com/api"
              (fixed_fields "AKEY" "GetComputers" (env_timestamp env) LATEST_VERSION
                 sample_params)) as [[[uri' body] signed_host]|e] eqn:Hreq;
    [|vm_compute in Hreq; discriminate].
  apply (run_query_returns_text reference_runtime env "AKEY" "SECRET" "GetComputers"
           7 "https://landscape.canonical.com/api" (PBool true) LATEST_VERSION
           sample_world sample_params uri' body signed_host resp);
    try reflexivity.
  exact Hreq.
Defined.

(** X11.  A registered error code.  When the response is not [ok], its body
    starts with a brace and decodes to an object with a string ["error"]
    code and a ["message"], and the registry holds a class other than
    [MultiError] under the exception name of the code, [run_query] raises an
    instance of that class with the status, the body, and the decoded
    document, code and message. *)
Theorem run_query_registered_error_code (rt : runtime) (env : environment)
    (access_key secret_key action : string) (params : nat) (uri : string)
    (ssl_ca_file : pyvalue) (version : string) (w : world) (d : gmap string string)
    (uri' body signed_host : string) (resp : response)
    (entries : list (string * json)) (code : string) (message : json)
    (error_class : pyclass) :
  dicts w !! params = Some d →
  signed_request rt secret_key uri
    (fixed_fields access_key action (env_timestamp env) version d)
  = Ok (uri', body, signed_host) →
  env_post env (Request uri' body
                  (<["Content-type" := "application/x-www-form-urlencoded"]>
                     {[ "Host" := signed_host ]})
                  ssl_ca_file) = Ok resp →
  resp_ok resp = false →
  startswith (resp_text resp) "{" = true →
  json_loads rt (resp_text resp) = Some (JDict entries) →
  dict_get "error" entries = Some (JStr code) →
  dict_get "message" entries = Some message →
  lookup_error (env_errors env) (_get_error_code_name code) = Some error_class →
  error_class ≠ MultiError →
  (run_query rt env access_key secret_key action params uri ssl_ca_file version w).1
  = Raise (HTTPException error_class
             (HttpError (resp_status_code resp) (Some (resp_text resp)) (JDict entries)
                (JStr code) message) []).
Proof.
  intros Hd Hreq Hpost Hok Hbrace Hloads Herror Hmessage Hlookup Hclass.
  rewrite (run_query_result _ _ _ _ _ _ _ _ _ _ d uri' body signed_host Hd Hreq).
  rewrite (fetch_not_ok _ _ _ _ _ _ _ resp Hpost Hok).
  rewrite (HTTPError_init_error_document _ _ _ entries (JStr code) message) by done.
  unfold translate_error.
  cbn [e_error_code e_code e_message is_not_None error_code_name mbind result_bind].
  rewrite Hlookup.
  assert (new_exception rt (env_errors env) error_class (resp_status_code resp)
            (Some (resp_text resp))
          = Ok (HTTPException error_class
                  (HttpError (resp_status_code resp) (Some (resp_text resp))
                     (JDict entries) (JStr code) message) [])) as ->; [|done].
  unfold new_exception.
  rewrite (HTTPError_init_error_document _ _ _ entries (JStr code) message) by done.
  by destruct error_class.
Qed.

Lemma run_query_registered_error_code_witness :
  let text := error_document "UnknownPocket" "no such pocket" in
  (run_query reference_runtime
     (Environment "2020-01-02T03:04:05Z" (λ _, Ok (Response false 404 text))
        (module_errors sample_schema))
     "AKEY" "SECRET" "GetComputers" 7 "https://landscape.canonical.com/api"
     (PBool true) LATEST_VERSION sample_world).1
  = Raise (HTTPException (GeneratedError 3 "UnknownPocketError")
             (HttpError 404 (Some text)
                (JDict [("error", JStr "UnknownPocket"); ("message", JStr "no such pocket")])
                (JStr "UnknownPocket") (JStr "no such pocket")) []).
Proof.
  intros text.
  set (env := Environment "2020-01-02T03:04:05Z" (λ _, Ok (Response false 404 text))
                (module_errors sample_schema)).
  destruct (signed_request reference_runtime "SECRET" "https://landscape.canonical.com/api"
              (fixed_fields "AKEY" "GetComputers" (env_timestamp env) LATEST_VERSION
                 sample_params)) as [[[uri' body] signed_host]|e] eqn:Hreq;
    [|vm_compute in Hreq; discriminate].
  apply (run_query_registered_error_code reference_runtime env "AKEY" "SECRET"
           "GetComputers" 7 "https://landscape.canonical.com/api" (PBool true)
           LATEST_VERSION sample_world sample_params uri' body signed_host
           (Response false 404 text)
           [("error", JStr "UnknownPocket"); ("message", JStr "no such pocket")]
           "UnknownPocket" (JStr "no such pocket") (GeneratedError 3 "UnknownPocketError"));
    try reflexivity; [exact Hreq|discriminate].
Defined.

(** X12.  An exception of the transport (no connection, a timeout) passes
    through [fetch] and [run_query] unchanged, after the one request has
    been sent; nothing is tried again. *)
Theorem run_query_transport_failure (rt : runtime) (env : environment)
    (access_key secret_key action : string) (params : nat) (uri : string)
    (ssl_ca_file : pyvalue) (version : string) (w : world) (d : gmap string string)
    (uri' body signed_host : string) (e : exn) :
  dicts w !! params = Some d →
  signed_request rt secret_key uri
    (fixed_fields access_key action (env_timestamp env) version d)
  = Ok (uri', body, signed_host) →
  env_post env (Request uri' body
                  (<["Content-type" := "application/x-www-form-urlencoded"]>
                     {[ "Host" := signed_host ]})
                  ssl_ca_file) = Raise e →
  isinstance_HTTPError e = false →
  (run_query rt env access_key secret_key action params uri ssl_ca_file version w).1
  = Raise e
  ∧ length (posts (run_query rt env access_key secret_key action params uri
                     ssl_ca_file version w).2)
    = S (length (posts w)).
Proof.
  intros Hd Hreq Hpost Hinst. split.
  - rewrite (run_query_result _ _ _ _ _ _ _ _ _ _ d uri' body signed_host Hd Hreq).
    rewrite (fetch_raises _ _ _ _ _ _ _ e Hpost). by destruct e.
  - rewrite (run_query_posts _ _ _ _ _ _ _ _ _ _ d uri' body signed_host Hd Hreq).
    rewrite length_app. cbn. lia.
Qed.

Lemma run_query_transport_failure_witness :
  (run_query reference_runtime (sample_environment (Raise (RequestException "timed out")))
     "AKEY" "SECRET" "GetComputers" 7 "https://landscape.canonical.com/api"
     (PBool true) LATEST_VERSION sample_world).1
  = Raise (RequestException "timed out")
  ∧ length (posts (run_query reference_runtime
                     (sample_environment (Raise (RequestException "timed out")))
                     "AKEY" "SECRET" "GetComputers" 7
                     "https://landscape.canonical.com/api" (PBool true) LATEST_VERSION
                     sample_world).2)
    = S (length (posts sample_world)).
Proof.
  set (env := sample_environment (Raise (RequestException "timed out"))).
  destruct (signed_request reference_runtime "SECRET" "https://landscape.canonical.com/api"
              (fixed_fields "AKEY" "GetComputers" (env_timestamp env) LATEST_VERSION
                 sample_params)) as [[[uri' body] signed_host]|e] eqn:Hreq;
    [|vm_compute in Hreq; discriminate].
  apply (run_query_transport_failure reference_runtime env "AKEY" "SECRET" "GetComputers"
           7 "https://landscape.canonical.com/api" (PBool true) LATEST_VERSION
           sample_world sample_params uri' body signed_host (RequestException "timed out"));
    try reflexivity.
  exact Hreq.
Defined.

(** ** [MultiError] *)

Lemma HTTPError_init_fields (rt : runtime) (code : Z) (message : option string)
    (message_data : json) (e : http_error) :
  HTTPError_init rt code message message_data = Ok e →
  e_code e = code ∧ e_message e = message.
Proof.
  unfold HTTPError_init.
  destruct (match message with Some _ => _ | None => _ end) as [parsed|?]; [|done].
  cbn [mbind result_bind].
  destruct (json_truthy (if json_truthy message_data then message_data else parsed)).
  - destruct (subscript _ "error"); [|done]. cbn [mbind result_bind].
    destruct (subscript _ "message"); [|done]. cbn [mbind result_bind].
    by intros [= <-].
  - by intros [= <-].
Qed.

Lemma new_from_data_spec (rt : runtime) (cls : pyclass) (code : Z) (sub_error : json)
    (exception : exn) :
  new_from_data rt cls code sub_error = Ok exception →
  ∃ d, exception = HTTPException cls d [] ∧ cls ≠ MultiError
       ∧ e_code d = code ∧ e_message d = None
       ∧ e_message_data d = (if json_truthy sub_error then sub_error else JNull).
Proof.
  unfold new_from_data.
  assert (∀ d, HTTPError_init rt code None sub_error = Ok d →
               e_code d = code ∧ e_message d = None
               ∧ e_message_data d = (if json_truthy sub_error then sub_error else JNull))
    as Hinit.
  { intros d Hd. destruct (HTTPError_init_fields _ _ _ _ _ Hd) as [? ?].
    split; [done|]. split; [done|].
    unfold HTTPError_init in Hd. cbn [mbind result_bind] in Hd.
    destruct (json_truthy sub_error) eqn:Htruthy.
    - rewrite Htruthy in Hd.
      destruct (subscript _ "error"); [|done]. cbn [mbind result_bind] in Hd.
      destruct (subscript _ "message"); [|done]. cbn [mbind result_bind] in Hd.
      by injection Hd as <-.
    - cbn [json_truthy] in Hd. by injection Hd as <-. }
  destruct cls; try done;
    destruct (HTTPError_init rt code None sub_error) as [d|] eqn:Hd; try done;
    cbn [mbind result_bind]; intros [= <-]; exists d;
    (split; [done|]); (split; [done|]); by apply Hinit.
Qed.

Lemma sub_exceptions_spec (rt : runtime) (registry : gmap string pyclass) (code : Z)
    (sub_errors : list json) (exceptions : list exn) :
  sub_exceptions rt registry code sub_errors = Ok exceptions →
  Forall2 (λ exception sub_error,
             ∃ cls d, exception = HTTPException cls d [] ∧ cls ≠ MultiError
                      ∧ (cls = APIError ∨ ∃ name, lookup_error registry name = Some cls)
                      ∧ e_code d = code ∧ e_message d = None
                      ∧ e_message_data d
                        = (if json_truthy sub_error then sub_error else JNull))
          exceptions sub_errors.
Proof.
  revert exceptions. induction sub_errors as [|sub_error rest IH]; intros exceptions.
  - intros [= <-]. constructor.
  - cbn [sub_exceptions].
    destruct (json_get sub_error "error") as [error|]; [|done]. cbn [mbind result_bind].
    set (built := if is_not_None error then _ else _).
    destruct built as [exception|] eqn:Hbuilt; [|done]. cbn [mbind result_bind].
    destruct (sub_exceptions rt registry code rest) as [excs|]; [|done].
    cbn [mbind result_bind]. intros [= <-]. constructor; [|by apply IH].
    subst built. destruct (is_not_None error).
    + destruct (subscript sub_error "error") as [sub|]; [|done].
      cbn [mbind result_bind] in Hbuilt.
      destruct (error_code_name sub) as [name|]; [|done].
      cbn [mbind result_bind] in Hbuilt.
      destruct (lookup_error registry name) as [cls|] eqn:Hcls.
      * apply new_from_data_spec in Hbuilt as (d & ? & ? & ? & ? & ?).
        exists cls, d. repeat split; eauto.
      * apply new_from_data_spec in Hbuilt as (d & ? & ? & ? & ? & ?).
        exists APIError, d. repeat split; eauto.
    + apply new_from_data_spec in Hbuilt as (d & ? & ? & ? & ? & ?).
      exists APIError, d. repeat split; eauto.
Qed.

(** X13.  A [MultiError] that is built successfully holds one sub-exception
    for each element of the ["errors"] list of its document, in the order of
    the list.  Each one is an instance of a registered class or of
    [APIError], never a [MultiError]; it carries the status of the whole
    response, no message text, and its own sub-error as its data. *)
Theorem MultiError_sub_exceptions (rt : runtime) (registry : gmap string pyclass)
    (http_code : Z) (message : option string) (exception : exn) :
  MultiError_init rt registry http_code message = Ok exception →
  ∃ e errors sub_errors exceptions,
    exception = HTTPException MultiError e exceptions
    ∧ e_code e = http_code ∧ e_message e = message
    ∧ subscript (e_message_data e) "errors" = Ok errors
    ∧ json_iter errors = Ok sub_errors
    ∧ length exceptions = length sub_errors
    ∧ Forall2 (λ exception sub_error,
                 ∃ cls d, exception = HTTPException cls d [] ∧ cls ≠ MultiError
                          ∧ (cls = APIError
                             ∨ ∃ name, lookup_error registry name = Some cls)
                          ∧ e_code d = http_code ∧ e_message d = None
                          ∧ e_message_data d
                            = (if json_truthy sub_error then sub_error else JNull))
              exceptions sub_errors.
Proof.
  unfold MultiError_init.
  destruct (HTTPError_init rt http_code message JNull) as [e|] eqn:He; [|done].
  cbn [mbind result_bind].
  destruct (subscript (e_message_data e) "errors") as [errors|] eqn:Herrors; [|done].
  cbn [mbind result_bind].
  destruct (json_iter errors) as [sub_errors|] eqn:Hiter; [|done].
  cbn [mbind result_bind].
  destruct (sub_exceptions rt registry (e_code e) sub_errors) as [exceptions|] eqn:Hsubs;
    [|done].
  cbn [mbind result_bind]. intros [= <-].
  destruct (HTTPError_init_fields _ _ _ _ _ He) as [Hcode Hmessage].
  rewrite Hcode in Hsubs. apply sub_exceptions_spec in Hsubs.
  exists e, errors, sub_errors, exceptions.
  repeat split; try done. by eapply Forall2_length.
Qed.

Lemma MultiError_sub_exceptions_witness :
  ∃ e errors sub_errors exceptions,
    HTTPException MultiError
      (HttpError 400 (Some "{...}") sample_multi_error (JStr "MultiError") (JStr "2 errors"))
      [HTTPException (GeneratedError 3 "UnknownPocketError")
         (HttpError 400 None
            (JDict [("error", JStr "UnknownPocket"); ("message", JStr "no pocket")])
            (JStr "UnknownPocket") (JStr "no pocket")) [];
       HTTPException APIError
         (HttpError 400 None
            (JDict [("error", JStr "Brand New"); ("message", JStr "unheard of")])
            (JStr "Brand New") (JStr "unheard of")) []]
    = HTTPException MultiError e exceptions
    ∧ e_code e = 400 ∧ e_message e = Some "{...}"
    ∧ subscript (e_message_data e) "errors" = Ok errors
    ∧ json_iter errors = Ok sub_errors
    ∧ length exceptions = length sub_errors
    ∧ Forall2 (λ exception sub_error,
                 ∃ cls d, exception = HTTPException cls d [] ∧ cls ≠ MultiError
                          ∧ (cls = APIError
                             ∨ ∃ name, lookup_error (module_errors sample_schema) name
                                       = Some cls)
                          ∧ e_code d = 400 ∧ e_message d = None
                          ∧ e_message_data d
                            = (if json_truthy sub_error then sub_error else JNull))
              exceptions sub_errors.
Proof.
  apply (MultiError_sub_exceptions (runtime_decoding sample_multi_error)
           (module_errors sample_schema) 400 (Some "{...}")).
  vm_compute. reflexivity.
Defined.

(** ** Arguments that the schema does not declare *)

Lemma dict_pop_keeps (name : string) (entries rest : list (pyvalue * pyvalue))
    (found : pyvalue) (kv : pyvalue * pyvalue) :
  dict_pop name entries = Some (found, rest) →
  kv ∈ entries → py_eq (PStr name) kv.1 = false → kv ∈ rest.
Proof.
  revert rest. induction entries as [|[k x] entries IH]; intros rest Hpop Hin Hne;
    [by apply elem_of_nil in Hin|].
  cbn [dict_pop] in Hpop. destruct (py_eq (PStr name) k) eqn:Hk.
  - injection Hpop as _ <-. apply elem_of_cons in Hin as [->|Hin]; [|done].
    cbn [fst] in Hne. congruence.
  - destruct (dict_pop name entries) as [[found' rest']|] eqn:Hrest; [|done].
    cbn in Hpop. injection Hpop as <- <-.
    apply elem_of_cons in Hin as [->|Hin]; [by left|]. right. by eapply IH.
Qed.

(** An entry whose key is no field name survives the loop over the fields. *)
Lemma encode_fields_keeps
    (encode : parameter → string → pyvalue → result (gmap string string))
    (fields : list (string * parameter)) (entries : list (pyvalue * pyvalue))
    (prefix : string) (acc acc' : gmap string string) (arguments' : pyvalue)
    (kv : pyvalue * pyvalue) :
  encode_fields encode fields (PDict entries) prefix acc = Ok (acc', arguments') →
  kv ∈ entries →
  Forall (λ field, py_eq (PStr field.1) kv.1 = false) fields →
  ∃ rest, arguments' = PDict rest ∧ kv ∈ rest.
Proof.
  revert entries acc.
  induction fields as [|[pname pdesc] fields IH]; intros entries acc Henc Hin Hall.
  - injection Henc as _ <-. by exists entries.
  - apply Forall_cons in Hall as [Hname Hall]. cbn [encode_fields] in Henc.
    destruct (arg_contains pname (PDict entries)).
    + cbn [negb arg_pop] in Henc.
      destruct (dict_pop pname entries) as [[value rest]|] eqn:Hpop; [|done].
      cbn [mbind result_bind] in Henc.
      destruct (encode pdesc (prefix +:+ pname) value) as [encoded|]; [|done].
      cbn [mbind result_bind] in Henc.
      eapply IH; [done| |done]. by eapply dict_pop_keeps.
    + cbn [negb] in Henc. destruct (negb (p_optional pdesc)); [done|]. by eapply IH.
Qed.

(** X14.  An argument that no declared field is named after is never
    dropped silently: encoding fails.  If the declared fields themselves were
    encoded, the error is the [TypeError] for extra arguments, raised on the
    arguments left over, the unknown one among them; otherwise it is the
    error of the field that failed. *)
Theorem encode_struct_fields_rejects_unknown (rt : runtime)
    (read_binary : pyvalue → result string)
    (fields : list (string * parameter)) (entries : list (pyvalue * pyvalue))
    (prefix : string) (kv : pyvalue * pyvalue) :
  kv ∈ entries →
  Forall (λ field, py_eq (PStr field.1) kv.1 = false) fields →
  match encode_fields (_encode_argument rt read_binary) fields (PDict entries) prefix ∅ with
  | Ok (_, left_over) =>
      (∃ rest, left_over = PDict rest ∧ kv ∈ rest)
      ∧ _encode_struct_fields rt read_binary fields (PDict entries) prefix
        = Raise (TypeError ("Extra arguments: " +:+ repr_container rt left_over))
  | Raise e => _encode_struct_fields rt read_binary fields (PDict entries) prefix = Raise e
  end.
Proof.
  intros Hin Hall. unfold _encode_struct_fields, encode_struct_fields.
  destruct (encode_fields _ fields (PDict entries) prefix ∅) as [[acc left_over]|e] eqn:Henc;
    [|done].
  destruct (encode_fields_keeps _ _ _ _ _ _ _ _ Henc Hin Hall) as (rest & -> & Hrest).
  split; [by exists rest|]. cbn [mbind result_bind py_truthy].
  destruct rest; [by apply elem_of_nil in Hrest|done].
Qed.

Lemma encode_struct_fields_rejects_unknown_witness :
  (∃ rest, PDict [(PStr "tittle", PStr "group1")] = PDict rest
           ∧ (PStr "tittle", PStr "group1") ∈ rest)
  ∧ _encode_struct_fields reference_runtime (λ _, Raise (OSError "no file"))
      [("parent", Param "unicode" true PNone None None None None)]
      (PDict [(PStr "tittle", PStr "group1")]) ""
    = Raise (TypeError ("Extra arguments: "
                        +:+ repr_container reference_runtime
                              (PDict [(PStr "tittle", PStr "group1")]))).
Proof.
  apply (encode_struct_fields_rejects_unknown reference_runtime
           (λ _, Raise (OSError "no file"))
           [("parent", Param "unicode" true PNone None None None None)]
           [(PStr "tittle", PStr "group1")] "" (PStr "tittle", PStr "group1")).
  - by left.
  - by repeat constructor.
Defined.

(** ** Mappings given as a string *)

(** X15.  A mapping given as a string of [key=value] pairs is turned into a
    dict and the loop then iterates that dict, which gives its keys, each to
    be unpacked into two names.  Unless the first key consists of exactly
    two characters the encoding therefore fails with [ValueError]. *)
Theorem encode_mapping_string_unpacks_keys
    (encode : parameter → string → pyvalue → result (gmap string string))
    (p keyparam valueparam : parameter) (name s : string)
    (key value : string) (pairs : list (string * string)) :
  p_key p = Some keyparam →
  p_value p = Some valueparam →
  _parse_csv_mapping_safely s = Ok ((key, value) :: pairs) →
  length (code_points (strip key)) ≠ 2%nat →
  _encode_mapping encode p name (PStr s)
  = Raise (ValueError "wrong number of values to unpack").
Proof.
  intros Hkey Hvalue Hpairs Hlen. unfold _encode_mapping, mapping_entries.
  rewrite Hpairs, Hkey, Hvalue. rewrite !fmap_cons. cbn [dict_keys_of fst].
  rewrite bool_decide_eq_false_2 by apply not_elem_of_nil.
  rewrite !fmap_cons. cbn [encode_entries unpack2].
  by destruct (code_points (strip key)) as [|a [|b [|c l]]].
Qed.

Lemma encode_mapping_string_unpacks_keys_witness :
  _encode_mapping (_encode_argument reference_runtime (λ _, Raise (OSError "no file")))
    (Param "mapping" false PNone None (Some unicode_parameter) (Some unicode_parameter) None)
    "computer_titles" (PStr "1=alpha,2=beta")
  = Raise (ValueError "wrong number of values to unpack").
Proof.
  apply (encode_mapping_string_unpacks_keys _ _ unicode_parameter unicode_parameter _ _
           "1" "alpha" [("2", "beta")]); try reflexivity.
  vm_compute. discriminate.
Defined.

Example encode_mapping_samples :
  let titles :=
    Param "mapping" false PNone None (Some (Param "integer" false PNone None None None None))
      (Some unicode_parameter) None in
  _encode_argument reference_runtime (λ _, Raise (OSError "no file")) titles
    "computer_titles" (PDict [(PInt 1, PStr "a")])
  = Ok {[ "computer_titles.1" := "a" ]}
  ∧ _encode_argument reference_runtime (λ _, Raise (OSError "no file")) titles
      "computer_titles" (PStr "ab=c")
    = Ok {[ "computer_titles.a" := "b" ]}.
Proof. vm_compute. repeat split. Qed.

(** ** Percent-encoding loses nothing *)

Lemma unquote_percent_byte (c : ascii) (s : string) :
  unquote (percent_byte c +:+ s) = String c (unquote s).
Proof. destruct c as [[] [] [] [] [] [] [] []]; reflexivity. Qed.

Lemma unquote_other (c : ascii) (s : string) :
  Ascii.eqb c "%" = false → unquote (String c s) = String c (unquote s).
Proof.
  intros Hc. destruct s as [|h [|l s]]; cbn [unquote]; try done. by rewrite Hc.
Qed.

Lemma unquote_quote_id (safe : string) :
  contains_char "%" safe = false → ∀ u, unquote (quote u safe) = u.
Proof.
  intros Hsafe. induction u as [|c u IH]; [done|]. rewrite quote_cons.
  destruct (is_always_safe c || contains_char c safe) eqn:Hc.
  - rewrite app_cons, app_empty_l, unquote_other, IH; [done|].
    destruct (Ascii.eqb_spec c "%") as [->|]; [|done].
    rewrite Hsafe in Hc. by vm_compute in Hc.
  - by rewrite unquote_percent_byte, IH.
Qed.

(** X16.  Percent-encoding can be undone: decoding the [%XX] escapes of
    [quote(s, safe)] gives [s] back, for every set of safe characters that
    leaves the percent sign out (as [~] and [/], the two sets the code uses,
    do).  So [quote] never maps two strings to the same text. *)
Theorem unquote_quote (s safe : string) :
  contains_char "%" safe = false →
  unquote (quote s safe) = s
  ∧ ∀ t, quote s safe = quote t safe → s = t.
Proof.
  intros Hsafe.
  pose proof (unquote_quote_id safe Hsafe) as Hround.
  split; [done|]. intros t Ht.
  by rewrite <- (Hround s), <- (Hround t), Ht.
Qed.

Lemma unquote_quote_witness :
  unquote (quote "tag:web server~1 100%" "~") = "tag:web server~1 100%"
  ∧ ∀ t, quote "tag:web server~1 100%" "~" = quote t "~" → "tag:web server~1 100%" = t.
Proof. apply (unquote_quote "tag:web server~1 100%" "~"). reflexivity. Defined.

Lemma percent_byte_alphabet (c : ascii) :
  all_chars (λ d, is_always_safe d || Ascii.eqb d "%") (percent_byte c) = true.
Proof. destruct c as [[] [] [] [] [] [] [] []]; reflexivity. Qed.

Lemma all_chars_app (P : ascii → bool) (s t : string) :
  all_chars P (s +:+ t) = all_chars P s && all_chars P t.
Proof.
  induction s as [|c s IH]; [done|].
  rewrite app_cons. cbn [all_chars]. by rewrite IH, andb_assoc.
Qed.

Lemma all_chars_contains (P : ascii → bool) (c : ascii) (s : string) :
  all_chars P s = true → P c = false → contains_char c s = false.
Proof.
  intros Hall Hc. induction s as [|d s IH]; [done|].
  cbn [all_chars] in Hall. apply andb_true_iff in Hall as [Hd Hall].
  cbn [contains_char]. rewrite IH by done.
  destruct (Ascii.eqb_spec c d) as [->|]; [congruence|done].
Qed.

Lemma quote_all_chars (s : string) :
  all_chars (λ d, is_always_safe d || Ascii.eqb d "%") (quote s "~") = true.
Proof.
  induction s as [|c s IH]; [done|]. rewrite quote_char, all_chars_app, IH.
  destruct (is_always_safe c) eqn:Hc.
  - cbn [all_chars]. by rewrite Hc.
  - by rewrite percent_byte_alphabet.
Qed.

Lemma quote_no_ampersand (s : string) : contains_char "&" (quote s "~") = false.
Proof. by eapply all_chars_contains; [apply quote_all_chars|]. Qed.

Lemma quote_no_equals (s : string) : contains_char "=" (quote s "~") = false.
Proof. by eapply all_chars_contains; [apply quote_all_chars|]. Qed.

(** X17.  What [quote(s, safe="~")] is made of: letters, digits, the four
    characters [_ . - ~] and the percent sign.  The separators [&] and [=]
    of the canonical string and the line feed of the string to sign never
    occur in an encoded key or value. *)
Theorem quote_alphabet (s : string) :
  all_chars (λ d, is_always_safe d || Ascii.eqb d "%") (quote s "~") = true
  ∧ contains_char "&" (quote s "~") = false
  ∧ contains_char "=" (quote s "~") = false
  ∧ contains_char "010" (quote s "~") = false.
Proof.
  pose proof (quote_all_chars s) as H.
  split; [done|]. repeat split; by eapply all_chars_contains.
Qed.

(** ** The canonical string determines the parameters *)

Lemma contains_char_app (c : ascii) (s t : string) :
  contains_char c (s +:+ t) = contains_char c s || contains_char c t.
Proof.
  induction s as [|d s IH]; [done|].
  rewrite app_cons. cbn [contains_char]. by rewrite IH, orb_assoc.
Qed.

Lemma app_separator_inj (c : ascii) (s1 s2 t1 t2 : string) :
  contains_char c s1 = false → contains_char c s2 = false →
  s1 +:+ String c t1 = s2 +:+ String c t2 → s1 = s2 ∧ t1 = t2.
Proof.
  revert s2. induction s1 as [|a s1 IH]; intros s2 H1 H2 Heq.
  - destruct s2 as [|b s2]; [by injection Heq as ->|].
    rewrite app_cons, app_empty_l in Heq. injection Heq as <- _.
    cbn [contains_char] in H2. by rewrite Ascii.eqb_refl in H2.
  - destruct s2 as [|b s2].
    + rewrite app_cons, app_empty_l in Heq. injection Heq as -> _.
      cbn [contains_char] in H1. by rewrite Ascii.eqb_refl in H1.
    + rewrite !app_cons in Heq. injection Heq as -> Heq.
      cbn [contains_char] in H1, H2.
      apply orb_false_iff in H1 as [_ H1]. apply orb_false_iff in H2 as [_ H2].
      destruct (IH s2 H1 H2 Heq) as [-> ->]. done.
Qed.

Lemma join_with_inj (c : ascii) (xs ys : list string) :
  Forall (λ x, contains_char c x = false ∧ x ≠ "") xs →
  Forall (λ y, contains_char c y = false ∧ y ≠ "") ys →
  join_with (String c "") xs = join_with (String c "") ys → xs = ys.
Proof.
  revert ys. induction xs as [|x xs IH]; intros ys Hxs Hys Heq.
  - destruct ys as [|y ys]; [done|]. apply Forall_cons in Hys as [[_ Hy] _].
    destruct ys; cbn in Heq; [by subst|].
    symmetry in Heq. by apply app_eq_empty in Heq as [? _].
  - apply Forall_cons in Hxs as [[Hx Hx'] Hxs].
    destruct ys as [|y ys].
    + destruct xs; cbn in Heq; [by subst|]. by apply app_eq_empty in Heq as [? _].
    + apply Forall_cons in Hys as [[Hy Hy'] Hys].
      destruct xs as [|x2 xs], ys as [|y2 ys].
      * cbn in Heq. by subst.
      * rewrite (join_with_cons _ y) in Heq by done. cbn [join_with] in Heq.
        subst x. rewrite !contains_char_app in Hx. cbn [contains_char] in Hx.
        rewrite Ascii.eqb_refl in Hx. cbn [orb] in Hx. by rewrite orb_true_r in Hx.
      * rewrite (join_with_cons _ x) in Heq by done. cbn [join_with] in Heq.
        subst y. rewrite !contains_char_app in Hy. cbn [contains_char] in Hy.
        rewrite Ascii.eqb_refl in Hy. cbn [orb] in Hy. by rewrite orb_true_r in Hy.
      * rewrite (join_with_cons _ x), (join_with_cons _ y) in Heq by done.
        destruct (app_separator_inj c x y _ _ Hx Hy Heq) as [-> Hrest].
        f_equal. by apply IH.
Qed.

Lemma canonical_pair_inj (a b : string * string) :
  quote a.1 "~" +:+ "=" +:+ quote a.2 "~" = quote b.1 "~" +:+ "=" +:+ quote b.2 "~" →
  a = b.
Proof.
  destruct a as [k1 v1], b as [k2 v2]. cbn [fst snd]. intros Heq.
  destruct (app_separator_inj "=" _ _ _ _ (quote_no_equals k1) (quote_no_equals k2) Heq)
    as [Hk Hv].
  f_equal; [rewrite <- (unquote_quote_id "~" eq_refl k1), Hk
           |rewrite <- (unquote_quote_id "~" eq_refl v1), Hv];
    by apply unquote_quote_id.
Qed.

(** Dicts with the same canonical string hold the same bytes under the same
    keys. *)
Lemma sign_params_bytes_inj (params1 params2 : gmap string string) :
  sign_params params1 = sign_params params2 → params1 = params2.
Proof.
  unfold sign_params. intros Heq.
  assert (∀ items : list (string * string),
            Forall (λ x, contains_char "&" x = false ∧ x ≠ "")
                   ((λ kv, quote kv.1 "~" +:+ "=" +:+ quote kv.2 "~") <$> items)) as Hok.
  { intros items. apply Forall_fmap, Forall_forall. intros [k v] _.
    unfold compose. cbn [fst snd]. split.
    - rewrite !contains_char_app.
      by rewrite !quote_no_ampersand.
    - intros H. apply app_eq_empty in H as [_ H]. done. }
  apply (join_with_inj "&" _ _ (Hok _) (Hok _)) in Heq.
  assert (sorted_items params1 = sorted_items params2) as Hitems.
  { revert Heq. generalize (sorted_items params1) (sorted_items params2).
    induction l as [|a l IH]; intros [|b l']; try done.
    rewrite !fmap_cons. intros [= Hab Hl].
    apply canonical_pair_inj in Hab as ->. f_equal. by apply IH. }
  apply map_to_list_inj.
  rewrite <- (proj1 (sorted_items_spec params1)), <- (proj1 (sorted_items_spec params2)).
  by rewrite Hitems.
Qed.

(** X18.  The canonical query string determines the keys of the parameters
    and the bytes of each value: two dicts with the same canonical string
    agree on both.  It does not tell a [str] from [bytes]: a dict with a
    [bytes] value, as [_encode_data] returns, and the dict with the [str] of
    the same bytes are different dicts with one canonical string. *)
Theorem sign_params_determines_bytes (params1 params2 : gmap string param_value) :
  (sign_params (value_bytes <$> params1) = sign_params (value_bytes <$> params2) →
   value_bytes <$> params1 = value_bytes <$> params2)
  ∧ (∀ key encoded,
       ({[ key := VBytes encoded ]} : gmap string param_value) ≠ {[ key := VStr encoded ]}
       ∧ sign_params (value_bytes <$> {[ key := VBytes encoded ]})
         = sign_params (value_bytes <$> {[ key := VStr encoded ]})).
Proof.
  split; [apply sign_params_bytes_inj|].
  intros key encoded. split.
  - intros Heq. apply (f_equal (λ m : gmap string param_value, m !! key)) in Heq.
    by rewrite !lookup_singleton_eq in Heq.
  - by rewrite !map_fmap_singleton.
Qed.

Lemma sign_params_determines_bytes_witness :
  value_bytes <$> (<["query" := VStr "a&b=c"]> {[ "f" := VBytes "aGk=" ]}
                   : gmap string param_value)
  = value_bytes <$> (<["f" := VStr "aGk="]> {[ "query" := VStr "a&b=c" ]}).
Proof.
  apply (proj1 (sign_params_determines_bytes
                  (<["query" := VStr "a&b=c"]> {[ "f" := VBytes "aGk=" ]})
                  (<["f" := VStr "aGk="]> {[ "query" := VStr "a&b=c" ]}))).
  vm_compute. reflexivity.
Defined.

(** ** Lists of strings *)

Lemma str_of_int_inj (a b : Z) : str_of_int a = str_of_int b → a = b.
Proof.
  unfold str_of_int. intros H.
  assert (∀ n, NilZero.int_of_string (NilZero.string_of_int (Z.to_int n))
               = Some (Z.to_int n)) as Hisi.
  { intros n. apply NilZero.isi; destruct n; try done; cbn; intros [= Hp];
      by apply Unsigned.to_uint_nonnil in Hp. }
  apply (f_equal NilZero.int_of_string) in H. rewrite !Hisi in H.
  injection H as H. by apply DecimalZ.to_int_inj.
Qed.

Lemma item_path_inj (name : string) (i j : Z) :
  item_path name i = item_path name j → i = j.
Proof.
  unfold item_path. intros H. apply (inj (String.app name)) in H.
  apply (inj (String.app ".")) in H. apply str_of_int_inj in H. lia.
Qed.

Lemma encode_text_item (rt : runtime) (read_binary : pyvalue → result string)
    (item : parameter) (name s : string) :
  p_optional item = false → is_text_type (p_type item) = true →
  _encode_argument rt read_binary item name (PStr s) = Ok {[ name := s ]}.
Proof.
  intros Hopt Hty. rewrite _encode_argument_eq, Hopt. cbn [andb].
  unfold is_text_type in Hty. apply bool_decide_eq_true in Hty.
  repeat (apply elem_of_cons in Hty as [->|Hty]; [done|]).
  by apply elem_of_nil in Hty.
Qed.

(** What the loop of [_encode_list] adds to [acc] for a list of strings. *)
Lemma encode_items_strings (rt : runtime) (read_binary : pyvalue → result string)
    (item : parameter) (name : string) (l : list string) (i : Z)
    (acc : gmap string string) :
  p_optional item = false → is_text_type (p_type item) = true →
  ∃ m, encode_items (_encode_argument rt read_binary) (Some item) name i (PStr <$> l) acc
       = Ok m
    ∧ (∀ j s, l !! j = Some s → m !! item_path name (i + Z.of_nat j) = Some s)
    ∧ (∀ k, (∀ j, (j < length l)%nat → k ≠ item_path name (i + Z.of_nat j)) →
            m !! k = acc !! k).
Proof.
  intros Hopt Hty. revert i acc. induction l as [|s l IH]; intros i acc.
  - exists acc. by repeat split.
  - rewrite fmap_cons. cbn [encode_items].
    fold (item_path name i). rewrite encode_text_item by done.
    cbn [mbind result_bind].
    destruct (IH (i + 1) ({[ item_path name i := s ]} ∪ acc)) as (m & -> & Hin & Hout).
    exists m. split; [done|]. split.
    + intros [|j] s' Hj.
      * injection Hj as <-. rewrite Z.add_0_r. rewrite Hout.
        -- rewrite lookup_union_l'; by rewrite lookup_singleton_eq.
        -- intros j _ H. apply item_path_inj in H. lia.
      * replace (i + Z.of_nat (S j)) with (i + 1 + Z.of_nat j) by lia. by apply Hin.
    + intros k Hk. rewrite Hout.
      * rewrite lookup_union_r; [done|]. apply lookup_singleton_ne.
        intros H. apply (Hk O); [cbn; lia|]. by rewrite Z.add_0_r.
      * intros j Hj. replace (i + 1 + Z.of_nat j) with (i + Z.of_nat (S j)) by lia.
        apply Hk. cbn. lia.
Qed.

(** X19.  A list of strings is encoded position by position when it is not
    suppressed as the default of an optional parameter and the items are
    declared as required and of a text type: the item at position [i],
    counted from zero, is the value of [<name>.<i+1>], and these are all the
    keys, as many as there are items. *)
Theorem encode_list_of_strings (rt : runtime) (read_binary : pyvalue → result string)
    (p item : parameter) (name : string) (l : list string) :
  replace_spaces (p_type p) = "list" →
  p_item p = Some item →
  p_optional p && py_eq (PList (PStr <$> l)) (p_default p) = false →
  p_optional item = false →
  is_text_type (p_type item) = true →
  ∃ m, _encode_argument rt read_binary p name (PList (PStr <$> l)) = Ok m
    ∧ (∀ i s, l !! i = Some s → m !! item_path name (Z.of_nat i) = Some s)
    ∧ (∀ k, is_Some (m !! k) →
            ∃ i, (i < length l)%nat ∧ k = item_path name (Z.of_nat i))
    ∧ size m = length l.
Proof.
  intros Hlist Hitem Hdefault Hopt Hty.
  rewrite _encode_argument_eq, Hdefault, Hlist.
  cbn [handler_for String.eqb Ascii.eqb Bool.eqb]. unfold _encode_list.
  cbn [py_iter mbind result_bind]. rewrite Hitem.
  destruct (encode_items_strings rt read_binary item name l 0 ∅ Hopt Hty)
    as (m & -> & Hin & Hout).
  exists m. split; [done|].
  assert (∀ k, is_Some (m !! k) →
               ∃ i, (i < length l)%nat ∧ k = item_path name (Z.of_nat i)) as Hdom.
  { intros k Hk.
    destruct (decide (k ∈ (λ i, item_path name (Z.of_nat i)) <$> seq 0 (length l)))
      as [Hyes|Hno].
    - apply list_elem_of_fmap in Hyes as (i & -> & Hi). apply elem_of_seq in Hi.
      exists i. split; [lia|done].
    - rewrite Hout, lookup_empty in Hk; [by destruct Hk|].
      intros j Hj ->. apply Hno, list_elem_of_fmap. exists j. split; [done|].
      apply elem_of_seq. lia. }
  split; [intros i s Hi; by apply (Hin i s)|]. split; [done|].
  (* the keys are the paths of the positions, which are pairwise distinct *)
  transitivity (length ((λ i, item_path name (Z.of_nat i)) <$> seq 0 (length l)));
    [|by rewrite length_fmap, length_seq].
  rewrite <- size_dom.
  rewrite <- (size_list_to_set (C := gset string)).
  - f_equal. apply set_eq. intros k. rewrite elem_of_dom, elem_of_list_to_set.
    rewrite list_elem_of_fmap. split.
    + intros Hk. destruct (Hdom k Hk) as (i & Hi & ->). exists i. split; [done|].
      apply elem_of_seq. lia.
    + intros (i & -> & Hi). apply elem_of_seq in Hi.
      destruct (lookup_lt_is_Some_2 l i) as [s Hs]; [lia|].
      exists s. by apply (Hin i s).
  - apply NoDup_fmap_2_strong; [|apply NoDup_seq].
    intros i j _ _ H. apply item_path_inj in H. lia.
Qed.

Lemma encode_list_of_strings_witness :
  ∃ m, _encode_argument reference_runtime (λ _, Raise (OSError "no file"))
         (Param "list" false PNone (Some unicode_parameter) None None None) "tags"
         (PList (PStr <$> ["x"; "y"])) = Ok m
    ∧ (∀ i s, ["x"; "y"] !! i = Some s → m !! item_path "tags" (Z.of_nat i) = Some s)
    ∧ (∀ k, is_Some (m !! k) →
            ∃ i, (i < length ["x"; "y"])%nat ∧ k = item_path "tags" (Z.of_nat i))
    ∧ size m = length ["x"; "y"].
Proof.
  apply (encode_list_of_strings reference_runtime (λ _, Raise (OSError "no file"))
           (Param "list" false PNone (Some unicode_parameter) None None None)
           unicode_parameter "tags" ["x"; "y"]); reflexivity.
Defined.

(** ** The typed client *)

Lemma API_run_query_world (rt : runtime) (env : environment) (self : api)
    (action_name : string) (arguments : nat) (w : world) :
  (API_run_query rt env self action_name arguments w).2
  = (_run_query self rt env (_access_key self) (_secret_key self) action_name arguments
       (_uri self) (_ssl_ca_file self) w).2.
Proof.
  unfold API_run_query.
  destruct (_run_query self _ _ _ _ _ _ _ _ _) as [[text|e] w']; [|done].
  destruct (negb (_json self)); [|done]. by destruct (json_loads rt text).
Qed.

Lemma API_run_query_result (rt : runtime) (env : environment) (self : api)
    (action_name : string) (arguments : nat) (w : world) :
  (API_run_query rt env self action_name arguments w).1
  = match (_run_query self rt env (_access_key self) (_secret_key self) action_name
             arguments (_uri self) (_ssl_ca_file self) w).1 with
    | Ok text =>
        if _json self then Ok (Text text)
        else match json_loads rt text with
             | Some j => Ok (Decoded j)
             | None => Raise (JSONDecodeError text)
             end
    | Raise e => Raise e
    end.
Proof.
  unfold API_run_query.
  destruct (_run_query self _ _ _ _ _ _ _ _ _) as [[text|e] w']; [|done].
  cbn [fst]. destruct (_json self); [done|]. cbn [negb]. by destruct (json_loads rt text).
Qed.

Lemma run_query_sends_at_most_once (rt : runtime) (env : environment)
    (access_key secret_key action : string) (params : nat) (uri : string)
    (ssl_ca_file : pyvalue) (version : string) (w : world) :
  ∃ sent,
    posts (run_query rt env access_key secret_key action params uri ssl_ca_file version w).2
    = posts w ++ sent ∧ (length sent ≤ 1)%nat.
Proof.
  unfold run_query. destruct (dicts w !! params) as [d|].
  - cbv zeta. destruct (signed_request rt secret_key uri _) as [[[uri' body] host]|e].
    + cbn [snd]. rewrite fetch_world. cbn [posts]. eexists [_]. split; [done|cbn; lia].
    + exists []. cbn [snd posts]. split; [by rewrite app_nil_r|cbn; lia].
  - exists []. cbn [snd]. split; [by rewrite app_nil_r|cbn; lia].
Qed.

(** X20.  When the keyword arguments encode, [call] works on a dict of its
    own: every dict that existed before the call is unchanged after it, and
    the new dict holds the encoded arguments and the six fixed fields.  The
    version sent is the one bound in the [_run_query] of the client's class
    ([2011-08-01], the default of [run_query], for [_API] and [API];
    [2013-11-04] for [APIv2]); [self.version] only selects the handler.  At
    most one request is posted, and when the URI is accepted it is the
    request signed over those fields. *)
Theorem call_uses_own_dict (rt : runtime) (read_binary : pyvalue → result string)
    (env : environment) (self : api) (method : string) (kwargs : list (string * pyvalue))
    (w : world) (versions : list (string * handler)) (action : handler)
    (arguments : gmap string string) (sent_version : string) :
  dict_get method (_schema self) = Some versions →
  dict_get (version self) versions = Some action →
  _encode_struct_fields rt read_binary (h_parameters action)
    (PDict (prod_map PStr id <$> kwargs)) "" = Ok arguments →
  _run_query self = run_query_partial sent_version →
  let after := (call rt read_binary env self method kwargs w).2 in
  let address := fresh (dom (dicts w)) in
  let sent_fields :=
    fixed_fields (_access_key self) method (env_timestamp env) sent_version arguments in
  dicts w !! address = None
  ∧ dicts after = <[address := sent_fields]> (dicts w)
  ∧ (∀ a d, dicts w !! a = Some d → dicts after !! a = Some d)
  ∧ (∃ sent, posts after = posts w ++ sent ∧ (length sent ≤ 1)%nat)
  ∧ (∀ uri' body signed_host,
       signed_request rt (_secret_key self) (_uri self) sent_fields
       = Ok (uri', body, signed_host) →
       posts after
       = posts w ++ [Request uri' body
                       (<["Content-type" := "application/x-www-form-urlencoded"]>
                          {[ "Host" := signed_host ]})
                       (_ssl_ca_file self)]).
Proof.
  intros Hmethod Hversion Hencode Hquery. cbv zeta.
  assert (dicts w !! fresh (dom (dicts w)) = None) as Hfresh.
  { apply not_elem_of_dom, is_fresh. }
  unfold call. rewrite Hmethod, Hversion, Hencode. cbv zeta.
  rewrite API_run_query_world, Hquery. unfold run_query_partial.
  set (address := fresh (dom (dicts w))) in *.
  set (w' := World (<[address := arguments]> (dicts w)) (posts w)).
  assert (dicts w' !! address = Some arguments) as Hd.
  { subst w'. cbn [dicts]. by rewrite lookup_insert_eq. }
  assert (dicts (run_query rt env (_access_key self) (_secret_key self) method address
                   (_uri self) (_ssl_ca_file self) sent_version w').2
          = <[address := fixed_fields (_access_key self) method (env_timestamp env)
                           sent_version arguments]> (dicts w)) as Hdicts.
  { rewrite (run_query_dicts _ _ _ _ _ _ _ _ _ _ arguments Hd).
    subst w'. cbn [dicts]. by rewrite insert_insert_eq. }
  split; [done|]. split; [done|]. split.
  { intros a d Ha. rewrite Hdicts. rewrite lookup_insert_ne; [done|]. congruence. }
  split.
  { apply (run_query_sends_at_most_once rt env (_access_key self) (_secret_key self)
             method address (_uri self) (_ssl_ca_file self) sent_version w'). }
  intros uri' body signed_host Hreq.
  by rewrite (run_query_posts _ _ _ _ _ _ _ _ _ _ arguments uri' body signed_host Hd Hreq).
Qed.

Lemma call_uses_own_dict_witness :
  let self := sample_api_v2 in
  let env := sample_environment (Ok (Response true 200 "[]")) in
  let after :=
    (call reference_runtime (λ _, Raise (OSError "no file")) env self "CreateAccessGroup"
       [("name", PStr "group1")] sample_world).2 in
  let address := fresh (dom (dicts sample_world)) in
  let sent_fields :=
    fixed_fields (_access_key self) "CreateAccessGroup" (env_timestamp env) "2013-11-04"
      {[ "name" := "group1" ]} in
  dicts sample_world !! address = None
  ∧ dicts after = <[address := sent_fields]> (dicts sample_world)
  ∧ (∀ a d, dicts sample_world !! a = Some d → dicts after !! a = Some d)
  ∧ (∃ sent, posts after = posts sample_world ++ sent ∧ (length sent ≤ 1)%nat)
  ∧ (∀ uri' body signed_host,
       signed_request reference_runtime (_secret_key self) (_uri self) sent_fields
       = Ok (uri', body, signed_host) →
       posts after
       = posts sample_world ++ [Request uri' body
                       (<["Content-type" := "application/x-www-form-urlencoded"]>
                          {[ "Host" := signed_host ]})
                       (_ssl_ca_file self)]).
Proof.
  apply (call_uses_own_dict reference_runtime (λ _, Raise (OSError "no file"))
           (sample_environment (Ok (Response true 200 "[]"))) sample_api_v2
           "CreateAccessGroup" [("name", PStr "group1")] sample_world
           [(LATEST_VERSION, CreateAccessGroup); (FUTURE_VERSION, CreateAccessGroup_2013)]
           CreateAccessGroup_2013 {[ "name" := "group1" ]} "2013-11-04"); reflexivity.
Defined.

(** The two client classes of the module on the same action: the version
    each one sends. *)
Example call_versions_sample :
  let env := sample_environment (Ok (Response true 200 "[]")) in
  let sent self kwargs :=
    (call reference_runtime (λ _, Raise (OSError "no file")) env self "CreateAccessGroup"
       kwargs sample_world).2 in
  dicts (sent sample_api [("title", PStr "group1")])
    !! fresh (dom (dicts sample_world))
  = Some (fixed_fields "AKEY" "CreateAccessGroup" "2020-01-02T03:04:05Z" "2011-08-01"
            {[ "title" := "group1" ]})
  ∧ dicts (sent sample_api_v2 [("name", PStr "group1")])
      !! fresh (dom (dicts sample_world))
    = Some (fixed_fields "AKEY" "CreateAccessGroup" "2020-01-02T03:04:05Z" "2013-11-04"
              {[ "name" := "group1" ]}).
Proof. vm_compute. repeat split. Qed.

(** X21.  When the server accepts the request, [call_arbitrary] returns the
    response text itself for a client built with [json=True], and the
    decoded document otherwise; a success response whose body is not JSON
    then raises the decoding error, after the request has been sent. *)
Theorem call_arbitrary_decodes (rt : runtime) (env : environment) (self : api)
    (method : string) (arguments : nat) (w : world) (d : gmap string string)
    (sent_version uri' body signed_host : string) (resp : response) :
  _run_query self = run_query_partial sent_version →
  dicts w !! arguments = Some d →
  signed_request rt (_secret_key self) (_uri self)
    (fixed_fields (_access_key self) method (env_timestamp env) sent_version d)
  = Ok (uri', body, signed_host) →
  env_post env (Request uri' body
                  (<["Content-type" := "application/x-www-form-urlencoded"]>
                     {[ "Host" := signed_host ]})
                  (_ssl_ca_file self)) = Ok resp →
  resp_ok resp = true →
  let outcome := call_arbitrary rt env self method arguments w in
  (_json self = true → outcome.1 = Ok (Text (resp_text resp)))
  ∧ (∀ j, _json self = false → json_loads rt (resp_text resp) = Some j →
          outcome.1 = Ok (Decoded j))
  ∧ (_json self = false → json_loads rt (resp_text resp) = None →
     outcome.1 = Raise (JSONDecodeError (resp_text resp)))
  ∧ length (posts outcome.2) = S (length (posts w)).
Proof.
  intros Hquery Hd Hreq Hpost Hok. cbv zeta. unfold call_arbitrary.
  rewrite API_run_query_result, API_run_query_world, Hquery. unfold run_query_partial.
  rewrite (run_query_result _ _ _ _ _ _ _ _ _ _ d uri' body signed_host Hd Hreq).
  rewrite (fetch_ok _ _ _ _ _ _ _ resp Hpost Hok). cbn [translate_error].
  rewrite (run_query_posts _ _ _ _ _ _ _ _ _ _ d uri' body signed_host Hd Hreq).
  repeat split.
  - by intros ->.
  - by intros j -> ->.
  - by intros -> ->.
  - rewrite length_app. cbn. lia.
Qed.

Lemma call_arbitrary_decodes_witness :
  let resp := Response true 200 "<html>maintenance</html>" in
  let outcome :=
    call_arbitrary reference_runtime (sample_environment (Ok resp)) sample_api
      "GetComputers" 7 sample_world in
  (_json sample_api = true → outcome.1 = Ok (Text (resp_text resp)))
  ∧ (∀ j, _json sample_api = false →
          json_loads reference_runtime (resp_text resp) = Some j →
          outcome.1 = Ok (Decoded j))
  ∧ (_json sample_api = false → json_loads reference_runtime (resp_text resp) = None →
     outcome.1 = Raise (JSONDecodeError (resp_text resp)))
  ∧ length (posts outcome.2) = S (length (posts sample_world)).
Proof.
  set (resp := Response true 200 "<html>maintenance</html>").
  set (env := sample_environment (Ok resp)).
  destruct (signed_request reference_runtime "SECRET" "https://landscape.canonical.com/api"
              (fixed_fields "AKEY" "GetComputers" (env_timestamp env) LATEST_VERSION
                 sample_params)) as [[[uri' body] signed_host]|e] eqn:Hreq;
    [|vm_compute in Hreq; discriminate].
  apply (call_arbitrary_decodes reference_runtime env sample_api "GetComputers" 7
           sample_world sample_params LATEST_VERSION uri' body signed_host resp);
    try reflexivity.
  exact Hreq.
Defined.

(** ** The keys of an encoded argument *)

Lemma parameter_nested_ind (P : parameter → Prop) :
  (∀ p,
     (∀ q, p_item p = Some q → P q) →
     (∀ q, p_key p = Some q → P q) →
     (∀ q, p_value p = Some q → P q) →
     (∀ fields, p_fields p = Some fields → Forall (λ f, P f.2) fields) →
     P p) →
  ∀ p, P p.
Proof.
  intros H. fix go 1.
  intros [type optional default item key value fields]. apply H; cbn.
  - destruct item as [q'|]; intros q Hq; [|discriminate].
    injection Hq as <-. apply go.
  - destruct key as [q'|]; intros q Hq; [|discriminate].
    injection Hq as <-. apply go.
  - destruct value as [q'|]; intros q Hq; [|discriminate].
    injection Hq as <-. apply go.
  - destruct fields as [fs|]; intros fields Hfs; [|discriminate].
    injection Hfs as <-.
    induction fs as [|[n q] fs IH]; constructor; [apply go|apply IH].
Qed.

Lemma prefix_weaken (p q k : string) :
  String.prefix (p +:+ q) k = true → String.prefix p k = true.
Proof.
  revert k. induction p as [|c p IH]; intros k; [by destruct k|].
  rewrite app_cons. destruct k as [|d k]; [done|]. cbn [String.prefix].
  destruct (ascii_dec c d); [apply IH|done].
Qed.

Lemma keys_under_empty (prefix : string) : keys_under prefix ∅.
Proof. intros k Hk. rewrite lookup_empty in Hk. by destruct Hk. Qed.

Lemma keys_under_singleton (name value : string) : keys_under name {[ name := value ]}.
Proof.
  intros k Hk. destruct (decide (name = k)) as [<-|Hne].
  - unfold startswith. rewrite <- (app_empty_r name) at 2. apply prefix_app.
  - rewrite lookup_singleton_ne in Hk by done. by destruct Hk.
Qed.

Lemma keys_under_union (prefix : string) (m1 m2 : gmap string string) :
  keys_under prefix m1 → keys_under prefix m2 → keys_under prefix (m1 ∪ m2).
Proof.
  intros H1 H2 k [v Hk]. apply lookup_union_Some_raw in Hk as [Hk|[_ Hk]]; eauto.
Qed.

Lemma keys_under_weaken (prefix more : string) (m : gmap string string) :
  keys_under (prefix +:+ more) m → keys_under prefix m.
Proof. intros H k Hk. eapply prefix_weaken, H, Hk. Qed.

Section KeysOfHandlers.

Context (rt : runtime) (read_binary : pyvalue → result string).
Context (encode : parameter → string → pyvalue → result (gmap string string)).

(** [encode] keeps the keys of a parameter under the name it is given. *)
Definition keeps_keys (q : parameter) : Prop :=
  ∀ name value m, encode q name value = Ok m → keys_under name m.

Lemma encode_items_keys (item : option parameter) (name : string) (i : Z)
    (sequence : list pyvalue) (acc m : gmap string string) :
  (∀ q, item = Some q → keeps_keys q) →
  keys_under name acc →
  encode_items encode item name i sequence acc = Ok m →
  keys_under name m.
Proof.
  intros Hitem. revert i acc. induction sequence as [|x rest IH]; intros i acc Hacc.
  - by intros [= <-].
  - cbn [encode_items]. destruct item as [q|]; [|done].
    destruct (encode q _ x) as [encoded|e] eqn:Hx; [|done]. cbn [mbind result_bind].
    apply IH, keys_under_union; [|done].
    eapply keys_under_weaken, (Hitem q eq_refl), Hx.
Qed.

Lemma encode_entries_keys (keyparam valueparam : parameter) (name : string)
    (items : list (result (pyvalue * pyvalue))) (acc m : gmap string string) :
  keeps_keys valueparam →
  keys_under name acc →
  encode_entries encode keyparam valueparam name items acc = Ok m →
  keys_under name m.
Proof.
  intros Hvalue. revert acc. induction items as [|entry rest IH]; intros acc Hacc.
  - by intros [= <-].
  - cbn [encode_entries]. destruct entry as [[key value]|e]; [|done].
    cbn [mbind result_bind].
    destruct (encode keyparam "<key>" key) as [encoded_key|e]; [|done].
    cbn [mbind result_bind].
    destruct (encoded_key !! "<key>") as [key'|]; [|done].
    destruct (encode valueparam _ value) as [encoded|e] eqn:Hv; [|done].
    cbn [mbind result_bind].
    apply IH, keys_under_union; [|done].
    eapply keys_under_weaken, Hvalue, Hv.
Qed.

Lemma encode_fields_keys (fields : list (string * parameter)) (arguments : pyvalue)
    (prefix : string) (acc acc' : gmap string string) (arguments' : pyvalue) :
  Forall (λ f, keeps_keys f.2) fields →
  keys_under prefix acc →
  encode_fields encode fields arguments prefix acc = Ok (acc', arguments') →
  keys_under prefix acc'.
Proof.
  intros Hfields. revert arguments acc.
  induction Hfields as [|[pname pdesc] fields Hp _ IH]; intros arguments acc Hacc.
  - by intros [= <- _].
  - cbn [encode_fields]. destruct (negb (arg_contains pname arguments)).
    + destruct (negb (p_optional pdesc)); [done|]. by apply IH.
    + destruct (arg_pop pname arguments) as [[value rest]|e]; [|done].
      cbn [mbind result_bind].
      destruct (encode pdesc _ value) as [encoded|e] eqn:Hv; [|done].
      cbn [mbind result_bind].
      apply IH, keys_under_union; [|done].
      eapply keys_under_weaken, Hp, Hv.
Qed.

Lemma encode_struct_fields_keys (fields : list (string * parameter)) (arguments : pyvalue)
    (prefix : string) (m : gmap string string) :
  Forall (λ f, keeps_keys f.2) fields →
  encode_struct_fields rt encode fields arguments prefix = Ok m →
  keys_under prefix m.
Proof.
  intros Hfields. unfold encode_struct_fields.
  destruct (encode_fields encode fields arguments prefix ∅) as [[acc rest]|e] eqn:Henc;
    [|done].
  cbn [mbind result_bind]. destruct (py_truthy rest); [done|]. intros [= <-].
  eapply encode_fields_keys; [done|apply keys_under_empty|done].
Qed.

Lemma handler_for_keys (kind : string) (p : parameter) (name : string) (value : pyvalue)
    (m : gmap string string) :
  (∀ q, p_item p = Some q → keeps_keys q) →
  (∀ q, p_value p = Some q → keeps_keys q) →
  (∀ fields, p_fields p = Some fields → Forall (λ f, keeps_keys f.2) fields) →
  handler_for rt read_binary encode kind p name value = Ok m →
  keys_under name m.
Proof.
  intros Hitem Hvalue Hfields.
  assert (∀ v, _encode_date name v = Ok m → keys_under name m) as Hdate.
  { intros v. destruct v; cbn [_encode_date]; try done;
      intros [= <-]; apply keys_under_singleton. }
  assert (encode_str rt name value = Ok m → keys_under name m) as Hstr.
  { intros [= <-]. apply keys_under_singleton. }
  assert (_encode_unicode rt name value = Ok m → keys_under name m) as Hunicode.
  { unfold _encode_unicode. destruct value; first [apply Hdate|apply Hstr]. }
  unfold handler_for.
  repeat (destruct (String.eqb kind _); [by auto|]).
  destruct (String.eqb kind _).
  { unfold _encode_file. destruct (read_binary value); [|done]. cbn [mbind result_bind].
    destruct value; try done. intros [= <-]. apply keys_under_singleton. }
  destruct (String.eqb kind _).
  { unfold _encode_boolean. intros [= <-]. apply keys_under_singleton. }
  destruct (String.eqb kind _); [apply Hdate|].
  destruct (String.eqb kind _).
  { unfold _encode_list.
    destruct (match value with PStr s => _ | _ => _ end) as [sequence|e]; [|done].
    cbn [mbind result_bind]. apply encode_items_keys; [done|apply keys_under_empty]. }
  destruct (String.eqb kind _).
  { unfold _encode_mapping. intros Hm.
    assert (∃ keyparam valueparam entries,
              p_value p = Some valueparam
              ∧ encode_entries encode keyparam valueparam name entries ∅ = Ok m)
      as (keyparam & valueparam & entries & Hv & Henc).
    { clear Hstr Hunicode.
      destruct value, (p_key p) as [keyparam|], (p_value p) as [valueparam|];
        try discriminate Hm;
        match type of Hm with
        | context [mapping_entries ?v] => destruct (mapping_entries v) as [found|e]
        end;
        try discriminate Hm; eauto. }
    eapply encode_entries_keys; [by apply Hvalue|apply keys_under_empty|done]. }
  destruct (String.eqb kind _).
  { unfold _encode_data. destruct (read_binary value); [|done]. cbn [mbind result_bind].
    intros [= <-]. apply keys_under_singleton. }
  destruct (String.eqb kind _); [|done].
  unfold _encode_structure. destruct (p_fields p) as [fields|] eqn:Hfs; [|done].
  destruct (py_copy value) as [arguments|e]; [|done]. cbn [mbind result_bind].
  intros Henc. eapply keys_under_weaken, encode_struct_fields_keys; [|done].
  by apply Hfields.
Qed.

End KeysOfHandlers.

Lemma _encode_argument_keeps_keys (rt : runtime) (read_binary : pyvalue → result string)
    (p : parameter) :
  keeps_keys (_encode_argument rt read_binary) p.
Proof.
  induction p as [p Hitem _ Hvalue Hfields] using parameter_nested_ind.
  intros name value m. rewrite _encode_argument_eq.
  destruct (p_optional p && py_eq value (p_default p)).
  - intros [= <-]. apply keys_under_empty.
  - by apply handler_for_keys.
Qed.

(** X22.  Every key that encoding an argument produces starts with the name
    the argument was encoded under, however deeply lists, mappings and
    structures nest; the keys that [_encode_struct_fields] produces all
    start with its prefix. *)
Theorem encode_argument_keys (rt : runtime) (read_binary : pyvalue → result string) :
  (∀ p name value m k,
     _encode_argument rt read_binary p name value = Ok m →
     is_Some (m !! k) → startswith k name = true)
  ∧ (∀ fields arguments prefix m k,
       _encode_struct_fields rt read_binary fields arguments prefix = Ok m →
       is_Some (m !! k) → startswith k prefix = true).
Proof.
  split.
  - intros p name value m k Henc.
    exact (_encode_argument_keeps_keys rt read_binary p name value m Henc k).
  - intros fields arguments prefix m k Henc.
    refine (encode_struct_fields_keys rt (_encode_argument rt read_binary)
              fields arguments prefix m _ Henc k).
    apply Forall_forall. intros f _. apply _encode_argument_keeps_keys.
Qed.

Lemma encode_argument_keys_witness :
  startswith "tags.2" "tags" = true.
Proof.
  apply (proj1 (encode_argument_keys reference_runtime (λ _, Raise (OSError "no file")))
           (Param "list" false PNone (Some unicode_parameter) None None None) "tags"
           (PStr "x, y") {[ "tags.1" := "x"; "tags.2" := "y" ]} "tags.2").
  - vm_compute. reflexivity.
  - by exists "y".
Defined.
